(** * A shallow embedding of the two 2D platform-game engines

    [DonkeyKong] embeds [src/components/DonkeyKong.tsx] (the full, four-level
    variant) and [DonkeyKongAtari] embeds the component of the same name
    (the reduced single-screen variant).  [PacMan] embeds the 3D maze game
    of [src/components/Game3D.tsx], which shares the frame-and-render
    structure of the other two.

    Numbers.  Coordinates, velocities and speeds are JavaScript numbers, that
    is IEEE-754 binary64 values: they are embedded as Rocq's primitive
    [float], whose operations are the binary64 ones, so [0.3 + 0.3 + 0.3]
    rounds here as it does in the program.  Counters that only ever hold
    small integers (score, bonus, lives, timers, frame numbers, the frame
    counter) are embedded as [Z]; they stay far below 2^53, where binary64
    arithmetic on integers is exact.

    React state.  A frame of the game loop reads every [useState] variable as
    of the render it closes over and queues its updates; [useRef] cells are
    mutated in place.  The functions below therefore take the world [w0] the
    frame started from (for the reads of state variables) next to the world
    [w] they are transforming (whose ref fields hold the current contents and
    whose state fields hold the queued values).  The next frame starts from
    the world the previous one produced.

    Sound and drawing are effects outside the world and are left out. *)

From Stdlib Require Import Floats ZArith List Bool String Lia.
Import ListNotations.

Set Warnings "-inexact-float".
#[local] Open Scope Z_scope.

(** ** JavaScript number operations *)

Module JS.

(** [a > b] and [a >= b] on numbers: false as soon as one side is NaN. *)
Definition gtb (a b : float) : bool := (b <? a)%float.
Definition geb (a b : float) : bool := (b <=? a)%float.

Definition is_negzero (a : float) : bool :=
  match classify a with NZero => true | _ => false end.

(** [Math.max] and [Math.min] of two numbers: NaN when one argument is NaN,
    and [+0] counts as larger than [-0]. *)
Definition Math_max (a b : float) : float :=
  if is_nan a || is_nan b then nan
  else if (a <? b)%float then b
  else if (b <? a)%float then a
  else if is_negzero a then b else a.

Definition Math_min (a b : float) : float :=
  if is_nan a || is_nan b then nan
  else if (a <? b)%float then a
  else if (b <? a)%float then b
  else if is_negzero a then a else b.

Definition Math_abs (a : float) : float := abs a.

(** [Math.random()]: the calls made during one frame are answered by an
    oracle, indexed by the number of calls made so far in that frame. *)
Definition random := nat -> float.

(** [Set.prototype.has] on the set of pressed key codes. *)
Definition has (keys : list string) (k : string) : bool :=
  existsb (String.eqb k) keys.

Definition add (keys : list string) (k : string) : list string :=
  if has keys k then keys else keys ++ [k].

Definition delete (keys : list string) (k : string) : list string :=
  filter (fun s => negb (String.eqb k s)) keys.

(** The number of elements of [l] that satisfy [p]. *)
Definition countb {A} (p : A -> bool) (l : list A) : Z :=
  Z.of_nat (List.length (filter p l)).

End JS.

(** ** The full variant: [DonkeyKong.tsx] *)

Module DonkeyKong.
Import JS.

Definition CANVAS_WIDTH : float := 224.
Definition CANVAS_HEIGHT : float := 256.
Definition MARIO_WIDTH : float := 16.
Definition MARIO_HEIGHT : float := 16.
Definition BARREL_WIDTH : float := 16.
Definition BARREL_HEIGHT : float := 14.
Definition DONKEY_KONG_WIDTH : float := 32.
Definition DONKEY_KONG_HEIGHT : float := 32.
Definition FIREBALL_WIDTH : float := 8.
Definition FIREBALL_HEIGHT : float := 8.

Inductive GameState :=
| TITLE_SCREEN | HOW_HIGH_SCREEN | LEVEL_INTRO | PLAYING | MARIO_DEATH
| LEVEL_COMPLETE | GAME_OVER | HIGH_SCORE | INTERLUDE.

Inductive LevelType := GIRDERS | RIVET | ELEVATOR | CONVEYOR.

Definition GameState_eqb (a b : GameState) : bool :=
  match a, b with
  | TITLE_SCREEN, TITLE_SCREEN | HOW_HIGH_SCREEN, HOW_HIGH_SCREEN
  | LEVEL_INTRO, LEVEL_INTRO | PLAYING, PLAYING | MARIO_DEATH, MARIO_DEATH
  | LEVEL_COMPLETE, LEVEL_COMPLETE | GAME_OVER, GAME_OVER
  | HIGH_SCORE, HIGH_SCORE | INTERLUDE, INTERLUDE => true
  | _, _ => false
  end.

Definition LevelType_eqb (a b : LevelType) : bool :=
  match a, b with
  | GIRDERS, GIRDERS | RIVET, RIVET | ELEVATOR, ELEVATOR
  | CONVEYOR, CONVEYOR => true
  | _, _ => false
  end.

(** [(currentLevel + 1) % 4] on the enum's numbering. *)
Definition nextLevelType (l : LevelType) : LevelType :=
  match l with
  | GIRDERS => RIVET | RIVET => ELEVATOR | ELEVATOR => CONVEYOR
  | CONVEYOR => GIRDERS
  end.

Record Sprite := mkSprite {
  x : float; y : float; width : float; height : float;
  vx : float; vy : float; frame : Z; animTimer : Z }.

Record Barrel := mkBarrel {
  b_sprite : Sprite; onLadder : bool; rolling : bool }.

Record Fireball := mkFireball {
  f_sprite : Sprite; direction : float }.

Record Rivet := mkRivet { rx : float; ry : float; removed : bool }.

Record Elevator := mkElevator {
  ex : float; ey : float; eheight : float; edirection : float;
  espeed : float }.

(** Platforms and ladders are object literals with these four fields. *)
Record Rect := mkRect { px : float; py : float; pw : float; ph : float }.

Record Touch := mkTouch {
  left : bool; right : bool; up : bool; down : bool; jump : bool }.

(** *** Level data *)

Definition girderPlatforms : list Rect :=
  [ mkRect 8 232 208 8; mkRect 8 200 80 8; mkRect 136 200 80 8;
    mkRect 8 168 80 8; mkRect 136 168 80 8; mkRect 8 136 80 8;
    mkRect 136 136 80 8; mkRect 8 104 80 8; mkRect 136 104 80 8;
    mkRect 8 72 80 8; mkRect 136 72 80 8; mkRect 56 40 112 8 ].

Definition girderLadders : list Rect :=
  [ mkRect 88 200 8 32; mkRect 120 168 8 32; mkRect 88 136 8 32;
    mkRect 120 104 8 32; mkRect 88 72 8 32; mkRect 112 40 8 32 ].

Definition rivetPlatforms : list Rect :=
  [ mkRect 8 232 208 8; mkRect 8 168 208 8; mkRect 8 104 208 8;
    mkRect 56 40 112 8 ].

Definition rivetLadders : list Rect :=
  [ mkRect 32 168 8 64; mkRect 88 104 8 64; mkRect 136 168 8 64;
    mkRect 184 104 8 64; mkRect 112 40 8 64 ].

Definition elevatorPlatforms : list Rect :=
  [ mkRect 8 232 208 8; mkRect 8 40 208 8 ].

Definition conveyorPlatforms : list Rect :=
  [ mkRect 8 232 208 8; mkRect 8 200 64 8; mkRect 88 200 48 8;
    mkRect 152 200 64 8; mkRect 8 168 64 8; mkRect 152 168 64 8;
    mkRect 56 136 112 8; mkRect 56 40 112 8 ].

Definition conveyorLadders : list Rect :=
  [ mkRect 72 200 8 32; mkRect 144 200 8 32; mkRect 72 168 8 32;
    mkRect 144 168 8 32; mkRect 112 136 8 32; mkRect 112 40 8 96 ].

Definition getCurrentPlatforms (currentLevel : LevelType) : list Rect :=
  match currentLevel with
  | GIRDERS => girderPlatforms
  | RIVET => rivetPlatforms
  | ELEVATOR => elevatorPlatforms
  | CONVEYOR => conveyorPlatforms
  end.

Definition getCurrentLadders (currentLevel : LevelType) : list Rect :=
  match currentLevel with
  | GIRDERS => girderLadders
  | RIVET => rivetLadders
  | ELEVATOR => []
  | CONVEYOR => conveyorLadders
  end.

(** *** The world: the component's state variables and refs *)

Record World := mkWorld {
  (* useState *)
  gameState : GameState;
  currentLevel : LevelType;
  score : Z;
  lives : Z;
  level : Z;
  highScore : Z;
  bonus : Z;
  marioHasHammer : bool;
  hammerTimer : Z;
  touchControls : Touch;
  (* useRef *)
  mario : Sprite;
  donkeyKong : Sprite;
  barrels : list Barrel;
  fireballs : list Fireball;
  rivets : list Rivet;
  elevators : list Elevator;
  keys : list string;
  gameTime : Z;
  bonusTimer : Z;
  (* localStorage, key donkeyKongHighScore *)
  storedHighScore : option Z }.

Definition setGameState v w := mkWorld v (currentLevel w) (score w) (lives w) (level w) (highScore w) (bonus w) (marioHasHammer w) (hammerTimer w) (touchControls w) (mario w) (donkeyKong w) (barrels w) (fireballs w) (rivets w) (elevators w) (keys w) (gameTime w) (bonusTimer w) (storedHighScore w).
Definition setCurrentLevel v w := mkWorld (gameState w) v (score w) (lives w) (level w) (highScore w) (bonus w) (marioHasHammer w) (hammerTimer w) (touchControls w) (mario w) (donkeyKong w) (barrels w) (fireballs w) (rivets w) (elevators w) (keys w) (gameTime w) (bonusTimer w) (storedHighScore w).
Definition setScore v w := mkWorld (gameState w) (currentLevel w) v (lives w) (level w) (highScore w) (bonus w) (marioHasHammer w) (hammerTimer w) (touchControls w) (mario w) (donkeyKong w) (barrels w) (fireballs w) (rivets w) (elevators w) (keys w) (gameTime w) (bonusTimer w) (storedHighScore w).
Definition setLives v w := mkWorld (gameState w) (currentLevel w) (score w) v (level w) (highScore w) (bonus w) (marioHasHammer w) (hammerTimer w) (touchControls w) (mario w) (donkeyKong w) (barrels w) (fireballs w) (rivets w) (elevators w) (keys w) (gameTime w) (bonusTimer w) (storedHighScore w).
Definition setLevel v w := mkWorld (gameState w) (currentLevel w) (score w) (lives w) v (highScore w) (bonus w) (marioHasHammer w) (hammerTimer w) (touchControls w) (mario w) (donkeyKong w) (barrels w) (fireballs w) (rivets w) (elevators w) (keys w) (gameTime w) (bonusTimer w) (storedHighScore w).
Definition setHighScore v w := mkWorld (gameState w) (currentLevel w) (score w) (lives w) (level w) v (bonus w) (marioHasHammer w) (hammerTimer w) (touchControls w) (mario w) (donkeyKong w) (barrels w) (fireballs w) (rivets w) (elevators w) (keys w) (gameTime w) (bonusTimer w) (storedHighScore w).
Definition setBonus v w := mkWorld (gameState w) (currentLevel w) (score w) (lives w) (level w) (highScore w) v (marioHasHammer w) (hammerTimer w) (touchControls w) (mario w) (donkeyKong w) (barrels w) (fireballs w) (rivets w) (elevators w) (keys w) (gameTime w) (bonusTimer w) (storedHighScore w).
Definition setMarioHasHammer v w := mkWorld (gameState w) (currentLevel w) (score w) (lives w) (level w) (highScore w) (bonus w) v (hammerTimer w) (touchControls w) (mario w) (donkeyKong w) (barrels w) (fireballs w) (rivets w) (elevators w) (keys w) (gameTime w) (bonusTimer w) (storedHighScore w).
Definition setHammerTimer v w := mkWorld (gameState w) (currentLevel w) (score w) (lives w) (level w) (highScore w) (bonus w) (marioHasHammer w) v (touchControls w) (mario w) (donkeyKong w) (barrels w) (fireballs w) (rivets w) (elevators w) (keys w) (gameTime w) (bonusTimer w) (storedHighScore w).
Definition setTouchControls v w := mkWorld (gameState w) (currentLevel w) (score w) (lives w) (level w) (highScore w) (bonus w) (marioHasHammer w) (hammerTimer w) v (mario w) (donkeyKong w) (barrels w) (fireballs w) (rivets w) (elevators w) (keys w) (gameTime w) (bonusTimer w) (storedHighScore w).
Definition set_mario v w := mkWorld (gameState w) (currentLevel w) (score w) (lives w) (level w) (highScore w) (bonus w) (marioHasHammer w) (hammerTimer w) (touchControls w) v (donkeyKong w) (barrels w) (fireballs w) (rivets w) (elevators w) (keys w) (gameTime w) (bonusTimer w) (storedHighScore w).
Definition set_donkeyKong v w := mkWorld (gameState w) (currentLevel w) (score w) (lives w) (level w) (highScore w) (bonus w) (marioHasHammer w) (hammerTimer w) (touchControls w) (mario w) v (barrels w) (fireballs w) (rivets w) (elevators w) (keys w) (gameTime w) (bonusTimer w) (storedHighScore w).
Definition set_barrels v w := mkWorld (gameState w) (currentLevel w) (score w) (lives w) (level w) (highScore w) (bonus w) (marioHasHammer w) (hammerTimer w) (touchControls w) (mario w) (donkeyKong w) v (fireballs w) (rivets w) (elevators w) (keys w) (gameTime w) (bonusTimer w) (storedHighScore w).
Definition set_fireballs v w := mkWorld (gameState w) (currentLevel w) (score w) (lives w) (level w) (highScore w) (bonus w) (marioHasHammer w) (hammerTimer w) (touchControls w) (mario w) (donkeyKong w) (barrels w) v (rivets w) (elevators w) (keys w) (gameTime w) (bonusTimer w) (storedHighScore w).
Definition set_rivets v w := mkWorld (gameState w) (currentLevel w) (score w) (lives w) (level w) (highScore w) (bonus w) (marioHasHammer w) (hammerTimer w) (touchControls w) (mario w) (donkeyKong w) (barrels w) (fireballs w) v (elevators w) (keys w) (gameTime w) (bonusTimer w) (storedHighScore w).
Definition set_elevators v w := mkWorld (gameState w) (currentLevel w) (score w) (lives w) (level w) (highScore w) (bonus w) (marioHasHammer w) (hammerTimer w) (touchControls w) (mario w) (donkeyKong w) (barrels w) (fireballs w) (rivets w) v (keys w) (gameTime w) (bonusTimer w) (storedHighScore w).
Definition set_keys v w := mkWorld (gameState w) (currentLevel w) (score w) (lives w) (level w) (highScore w) (bonus w) (marioHasHammer w) (hammerTimer w) (touchControls w) (mario w) (donkeyKong w) (barrels w) (fireballs w) (rivets w) (elevators w) v (gameTime w) (bonusTimer w) (storedHighScore w).
Definition set_gameTime v w := mkWorld (gameState w) (currentLevel w) (score w) (lives w) (level w) (highScore w) (bonus w) (marioHasHammer w) (hammerTimer w) (touchControls w) (mario w) (donkeyKong w) (barrels w) (fireballs w) (rivets w) (elevators w) (keys w) v (bonusTimer w) (storedHighScore w).
Definition set_bonusTimer v w := mkWorld (gameState w) (currentLevel w) (score w) (lives w) (level w) (highScore w) (bonus w) (marioHasHammer w) (hammerTimer w) (touchControls w) (mario w) (donkeyKong w) (barrels w) (fireballs w) (rivets w) (elevators w) (keys w) (gameTime w) v (storedHighScore w).
Definition set_storedHighScore v w := mkWorld (gameState w) (currentLevel w) (score w) (lives w) (level w) (highScore w) (bonus w) (marioHasHammer w) (hammerTimer w) (touchControls w) (mario w) (donkeyKong w) (barrels w) (fireballs w) (rivets w) (elevators w) (keys w) (gameTime w) (bonusTimer w) v.

(** Field updates of a sprite ([m.y = ...], [m.vy = ...], ...). *)
Definition set_x v (s : Sprite) := mkSprite v (y s) (width s) (height s) (vx s) (vy s) (frame s) (animTimer s).
Definition set_y v (s : Sprite) := mkSprite (x s) v (width s) (height s) (vx s) (vy s) (frame s) (animTimer s).
Definition set_vx v (s : Sprite) := mkSprite (x s) (y s) (width s) (height s) v (vy s) (frame s) (animTimer s).
Definition set_vy v (s : Sprite) := mkSprite (x s) (y s) (width s) (height s) (vx s) v (frame s) (animTimer s).
Definition set_frame v (s : Sprite) := mkSprite (x s) (y s) (width s) (height s) (vx s) (vy s) v (animTimer s).
Definition set_animTimer v (s : Sprite) := mkSprite (x s) (y s) (width s) (height s) (vx s) (vy s) (frame s) v.

(** *** Collision queries *)

(** [checkCollision(rect1, rect2)] reads the four rectangle fields of its
    arguments, which every sprite has. *)
Definition checkCollision (rect1 rect2 : Sprite) : bool :=
  (x rect1 <? x rect2 + width rect2)%float &&
  gtb (x rect1 + width rect1)%float (x rect2) &&
  (y rect1 <? y rect2 + height rect2)%float &&
  gtb (y rect1 + height rect1)%float (y rect2).

(** The test of the loops in [isOnPlatform] and in the conveyor scan. *)
Definition standsOn (mx my : float) (platform : Rect) : bool :=
  gtb (mx + MARIO_WIDTH)%float (px platform) &&
  (mx <? px platform + pw platform)%float &&
  geb (my + MARIO_HEIGHT)%float (py platform) &&
  (my + MARIO_HEIGHT <=? py platform + ph platform + 4)%float.

Definition standsOnElevator (mx my : float) (elevator : Elevator) : bool :=
  gtb (mx + MARIO_WIDTH)%float (ex elevator) &&
  (mx <? ex elevator + 16)%float &&
  geb (my + MARIO_HEIGHT)%float (ey elevator) &&
  (my + MARIO_HEIGHT <=? ey elevator + 8)%float.

Definition isOnPlatform (lvl : LevelType) (els : list Elevator)
    (mx my : float) : bool :=
  existsb (standsOn mx my) (getCurrentPlatforms lvl) ||
  (LevelType_eqb lvl ELEVATOR && existsb (standsOnElevator mx my) els).

Definition inLadder (mx my : float) (ladder : Rect) : bool :=
  geb (mx + MARIO_WIDTH / 2)%float (px ladder) &&
  (mx + MARIO_WIDTH / 2 <=? px ladder + pw ladder)%float &&
  geb (my + MARIO_HEIGHT)%float (py ladder) &&
  (my <=? py ladder + ph ladder)%float.

Definition canClimbLadder (lvl : LevelType) (mx my : float) : bool :=
  existsb (inLadder mx my) (getCurrentLadders lvl).

(** *** [checkWinCondition] *)

Definition atGoal (m : Sprite) : bool :=
  (y m <=? 48)%float && geb (x m) 56 && (x m <=? 168)%float.

Definition checkWinCondition (w0 w : World) : World :=
  let m := mario w in
  match currentLevel w0 with
  | GIRDERS =>
      if atGoal m
      then setScore (score w + bonus w0) (setGameState LEVEL_COMPLETE w)
      else w
  | RIVET =>
      if forallb removed (rivets w)
      then setScore (score w + bonus w0) (setGameState INTERLUDE w)
      else w
  | ELEVATOR | CONVEYOR =>
      if atGoal m
      then setScore (score w + bonus w0) (setGameState LEVEL_COMPLETE w)
      else w
  end.

(** *** [updateMario] *)

Definition pressedLeft (w0 w : World) : bool :=
  has (keys w) "ArrowLeft" || left (touchControls w0).
Definition pressedRight (w0 w : World) : bool :=
  has (keys w) "ArrowRight" || right (touchControls w0).
Definition pressedUp (w0 w : World) : bool :=
  has (keys w) "ArrowUp" || up (touchControls w0).
Definition pressedDown (w0 w : World) : bool :=
  has (keys w) "ArrowDown" || down (touchControls w0).
Definition pressedJump (w0 w : World) : bool :=
  has (keys w) "Space" || jump (touchControls w0).

(** Handle input: the horizontal velocity and the [moving] flag. *)
Definition marioInput (w0 w : World) (m : Sprite) : Sprite * bool :=
  if pressedLeft w0 w then (set_vx (-1)%float m, true)
  else if pressedRight w0 w then (set_vx 1%float m, true)
  else (set_vx 0%float m, false).

(** The conveyor loop [for (let i = 1; i < platforms.length - 1; i++)],
    run over the platforms it visits, [i] being the index of the head. *)
Fixpoint conveyorScan (i : nat) (ps : list Rect) (m : Sprite) : Sprite :=
  match ps with
  | [] => m
  | platform :: ps' =>
      if standsOn (x m) (y m) platform
      then set_vx (vx m + (if Nat.even i then 0.5 else -0.5))%float m
      else conveyorScan (S i) ps' m
  end.

Definition marioConveyor (w0 w : World) (m : Sprite) : Sprite :=
  if LevelType_eqb (currentLevel w0) CONVEYOR &&
     isOnPlatform (currentLevel w0) (elevators w) (x m) (y m)
  then
    let platforms := getCurrentPlatforms (currentLevel w0) in
    conveyorScan 1 (firstn (List.length platforms - 2) (skipn 1 platforms)) m
  else m.

Definition marioJump (w0 w : World) (m : Sprite) : Sprite :=
  if pressedJump w0 w && (vy m =? 0)%float &&
     isOnPlatform (currentLevel w0) (elevators w) (x m) (y m)
  then set_vy (-4)%float m
  else m.

Definition marioLadder (w0 w : World) (m : Sprite) : Sprite :=
  if pressedUp w0 w then
    if canClimbLadder (currentLevel w0) (x m) (y m)
    then set_vx 0%float (set_vy (-1)%float m) else m
  else if pressedDown w0 w then
    if canClimbLadder (currentLevel w0) (x m) (y m)
    then set_vx 0%float (set_vy 1%float m) else m
  else m.

Definition marioGravity (w0 : World) (m : Sprite) : Sprite :=
  if negb (canClimbLadder (currentLevel w0) (x m) (y m))
  then set_vy (vy m + 0.3)%float m
  else m.

Definition marioIntegrate (m : Sprite) : Sprite :=
  let m := set_x (x m + vx m)%float m in
  set_y (y m + vy m)%float m.

(** The test of the platform loop under [if (m.vy > 0)]. *)
Definition landsOn (m : Sprite) (platform : Rect) : bool :=
  gtb (x m + MARIO_WIDTH)%float (px platform) &&
  (x m <? px platform + pw platform)%float &&
  gtb (y m + MARIO_HEIGHT)%float (py platform) &&
  (y m + MARIO_HEIGHT <? py platform + ph platform + 8)%float.

Fixpoint platformScan (ps : list Rect) (m : Sprite) : Sprite :=
  match ps with
  | [] => m
  | platform :: ps' =>
      if landsOn m platform
      then set_vy 0%float (set_y (py platform - MARIO_HEIGHT)%float m)
      else platformScan ps' m
  end.

Definition landsOnElevator (m : Sprite) (elevator : Elevator) : bool :=
  gtb (x m + MARIO_WIDTH)%float (ex elevator) &&
  (x m <? ex elevator + 16)%float &&
  gtb (y m + MARIO_HEIGHT)%float (ey elevator) &&
  (y m + MARIO_HEIGHT <? ey elevator + 16)%float.

Fixpoint elevatorScan (els : list Elevator) (m : Sprite) : Sprite :=
  match els with
  | [] => m
  | elevator :: els' =>
      if landsOnElevator m elevator
      then
        let m := set_y (ey elevator - MARIO_HEIGHT)%float m in
        let m := set_vy 0%float m in
        set_y (y m + edirection elevator * espeed elevator)%float m
      else elevatorScan els' m
  end.


(** The whole block under [if (m.vy > 0)]: the guard is evaluated once, so
    the elevator loop runs even after a platform has zeroed [vy]. *)
Definition marioCollision (w0 w : World) (m : Sprite) : Sprite :=
  if gtb (vy m) 0 then
    let m := platformScan (getCurrentPlatforms (currentLevel w0)) m in
    if LevelType_eqb (currentLevel w0) ELEVATOR
    then elevatorScan (elevators w) m
    else m
  else m.

Definition marioClamp (m : Sprite) : Sprite :=
  set_x (Math_max 0 (Math_min (CANVAS_WIDTH - MARIO_WIDTH) (x m)))%float m.

Definition marioFell (m : Sprite) : bool := gtb (y m) CANVAS_HEIGHT.

Definition marioAnimate (moving : bool) (m : Sprite) : Sprite :=
  if moving then
    let m := set_animTimer (animTimer m + 1) m in
    if animTimer m >? 8
    then set_animTimer 0 (set_frame (Z.rem (frame m + 1) 3) m)
    else m
  else set_frame 0 m.

(** What [updateMario] does to the sprite up to the clamp, with the
    [moving] flag of the input step. *)
Definition marioPhysics (w0 w : World) : Sprite * bool :=
  let '(m, moving) := marioInput w0 w (mario w) in
  let m := marioConveyor w0 w m in
  let m := marioJump w0 w m in
  let m := marioLadder w0 w m in
  let m := marioGravity w0 m in
  let m := marioIntegrate m in
  let m := marioCollision w0 w m in
  (marioClamp m, moving).

Definition hammerPositions : list (float * float) :=
  [ (40, 192); (160, 128) ]%float.

Definition nearHammer (m : Sprite) (pos : float * float) : bool :=
  (Math_abs (x m - fst pos) <? 16)%float &&
  (Math_abs (y m - snd pos) <? 16)%float.

(** The guard of the pickup: Girders level, no hammer held as of the render
    the frame closes over, and some hammer position in reach. *)
Definition hammerPickup (w0 : World) (m : Sprite) : bool :=
  LevelType_eqb (currentLevel w0) GIRDERS && negb (marioHasHammer w0) &&
  existsb (nearHammer m) hammerPositions.

(** The updater passed to [setHammerTimer], with the [setMarioHasHammer]
    it issues. *)
Definition hammerCountdown (w : World) : World :=
  if hammerTimer w <=? 1
  then setHammerTimer 0 (setMarioHasHammer false w)
  else setHammerTimer (hammerTimer w - 1) w.

(** Death if falling off screen. *)
Definition marioDeath (w : World) : World :=
  if marioFell (mario w) then setGameState MARIO_DEATH w else w.

Definition marioPickup (w0 w : World) : World :=
  if hammerPickup w0 (mario w)
  then setHammerTimer 300 (setMarioHasHammer true w) else w.

Definition marioHammerTimer (w0 w : World) : World :=
  if marioHasHammer w0 then hammerCountdown w else w.

Definition updateMario (w0 w : World) : World :=
  let '(m, moving) := marioPhysics w0 w in
  let w := set_mario m w in
  let w := marioDeath w in
  let w := set_mario (marioAnimate moving (mario w)) w in
  let w := marioPickup w0 w in
  let w := marioHammerTimer w0 w in
  checkWinCondition w0 w.

(** *** [updateBarrels] *)

Definition map_b_sprite (f : Sprite -> Sprite) (barrel : Barrel) : Barrel :=
  mkBarrel (f (b_sprite barrel)) (onLadder barrel) (rolling barrel).
Definition set_onLadder v (barrel : Barrel) : Barrel :=
  mkBarrel (b_sprite barrel) v (rolling barrel).

Definition newBarrel : Barrel :=
  mkBarrel (mkSprite 56 72 BARREL_WIDTH BARREL_HEIGHT 1 0 0 0) false true.

(** The guard of the spawn, read when [updateBarrels] starts: the level of
    the render, the frame counter already incremented by [gameLoop], and
    the number of barrels in the list. *)
Definition barrelSpawns (w0 w : World) : bool :=
  LevelType_eqb (currentLevel w0) GIRDERS &&
  (Z.rem (gameTime w) 120 =? 0) &&
  (Z.of_nat (List.length (barrels w)) <? 4).

Definition spawnBarrel (w0 w : World) : World :=
  if barrelSpawns w0 w then set_barrels (barrels w ++ [newBarrel]) w else w.

Definition barrelLandsOn (barrel : Barrel) (platform : Rect) : bool :=
  let s := b_sprite barrel in
  gtb (x s + BARREL_WIDTH)%float (px platform) &&
  (x s <? px platform + pw platform)%float &&
  gtb (y s + BARREL_HEIGHT)%float (py platform) &&
  (y s + BARREL_HEIGHT <? py platform + ph platform + 8)%float.

Fixpoint barrelPlatformScan (ps : list Rect) (barrel : Barrel) : Barrel :=
  match ps with
  | [] => barrel
  | platform :: ps' =>
      if barrelLandsOn barrel platform
      then set_onLadder false
             (map_b_sprite (set_vy 0%float)
                (map_b_sprite (set_y (py platform - BARREL_HEIGHT)%float)
                   barrel))
      else barrelPlatformScan ps' barrel
  end.

Definition barrelAtLadder (barrel : Barrel) (ladder : Rect) : bool :=
  let s := b_sprite barrel in
  geb (x s + BARREL_WIDTH / 2)%float (px ladder) &&
  (x s + BARREL_WIDTH / 2 <=? px ladder + pw ladder)%float &&
  geb (y s + BARREL_HEIGHT)%float (py ladder).

Fixpoint barrelLadderScan (ls : list Rect) (barrel : Barrel) : Barrel :=
  match ls with
  | [] => barrel
  | ladder :: ls' =>
      if barrelAtLadder barrel ladder
      then map_b_sprite (set_vx 0%float)
             (map_b_sprite (set_vy 2%float) (set_onLadder true barrel))
      else barrelLadderScan ls' barrel
  end.

Definition spriteAnimate (limit modulus : Z) (s : Sprite) : Sprite :=
  let s := set_animTimer (animTimer s + 1) s in
  if animTimer s >? limit
  then set_animTimer 0 (set_frame (Z.rem (frame s + 1) modulus) s)
  else s.

(** The filter callback up to its first [return]: movement, gravity,
    platform collision, ladder interaction and animation of one barrel.
    [Math.random] is called only when the barrel is not on a ladder. *)
Definition barrelMove (lvl : LevelType) (rnd : random) (i : nat)
    (barrel : Barrel) : Barrel * nat :=
  let barrel :=
    map_b_sprite (fun s => set_x (x s + vx s)%float s) barrel in
  let barrel :=
    map_b_sprite (fun s => set_y (y s + vy s)%float s) barrel in
  let barrel :=
    if negb (onLadder barrel)
    then map_b_sprite (fun s => set_vy (vy s + 0.3)%float s) barrel
    else barrel in
  let barrel :=
    if gtb (vy (b_sprite barrel)) 0
    then barrelPlatformScan (getCurrentPlatforms lvl) barrel
    else barrel in
  let '(barrel, i) :=
    if negb (onLadder barrel) then
      if (rnd i <? 0.02)%float
      then (barrelLadderScan (getCurrentLadders lvl) barrel, S i)
      else (barrel, S i)
    else (barrel, i) in
  (map_b_sprite (spriteAnimate 6 4) barrel, i).

Definition barrelOffScreen (barrel : Barrel) : bool :=
  let s := b_sprite barrel in
  gtb (y s) CANVAS_HEIGHT || (x s <? -20)%float ||
  gtb (x s) (CANVAS_WIDTH + 20)%float.

(** One call of the filter callback: the barrel as it leaves the call, the
    callback's result, and the world with the updates it queued. *)
Definition barrelCallback (w0 : World) (rnd : random) (barrel : Barrel)
    (w : World) (i : nat) : Barrel * bool * World * nat :=
  let '(barrel, i) := barrelMove (currentLevel w0) rnd i barrel in
  if barrelOffScreen barrel then (barrel, false, w, i)
  else
    let w :=
      if negb (marioHasHammer w0) && checkCollision (mario w) (b_sprite barrel)
      then setGameState MARIO_DEATH w else w in
    if marioHasHammer w0 && checkCollision (mario w) (b_sprite barrel)
    then (barrel, false, setScore (score w + 300) w, i)
    else (barrel, true, w, i).

Fixpoint filterBarrels (w0 : World) (rnd : random) (bs : list Barrel)
    (w : World) (i : nat) : list Barrel * World * nat :=
  match bs with
  | [] => ([], w, i)
  | barrel :: bs' =>
      let '(barrel', keep, w, i) := barrelCallback w0 rnd barrel w i in
      let '(rest, w, i) := filterBarrels w0 rnd bs' w i in
      (if keep then barrel' :: rest else rest, w, i)
  end.

Definition updateBarrels (w0 : World) (rnd : random) (w : World) (i : nat)
    : World * nat :=
  let w := spawnBarrel w0 w in
  let '(bs, w, i) := filterBarrels w0 rnd (barrels w) w i in
  (set_barrels bs w, i).

(** *** [updateFireballs] *)

Definition map_f_sprite (f : Sprite -> Sprite) (fireball : Fireball)
    : Fireball :=
  mkFireball (f (f_sprite fireball)) (direction fireball).

Definition coin (r : float) : float := if gtb r 0.5 then 1%float else (-1)%float.

Definition newFireball (rnd : random) (i : nat) : Fireball :=
  mkFireball
    (mkSprite 24 232 FIREBALL_WIDTH FIREBALL_HEIGHT (coin (rnd i)) 0 0 0)
    (coin (rnd (S i))).

Definition fireballSpawns (w0 w : World) : bool :=
  LevelType_eqb (currentLevel w0) RIVET &&
  (Z.rem (gameTime w) 180 =? 0) &&
  (Z.of_nat (List.length (fireballs w)) <? 2).

Definition spawnFireball (w0 : World) (rnd : random) (w : World) (i : nat)
    : World * nat :=
  if fireballSpawns w0 w
  then (set_fireballs (fireballs w ++ [newFireball rnd i]) w, S (S i))
  else (w, i).

Definition fireballLandsOn (fireball : Fireball) (platform : Rect) : bool :=
  let s := f_sprite fireball in
  gtb (x s + FIREBALL_WIDTH)%float (px platform) &&
  (x s <? px platform + pw platform)%float &&
  gtb (y s + FIREBALL_HEIGHT)%float (py platform) &&
  (y s + FIREBALL_HEIGHT <? py platform + ph platform + 8)%float.

Fixpoint fireballPlatformScan (ps : list Rect) (fireball : Fireball)
    : Fireball :=
  match ps with
  | [] => fireball
  | platform :: ps' =>
      if fireballLandsOn fireball platform
      then map_f_sprite (set_vy (-2)%float)
             (map_f_sprite (set_y (py platform - FIREBALL_HEIGHT)%float)
                fireball)
      else fireballPlatformScan ps' fireball
  end.

Definition fireballMove (lvl : LevelType) (fireball : Fireball) : Fireball :=
  let fireball :=
    map_f_sprite (fun s => set_x (x s + vx s)%float s) fireball in
  let fireball :=
    map_f_sprite (fun s => set_y (y s + vy s)%float s) fireball in
  let fireball :=
    map_f_sprite (fun s => set_vy (vy s + 0.2)%float s) fireball in
  let fireball :=
    if gtb (vy (f_sprite fireball)) 0
    then fireballPlatformScan (getCurrentPlatforms lvl) fireball
    else fireball in
  let fireball :=
    if (x (f_sprite fireball) <=? 0)%float ||
       geb (x (f_sprite fireball)) (CANVAS_WIDTH - FIREBALL_WIDTH)%float
    then map_f_sprite (fun s => set_vx (vx s * -1)%float s) fireball
    else fireball in
  map_f_sprite (spriteAnimate 4 4) fireball.

Definition fireballOffScreen (fireball : Fireball) : bool :=
  gtb (y (f_sprite fireball)) CANVAS_HEIGHT.

Definition fireballCallback (w0 : World) (fireball : Fireball) (w : World)
    : Fireball * bool * World :=
  let fireball := fireballMove (currentLevel w0) fireball in
  if fireballOffScreen fireball then (fireball, false, w)
  else
    let w :=
      if checkCollision (mario w) (f_sprite fireball)
      then setGameState MARIO_DEATH w else w in
    (fireball, true, w).

Fixpoint filterFireballs (w0 : World) (fs : list Fireball) (w : World)
    : list Fireball * World :=
  match fs with
  | [] => ([], w)
  | fireball :: fs' =>
      let '(fireball', keep, w) := fireballCallback w0 fireball w in
      let '(rest, w) := filterFireballs w0 fs' w in
      (if keep then fireball' :: rest else rest, w)
  end.

Definition updateFireballs (w0 : World) (rnd : random) (w : World) (i : nat)
    : World * nat :=
  let '(w, i) := spawnFireball w0 rnd w i in
  let '(fs, w) := filterFireballs w0 (fireballs w) w in
  (set_fireballs fs w, i).

(** *** [updateElevators], [updateRivets], [updateDonkeyKong], [updateBonus] *)

Definition elevatorStep (elevator : Elevator) : Elevator :=
  let y' := (ey elevator + edirection elevator * espeed elevator)%float in
  let d' := if (y' <=? 50)%float || geb y' 200
            then (edirection elevator * -1)%float
            else edirection elevator in
  mkElevator (ex elevator) y' (eheight elevator) d' (espeed elevator).

Definition updateElevators (w0 w : World) : World :=
  if negb (LevelType_eqb (currentLevel w0) ELEVATOR) then w
  else set_elevators (map elevatorStep (elevators w)) w.

Definition rivetTouched (m : Sprite) (rivet : Rivet) : bool :=
  negb (removed rivet) &&
  (Math_abs (x m - rx rivet) <? 8)%float &&
  (Math_abs (y m - ry rivet) <? 8)%float.

Fixpoint rivetsScan (m : Sprite) (rs : list Rivet) (w : World)
    : list Rivet * World :=
  match rs with
  | [] => ([], w)
  | rivet :: rs' =>
      let '(rivet, w) :=
        if rivetTouched m rivet
        then (mkRivet (rx rivet) (ry rivet) true, setScore (score w + 100) w)
        else (rivet, w) in
      let '(rest, w) := rivetsScan m rs' w in
      (rivet :: rest, w)
  end.

Definition updateRivets (w0 w : World) : World :=
  if negb (LevelType_eqb (currentLevel w0) RIVET) then w
  else
    let '(rs, w) := rivetsScan (mario w) (rivets w) w in
    set_rivets rs w.

Definition updateDonkeyKong (w : World) : World :=
  set_donkeyKong (spriteAnimate 30 2 (donkeyKong w)) w.

Definition updateBonus (w : World) : World :=
  let w := set_bonusTimer (bonusTimer w + 1) w in
  if bonusTimer w >=? 60
  then set_bonusTimer 0 (setBonus (Z.max 0 (bonus w - 100)) w)
  else w.

(** *** [gameLoop]: one animation frame *)

Definition playingFrame (w0 : World) (rnd : random) (w : World) : World :=
  let w := updateMario w0 w in
  let '(w, i) := updateBarrels w0 rnd w 0%nat in
  let '(w, i) := updateFireballs w0 rnd w i in
  let w := updateElevators w0 w in
  let w := updateRivets w0 w in
  let w := updateDonkeyKong w in
  updateBonus w.

(** [gameTime.current++]. *)
Definition ticked (w0 : World) : World := set_gameTime (gameTime w0 + 1) w0.

Definition gameLoop (rnd : random) (w0 : World) : World :=
  let w := ticked w0 in
  if GameState_eqb (gameState w0) PLAYING
  then playingFrame w0 rnd w
  else w.

(** *** Game helper functions and event handlers *)

Definition resetMario (w : World) : World :=
  set_mario (mkSprite 24 232 MARIO_WIDTH MARIO_HEIGHT 0 0 0 0) w.

Definition initialRivets : list Rivet :=
  [ mkRivet 8 168 false; mkRivet 208 168 false; mkRivet 8 104 false;
    mkRivet 208 104 false; mkRivet 56 40 false; mkRivet 160 40 false ].

Definition initialElevators : list Elevator :=
  [ mkElevator 32 200 32 (-1) 1; mkElevator 64 150 32 1 1.2;
    mkElevator 96 180 32 (-1) 0.8; mkElevator 128 120 32 1 1.1;
    mkElevator 160 160 32 (-1) 0.9; mkElevator 192 140 32 1 1.3 ].

(** [initializeLevel] is only ever called from a timeout callback, where
    [currentLevel] is the value of the render that scheduled the timeout:
    [cl] is that value. *)
Definition initializeLevel (cl : LevelType) (w : World) : World :=
  let w := set_barrels [] w in
  let w := set_fireballs [] w in
  let w := set_elevators [] w in
  let w := setMarioHasHammer false w in
  let w := setHammerTimer 0 w in
  let w := setBonus 5000 w in
  let w := set_bonusTimer 0 w in
  let w := if LevelType_eqb cl RIVET then set_rivets initialRivets w else w in
  let w := if LevelType_eqb cl ELEVATOR
           then set_elevators initialElevators w else w in
  resetMario w.

(** The two callbacks handed to [setTimeout]; every delay is 2000 ms, so
    pending timeouts fire in the order they were scheduled. *)
Inductive Timeout :=
| toLevelIntro (cl : LevelType)
| toPlaying (cl : LevelType).

Definition fire (t : Timeout) (w : World) : World * list Timeout :=
  match t with
  | toLevelIntro cl => (setGameState LEVEL_INTRO w, [toPlaying cl])
  | toPlaying cl => (initializeLevel cl (setGameState PLAYING w), [])
  end.

Definition startGame (w : World) : World * list Timeout :=
  let cl := currentLevel w in
  let w := setGameState HOW_HIGH_SCREEN w in
  let w := setScore 0 w in
  let w := setLives 3 w in
  let w := setLevel 1 w in
  let w := setCurrentLevel GIRDERS w in
  (resetMario w, [toLevelIntro cl]).

Definition nextLevel (w0 : World) : World * list Timeout :=
  let w := setLevel (level w0 + 1) w0 in
  let w := setScore (score w + 1000 * level w0) w in
  let w := setCurrentLevel (nextLevelType (currentLevel w0)) w in
  (setGameState LEVEL_INTRO w, [toPlaying (currentLevel w0)]).

Definition resetGame (w0 : World) : World :=
  let w :=
    if score w0 >? highScore w0
    then set_storedHighScore (Some (score w0)) (setHighScore (score w0) w0)
    else w0 in
  let w := setGameState TITLE_SCREEN w in
  let w := setCurrentLevel GIRDERS w in
  let w := resetMario w in
  set_fireballs [] (set_barrels [] w).

Definition handleCanvasClick (w0 : World) : World * list Timeout :=
  match gameState w0 with
  | TITLE_SCREEN => startGame w0
  | HOW_HIGH_SCREEN =>
      (setGameState LEVEL_INTRO w0, [toPlaying (currentLevel w0)])
  | MARIO_DEATH =>
      if lives w0 >? 1
      then (setGameState PLAYING (resetMario (setLives (lives w0 - 1) w0)), [])
      else (setGameState GAME_OVER w0, [])
  | LEVEL_COMPLETE => nextLevel w0
  | INTERLUDE => nextLevel w0
  | GAME_OVER => (resetGame w0, [])
  | _ => (w0, [])
  end.

Definition handleKeyDown (code : string) (w : World) : World :=
  set_keys (add (keys w) code) w.
Definition handleKeyUp (code : string) (w : World) : World :=
  set_keys (delete (keys w) code) w.

Inductive Control := c_left | c_right | c_up | c_down | c_jump.

Definition setControl (control : Control) (v : bool) (t : Touch) : Touch :=
  match control with
  | c_left => mkTouch v (right t) (up t) (down t) (jump t)
  | c_right => mkTouch (left t) v (up t) (down t) (jump t)
  | c_up => mkTouch (left t) (right t) v (down t) (jump t)
  | c_down => mkTouch (left t) (right t) (up t) v (jump t)
  | c_jump => mkTouch (left t) (right t) (up t) (down t) v
  end.

Definition handleTouchStart (control : Control) (w : World) : World :=
  setTouchControls (setControl control true (touchControls w)) w.
Definition handleTouchEnd (control : Control) (w : World) : World :=
  setTouchControls (setControl control false (touchControls w)) w.

(** The component as mounted, before any saved high score is loaded. *)
Definition initialWorld : World :=
  mkWorld TITLE_SCREEN GIRDERS 0 3 1 7650 5000 false 0
    (mkTouch false false false false false)
    (mkSprite 24 232 MARIO_WIDTH MARIO_HEIGHT 0 0 0 0)
    (mkSprite 24 40 DONKEY_KONG_WIDTH DONKEY_KONG_HEIGHT 0 0 0 0)
    [] [] [] [] [] 0 0 None.

(** *** The component as a transition system *)

Inductive Event :=
| Frame (rnd : random)
| Click
| KeyDown (code : string)
| KeyUp (code : string)
| TouchStart (control : Control)
| TouchEnd (control : Control)
| TimerFires.

(** A configuration: the world and the queue of pending timeouts. *)
Definition Config : Type := World * list Timeout.

Definition step (c : Config) (e : Event) : Config :=
  let '(w, pending) := c in
  match e with
  | Frame rnd => (gameLoop rnd w, pending)
  | Click => let '(w, ts) := handleCanvasClick w in (w, pending ++ ts)
  | KeyDown code => (handleKeyDown code w, pending)
  | KeyUp code => (handleKeyUp code w, pending)
  | TouchStart control => (handleTouchStart control w, pending)
  | TouchEnd control => (handleTouchEnd control w, pending)
  | TimerFires =>
      match pending with
      | [] => c
      | t :: pending' => let '(w, ts) := fire t w in (w, pending' ++ ts)
      end
  end.

Definition run (c : Config) (es : list Event) : Config :=
  fold_left step es c.

(** [n] consecutive frames. *)
Fixpoint frames (n : nat) (rnd : nat -> random) (w : World) : World :=
  match n with
  | O => w
  | S n' => gameLoop (rnd n') (frames n' rnd w)
  end.

(** *** What a frame does, named for the statements below *)

(** The avatar as [updateMario] leaves it in a frame started from [w0]. *)
Definition marioAfter (w0 : World) : Sprite :=
  let '(m, moving) := marioPhysics w0 (ticked w0) in marioAnimate moving m.

(** The frame started from [w0] picks a hammer up. *)
Definition framePickup (w0 : World) : bool :=
  GameState_eqb (gameState w0) PLAYING && hammerPickup w0 (marioAfter w0).

(** The barrels as the filter callback moves them, in list order. *)
Fixpoint movedBarrels (lvl : LevelType) (rnd : random) (bs : list Barrel)
    (i : nat) : list Barrel :=
  match bs with
  | [] => []
  | barrel :: bs' =>
      let '(barrel', i) := barrelMove lvl rnd i barrel in
      barrel' :: movedBarrels lvl rnd bs' i
  end.

(** A moved barrel that reaches the collision tests and overlaps [m]. *)
Definition barrelContact (m : Sprite) (barrel : Barrel) : bool :=
  negb (barrelOffScreen barrel) && checkCollision m (b_sprite barrel).

Definition fireballContact (m : Sprite) (fireball : Fireball) : bool :=
  negb (fireballOffScreen fireball) && checkCollision m (f_sprite fireball).

(** The callback's result on an already moved barrel. *)
Definition barrelKept (w0 : World) (m : Sprite) (barrel : Barrel) : bool :=
  negb (barrelOffScreen barrel) &&
  negb (marioHasHammer w0 && checkCollision m (b_sprite barrel)).

(** The win test of [checkWinCondition] on rivets [rs] and avatar [m]. *)
Definition marioWins (w0 : World) (rs : list Rivet) (m : Sprite) : bool :=
  match currentLevel w0 with
  | RIVET => forallb removed rs
  | _ => atGoal m
  end.

(** The phase [updateMario] queues, from the phase [g] queued so far: the
    win overrides the fall. *)
Definition marioPhase (w0 : World) (rs : list Rivet) (m : Sprite)
    (g : GameState) : GameState :=
  if marioWins w0 rs m
  then match currentLevel w0 with RIVET => INTERLUDE | _ => LEVEL_COMPLETE end
  else if marioFell m then MARIO_DEATH else g.

(** The barrels and fireballs of a frame started from [w0], as the two
    filters move them (after the spawns). *)
Definition frameBarrels (rnd : random) (w0 : World) : list Barrel :=
  movedBarrels (currentLevel w0) rnd
    (barrels (spawnBarrel w0 (ticked w0))) 0.

Definition frameFireballs (rnd : random) (w0 : World) : list Fireball :=
  let '(w, i) := updateBarrels w0 rnd (updateMario w0 (ticked w0)) 0 in
  map (fireballMove (currentLevel w0))
    (fireballs (fst (spawnFireball w0 rnd w i))).

(** A contact of the frame that sets the death phase. *)
Definition hazardDeath (rnd : random) (w0 : World) : bool :=
  (negb (marioHasHammer w0) &&
   existsb (barrelContact (marioAfter w0)) (frameBarrels rnd w0)) ||
  existsb (fireballContact (marioAfter w0)) (frameFireballs rnd w0).

End DonkeyKong.

(** ** The reduced variant: [DonkeyKongAtari]

    Here every piece of the world is a [useState] variable.  A frame calls
    [updateMario], [updateBarrels], [updateFireballs], [checkCollisions] and
    [setBonus]; each of them reads the render's values and queues updater
    functions, which React applies per variable in the order they were
    queued.  The updater of [setMario] is the first update of the frame and is
    evaluated when it is queued; the one of [setLives] (in [loseLife]) is
    evaluated while React renders, so the updates it issues ([setGameState],
    [setHighScore], those of [resetGame]) land after every update the frame
    queued directly.  [gameLoop] below applies the updates in that order.

    Barrels and fireballs are compared with [===] in [checkCollisions], so
    objects carry an identity [oid]; an object literal or a spread copy
    [{...o}] allocates a fresh one from the [heap] counter. *)

Module DonkeyKongAtari.
Import JS.

Inductive GameState := title | playing | gameOver | levelComplete.

Definition GameState_eqb (a b : GameState) : bool :=
  match a, b with
  | title, title | playing, playing | gameOver, gameOver
  | levelComplete, levelComplete => true
  | _, _ => false
  end.

Record Mario := mkMario {
  x : float; y : float;
  onGround : bool; jumping : bool; climbing : bool;
  direction : float;
  hasHammer : bool; hammerTimer : Z;
  animFrame : Z }.

Record GameObject := mkGameObject {
  g_x : float; g_y : float; g_width : float; g_height : float;
  g_active : bool }.

Record Barrel := mkBarrel {
  b_oid : nat;
  b_x : float; b_y : float; b_width : float; b_height : float;
  b_active : bool;
  b_direction : float; b_speed : float; b_onLadder : bool }.

Record Fireball := mkFireball {
  f_oid : nat;
  f_x : float; f_y : float; f_width : float; f_height : float;
  f_active : bool;
  f_direction : float; f_speed : float; f_climbing : bool }.

Record Rect := mkRect { px : float; py : float; pw : float; ph : float }.

Record Touch := mkTouch {
  left : bool; right : bool; up : bool; down : bool; jump : bool }.

Definition platforms : list Rect :=
  [ mkRect 0 220 320 8; mkRect 40 180 240 8; mkRect 0 140 280 8;
    mkRect 40 100 240 8; mkRect 0 60 320 8 ].

Definition ladders : list Rect :=
  [ mkRect 80 180 16 40; mkRect 240 140 16 40; mkRect 80 100 16 40;
    mkRect 240 60 16 40 ].

Record World := mkWorld {
  gameState : GameState;
  score : Z;
  lives : Z;
  level : float;
  highScore : Z;
  mario : Mario;
  barrels : list Barrel;
  fireballs : list Fireball;
  hammer : option GameObject;
  bonus : Z;
  keys : list string;
  touchControls : Touch;
  (* localStorage, key atari-dk-highscore *)
  storedHighScore : option Z;
  (* allocation counter for object identities *)
  heap : nat }.

Definition setGameState v w := mkWorld v (score w) (lives w) (level w) (highScore w) (mario w) (barrels w) (fireballs w) (hammer w) (bonus w) (keys w) (touchControls w) (storedHighScore w) (heap w).
Definition setScore v w := mkWorld (gameState w) v (lives w) (level w) (highScore w) (mario w) (barrels w) (fireballs w) (hammer w) (bonus w) (keys w) (touchControls w) (storedHighScore w) (heap w).
Definition setLives v w := mkWorld (gameState w) (score w) v (level w) (highScore w) (mario w) (barrels w) (fireballs w) (hammer w) (bonus w) (keys w) (touchControls w) (storedHighScore w) (heap w).
Definition setLevel v w := mkWorld (gameState w) (score w) (lives w) v (highScore w) (mario w) (barrels w) (fireballs w) (hammer w) (bonus w) (keys w) (touchControls w) (storedHighScore w) (heap w).
Definition setHighScore v w := mkWorld (gameState w) (score w) (lives w) (level w) v (mario w) (barrels w) (fireballs w) (hammer w) (bonus w) (keys w) (touchControls w) (storedHighScore w) (heap w).
Definition setMario v w := mkWorld (gameState w) (score w) (lives w) (level w) (highScore w) v (barrels w) (fireballs w) (hammer w) (bonus w) (keys w) (touchControls w) (storedHighScore w) (heap w).
Definition setBarrels v w := mkWorld (gameState w) (score w) (lives w) (level w) (highScore w) (mario w) v (fireballs w) (hammer w) (bonus w) (keys w) (touchControls w) (storedHighScore w) (heap w).
Definition setFireballs v w := mkWorld (gameState w) (score w) (lives w) (level w) (highScore w) (mario w) (barrels w) v (hammer w) (bonus w) (keys w) (touchControls w) (storedHighScore w) (heap w).
Definition setHammer v w := mkWorld (gameState w) (score w) (lives w) (level w) (highScore w) (mario w) (barrels w) (fireballs w) v (bonus w) (keys w) (touchControls w) (storedHighScore w) (heap w).
Definition setBonus v w := mkWorld (gameState w) (score w) (lives w) (level w) (highScore w) (mario w) (barrels w) (fireballs w) (hammer w) v (keys w) (touchControls w) (storedHighScore w) (heap w).
Definition setKeys v w := mkWorld (gameState w) (score w) (lives w) (level w) (highScore w) (mario w) (barrels w) (fireballs w) (hammer w) (bonus w) v (touchControls w) (storedHighScore w) (heap w).
Definition setTouchControls v w := mkWorld (gameState w) (score w) (lives w) (level w) (highScore w) (mario w) (barrels w) (fireballs w) (hammer w) (bonus w) (keys w) v (storedHighScore w) (heap w).
Definition set_storedHighScore v w := mkWorld (gameState w) (score w) (lives w) (level w) (highScore w) (mario w) (barrels w) (fireballs w) (hammer w) (bonus w) (keys w) (touchControls w) v (heap w).
Definition set_heap v w := mkWorld (gameState w) (score w) (lives w) (level w) (highScore w) (mario w) (barrels w) (fireballs w) (hammer w) (bonus w) (keys w) (touchControls w) (storedHighScore w) v.

(** [checkCollision] on the rectangle fields of its two arguments. *)
Definition checkCollision (x1 y1 w1 h1 x2 y2 w2 h2 : float) : bool :=
  (x1 <? x2 + w2)%float && gtb (x1 + w1)%float x2 &&
  (y1 <? y2 + h2)%float && gtb (y1 + h1)%float y2.

(** *** [resetGame], [startGame], [nextLevel] *)

Definition freshMario : Mario :=
  mkMario 50 200 true false false 1 false 0 0.

Definition freshHammer : GameObject := mkGameObject 120 160 16 16 true.

Definition resetGame (w : World) : World :=
  let w := setMario freshMario w in
  let w := setBarrels [] w in
  let w := setFireballs [] w in
  let w := setHammer (Some freshHammer) w in
  setBonus 5000 w.

Definition startGame (w : World) : World :=
  let w := setGameState playing w in
  let w := setScore 0 w in
  let w := setLives 3 w in
  let w := setLevel 1%float w in
  resetGame w.

(** [nextLevel] runs from the timeout scheduled by [checkCollisions];
    [bonus0] is the bonus of the render that scheduled it. *)
Definition nextLevel (bonus0 : Z) (w : World) : World :=
  let w := setLevel (level w + 1)%float w in
  let w := setScore (score w + bonus0) w in
  let w := resetGame w in
  setGameState playing w.

(** The updater [loseLife] hands to [setLives], with the updates it
    issues; [w0] is the render [loseLife] closes over. *)
Definition loseLife (w0 w : World) : World :=
  let newLives := lives w - 1 in
  let w :=
    if newLives <=? 0 then
      let w := setGameState gameOver w in
      if score w0 >? highScore w0
      then set_storedHighScore (Some (score w0)) (setHighScore (score w0) w)
      else w
    else resetGame w in
  setLives newLives w.

(** *** [updateMario]: the updater handed to [setMario] *)

Definition set_x v (m : Mario) := mkMario v (y m) (onGround m) (jumping m) (climbing m) (direction m) (hasHammer m) (hammerTimer m) (animFrame m).
Definition set_y v (m : Mario) := mkMario (x m) v (onGround m) (jumping m) (climbing m) (direction m) (hasHammer m) (hammerTimer m) (animFrame m).
Definition set_onGround v (m : Mario) := mkMario (x m) (y m) v (jumping m) (climbing m) (direction m) (hasHammer m) (hammerTimer m) (animFrame m).
Definition set_jumping v (m : Mario) := mkMario (x m) (y m) (onGround m) v (climbing m) (direction m) (hasHammer m) (hammerTimer m) (animFrame m).
Definition set_climbing v (m : Mario) := mkMario (x m) (y m) (onGround m) (jumping m) v (direction m) (hasHammer m) (hammerTimer m) (animFrame m).
Definition set_direction v (m : Mario) := mkMario (x m) (y m) (onGround m) (jumping m) (climbing m) v (hasHammer m) (hammerTimer m) (animFrame m).
Definition set_hasHammer v (m : Mario) := mkMario (x m) (y m) (onGround m) (jumping m) (climbing m) (direction m) v (hammerTimer m) (animFrame m).
Definition set_hammerTimer v (m : Mario) := mkMario (x m) (y m) (onGround m) (jumping m) (climbing m) (direction m) (hasHammer m) v (animFrame m).
Definition set_animFrame v (m : Mario) := mkMario (x m) (y m) (onGround m) (jumping m) (climbing m) (direction m) (hasHammer m) (hammerTimer m) v.

Definition leftPressed (w0 : World) : bool :=
  has (keys w0) "ArrowLeft" || has (keys w0) "a" || left (touchControls w0).
Definition rightPressed (w0 : World) : bool :=
  has (keys w0) "ArrowRight" || has (keys w0) "d" || right (touchControls w0).
Definition upPressed (w0 : World) : bool :=
  has (keys w0) "ArrowUp" || has (keys w0) "w" || up (touchControls w0).
Definition downPressed (w0 : World) : bool :=
  has (keys w0) "ArrowDown" || has (keys w0) "s" || down (touchControls w0).
Definition jumpPressed (w0 : World) : bool :=
  has (keys w0) " " || has (keys w0) "Enter" || jump (touchControls w0).

Definition moveSpeed : float := 2.
Definition jumpSpeed : float := 4.

Definition marioHorizontal (w0 : World) (m : Mario) : Mario :=
  if leftPressed w0 && negb (climbing m) then
    let m := set_x (Math_max 0 (x m - moveSpeed)%float) m in
    let m := set_direction (-1)%float m in
    set_animFrame (Z.rem (animFrame m + 1) 4) m
  else if rightPressed w0 && negb (climbing m) then
    let m := set_x (Math_min 304 (x m + moveSpeed)%float) m in
    let m := set_direction 1%float m in
    set_animFrame (Z.rem (animFrame m + 1) 4) m
  else m.

Definition inLadder (m : Mario) (ladder : Rect) : bool :=
  geb (x m + 8)%float (px ladder) &&
  (x m + 8 <=? px ladder + pw ladder)%float &&
  geb (y m + 16)%float (py ladder) &&
  (y m <=? py ladder + ph ladder)%float.

Definition marioClimb (w0 : World) (m : Mario) : Mario :=
  if existsb (inLadder m) ladders then
    if upPressed w0 then
      let m := set_y (Math_max 0 (y m - moveSpeed)%float) m in
      set_onGround false (set_climbing true m)
    else if downPressed w0 then
      let m := set_y (Math_min 220 (y m + moveSpeed)%float) m in
      set_onGround false (set_climbing true m)
    else set_climbing false m
  else set_climbing false m.

Definition marioJump (w0 : World) (m : Mario) : Mario :=
  if jumpPressed w0 && onGround m && negb (jumping m) && negb (climbing m)
  then set_onGround false (set_jumping true m)
  else m.

Definition marioGravity (prev m : Mario) : Mario :=
  if negb (onGround m) && negb (climbing m) then
    if jumping m then
      let m := set_y (y m - jumpSpeed)%float m in
      if (y m <=? y prev - 32)%float then set_jumping false m else m
    else set_y (y m + 3)%float m
  else m.

Definition landsOn (m : Mario) (platform : Rect) : bool :=
  gtb (x m + 16)%float (px platform) &&
  (x m <? px platform + pw platform)%float &&
  geb (y m + 16)%float (py platform) &&
  (y m + 16 <=? py platform + ph platform + 5)%float.

(** [platforms.forEach]: every platform is tried, in order. *)
Definition marioPlatforms (m : Mario) : Mario :=
  fold_left
    (fun m platform =>
       if landsOn m platform
       then set_jumping false
              (set_onGround true (set_y (py platform - 16)%float m))
       else m)
    platforms (set_onGround false m).

Definition marioHammerTimer (m : Mario) : Mario :=
  if hasHammer m then
    let m := set_hammerTimer (hammerTimer m - 1) m in
    if hammerTimer m <=? 0 then set_hasHammer false m else m
  else m.

(** The guard of the pickup, on the hammer of the render and the sprite
    as the updater has moved it. *)
Definition hammerInReach (w0 : World) (m : Mario) : bool :=
  match hammer w0 with
  | Some h =>
      g_active h &&
      (Math_abs (x m - g_x h) <? 20)%float &&
      (Math_abs (y m - g_y h) <? 20)%float
  | None => false
  end.

Definition marioMoved (w0 : World) (prev : Mario) : Mario :=
  let m := marioHorizontal w0 prev in
  let m := marioClimb w0 m in
  let m := marioJump w0 m in
  let m := marioGravity prev m in
  let m := marioPlatforms m in
  marioHammerTimer m.

Definition deactivate (h : option GameObject) : option GameObject :=
  match h with
  | Some h => Some (mkGameObject (g_x h) (g_y h) (g_width h) (g_height h) false)
  | None => None
  end.

Definition updateMario (w0 w : World) : World :=
  if negb (GameState_eqb (gameState w0) playing) then w
  else
    let m := marioMoved w0 (mario w) in
    if hammerInReach w0 m
    then setHammer (deactivate (hammer w))
           (setMario (set_hammerTimer 300 (set_hasHammer true m)) w)
    else setMario m w.

(** *** [updateBarrels]: the updater handed to [setBarrels] *)

Definition set_b_x v (b : Barrel) := mkBarrel (b_oid b) v (b_y b) (b_width b) (b_height b) (b_active b) (b_direction b) (b_speed b) (b_onLadder b).
Definition set_b_y v (b : Barrel) := mkBarrel (b_oid b) (b_x b) v (b_width b) (b_height b) (b_active b) (b_direction b) (b_speed b) (b_onLadder b).
Definition set_b_active v (b : Barrel) := mkBarrel (b_oid b) (b_x b) (b_y b) (b_width b) (b_height b) v (b_direction b) (b_speed b) (b_onLadder b).
Definition set_b_direction v (b : Barrel) := mkBarrel (b_oid b) (b_x b) (b_y b) (b_width b) (b_height b) (b_active b) v (b_speed b) (b_onLadder b).
Definition set_b_onLadder v (b : Barrel) := mkBarrel (b_oid b) (b_x b) (b_y b) (b_width b) (b_height b) (b_active b) (b_direction b) (b_speed b) v.
(** [{...b}] at a fresh identity. *)
Definition copy_b (oid : nat) (b : Barrel) := mkBarrel oid (b_x b) (b_y b) (b_width b) (b_height b) (b_active b) (b_direction b) (b_speed b) (b_onLadder b).

Definition barrelPlatform (b : Barrel) (platform : Rect) : bool :=
  geb (b_y b + b_height b)%float (py platform) &&
  (b_y b + b_height b <=? py platform + ph platform + 5)%float.

Definition barrelBounds (b : Barrel) : Barrel :=
  match find (barrelPlatform b) platforms with
  | Some currentPlatform =>
      if (b_x b <=? px currentPlatform)%float then
        set_b_direction 1%float (set_b_x (px currentPlatform) b)
      else if geb (b_x b + b_width b)%float
                (px currentPlatform + pw currentPlatform)%float then
        set_b_direction (-1)%float
          (set_b_x (px currentPlatform + pw currentPlatform - b_width b)%float b)
      else b
  | None => b
  end.

Definition barrelLadderDescent (rnd : random) (i : nat) (b : Barrel)
    : Barrel * nat :=
  if negb (b_onLadder b) then
    if (rnd i <? 0.1)%float then
      match find (fun ladder =>
                    (Math_abs (b_x b - px ladder) <? 20)%float &&
                    geb (b_y b + b_height b)%float (py ladder)) ladders with
      | Some nearLadder => (set_b_x (px nearLadder) (set_b_onLadder true b), S i)
      | None => (b, S i)
      end
    else (b, S i)
  else (b, i).

Definition barrelLadderMove (b : Barrel) : Barrel :=
  if b_onLadder b then
    let b := set_b_y (b_y b + b_speed b)%float b in
    match find (fun l => (Math_abs (b_x b - px l) <? 10)%float) ladders with
    | Some ladder =>
        if geb (b_y b) (py ladder + ph ladder)%float
        then set_b_onLadder false b else b
    | None => b
    end
  else b.

(** The callback of [newBarrels.map]. *)
Definition barrelStep (rnd : random) (barrel : Barrel) (heap i : nat)
    : Barrel * nat * nat :=
  if negb (b_active barrel) then (barrel, heap, i)
  else
    let b := copy_b heap barrel in
    let b := set_b_x (b_x b + b_direction b * b_speed b)%float b in
    let b := barrelBounds b in
    let '(b, i) := barrelLadderDescent rnd i b in
    let b := barrelLadderMove b in
    let b := if gtb (b_y b) 240 then set_b_active false b else b in
    (b, S heap, i).

Fixpoint mapBarrels (rnd : random) (bs : list Barrel) (heap i : nat)
    : list Barrel * nat * nat :=
  match bs with
  | [] => ([], heap, i)
  | barrel :: bs' =>
      let '(b, heap, i) := barrelStep rnd barrel heap i in
      let '(rest, heap, i) := mapBarrels rnd bs' heap i in
      (b :: rest, heap, i)
  end.

Definition spawnedBarrel (w0 : World) (oid : nat) : Barrel :=
  mkBarrel oid 40 44 16 16 true 1 (1 + level w0 * 0.2)%float false.

Definition updateBarrels (w0 : World) (rnd : random) (w : World) (i : nat)
    : World * nat :=
  if negb (GameState_eqb (gameState w0) playing) then (w, i)
  else
    let newBarrels := barrels w in
    let '(newBarrels, heap) :=
      if (rnd i <? 0.02 + level w0 * 0.005)%float
      then (newBarrels ++ [spawnedBarrel w0 (heap w)], S (heap w))
      else (newBarrels, heap w) in
    let '(newBarrels, heap, i) := mapBarrels rnd newBarrels heap (S i) in
    (set_heap heap (setBarrels (filter b_active newBarrels) w), i).

(** *** [updateFireballs]: the updater handed to [setFireballs] *)

Definition set_f_x v (f : Fireball) := mkFireball (f_oid f) v (f_y f) (f_width f) (f_height f) (f_active f) (f_direction f) (f_speed f) (f_climbing f).
Definition set_f_y v (f : Fireball) := mkFireball (f_oid f) (f_x f) v (f_width f) (f_height f) (f_active f) (f_direction f) (f_speed f) (f_climbing f).
Definition set_f_active v (f : Fireball) := mkFireball (f_oid f) (f_x f) (f_y f) (f_width f) (f_height f) v (f_direction f) (f_speed f) (f_climbing f).
Definition set_f_direction v (f : Fireball) := mkFireball (f_oid f) (f_x f) (f_y f) (f_width f) (f_height f) (f_active f) v (f_speed f) (f_climbing f).
Definition set_f_climbing v (f : Fireball) := mkFireball (f_oid f) (f_x f) (f_y f) (f_width f) (f_height f) (f_active f) (f_direction f) (f_speed f) v.
Definition copy_f (oid : nat) (f : Fireball) := mkFireball oid (f_x f) (f_y f) (f_width f) (f_height f) (f_active f) (f_direction f) (f_speed f) (f_climbing f).

Definition coin (r : float) : float := if gtb r 0.5 then 1%float else (-1)%float.

(** The callback of [newFireballs.map]. *)
Definition fireballStep (rnd : random) (fireball : Fireball) (heap i : nat)
    : Fireball * nat * nat :=
  if negb (f_active fireball) then (fireball, heap, i)
  else
    let f := copy_f heap fireball in
    if negb (f_climbing f) then
      let f := set_f_x (f_x f + f_direction f * f_speed f)%float f in
      let f := if (f_x f <=? 0)%float || geb (f_x f) 304
               then set_f_direction (f_direction f * -1)%float f else f in
      let f :=
        if (rnd i <? 0.05)%float then
          match find (fun ladder =>
                        (Math_abs (f_x f - px ladder) <? 20)%float) ladders with
          | Some nearLadder => set_f_x (px nearLadder) (set_f_climbing true f)
          | None => f
          end
        else f in
      (f, S heap, S i)
    else
      let f := set_f_y (f_y f + coin (rnd i) * f_speed f)%float f in
      let f := if (rnd (S i) <? 0.1)%float then set_f_climbing false f else f in
      (f, S heap, S (S i)).

Fixpoint mapFireballs (rnd : random) (fs : list Fireball) (heap i : nat)
    : list Fireball * nat * nat :=
  match fs with
  | [] => ([], heap, i)
  | fireball :: fs' =>
      let '(f, heap, i) := fireballStep rnd fireball heap i in
      let '(rest, heap, i) := mapFireballs rnd fs' heap i in
      (f :: rest, heap, i)
  end.

Definition spawnedFireball (w0 : World) (rnd : random) (i oid : nat)
    : Fireball :=
  mkFireball oid 160 200 12 12 true (coin (rnd i))
    (0.5 + level w0 * 0.1)%float false.

Definition updateFireballs (w0 : World) (rnd : random) (w : World) (i : nat)
    : World * nat :=
  if negb (GameState_eqb (gameState w0) playing) then (w, i)
  else
    let newFireballs := fireballs w in
    let '(newFireballs, heap, i) :=
      if (rnd i <? 0.01 + level w0 * 0.002)%float
      then (newFireballs ++ [spawnedFireball w0 rnd (S i) (heap w)],
            S (heap w), S (S i))
      else (newFireballs, heap w, S i) in
    let '(newFireballs, heap, i) := mapFireballs rnd newFireballs heap i in
    (set_heap heap (setFireballs (filter f_active newFireballs) w), i).

(** *** [checkCollisions] *)

Definition hitsBarrel (m : Mario) (barrel : Barrel) : bool :=
  b_active barrel &&
  checkCollision (x m) (y m) 16 16
    (b_x barrel) (b_y barrel) (b_width barrel) (b_height barrel).

Definition hitsFireball (m : Mario) (fireball : Fireball) : bool :=
  f_active fireball &&
  checkCollision (x m) (y m) 16 16
    (f_x fireball) (f_y fireball) (f_width fireball) (f_height fireball).

(** [prev.map(b => b === barrel ? { ...b, active: false } : b)]. *)
Fixpoint deactivateBarrel (barrel : Barrel) (prev : list Barrel) (heap : nat)
    : list Barrel * nat :=
  match prev with
  | [] => ([], heap)
  | b :: prev' =>
      let '(b, heap) :=
        if Nat.eqb (b_oid b) (b_oid barrel)
        then (set_b_active false (copy_b heap b), S heap)
        else (b, heap) in
      let '(rest, heap) := deactivateBarrel barrel prev' heap in
      (b :: rest, heap)
  end.

Fixpoint deactivateFireball (fireball : Fireball) (prev : list Fireball)
    (heap : nat) : list Fireball * nat :=
  match prev with
  | [] => ([], heap)
  | f :: prev' =>
      let '(f, heap) :=
        if Nat.eqb (f_oid f) (f_oid fireball)
        then (set_f_active false (copy_f heap f), S heap)
        else (f, heap) in
      let '(rest, heap) := deactivateFireball fireball prev' heap in
      (f :: rest, heap)
  end.

(** [barrels.forEach] over the barrels of the render; [deaths] counts the
    calls of [loseLife], whose updaters React runs later. *)
Fixpoint barrelCollisions (w0 : World) (bs : list Barrel) (w : World)
    (deaths : nat) : World * nat :=
  match bs with
  | [] => (w, deaths)
  | barrel :: bs' =>
      if hitsBarrel (mario w0) barrel then
        if hasHammer (mario w0) then
          let w := setScore (score w + 300) w in
          let '(bs1, heap) := deactivateBarrel barrel (barrels w) (heap w) in
          barrelCollisions w0 bs' (set_heap heap (setBarrels bs1 w)) deaths
        else barrelCollisions w0 bs' w (S deaths)
      else barrelCollisions w0 bs' w deaths
  end.

Fixpoint fireballCollisions (w0 : World) (fs : list Fireball) (w : World)
    (deaths : nat) : World * nat :=
  match fs with
  | [] => (w, deaths)
  | fireball :: fs' =>
      if hitsFireball (mario w0) fireball then
        if hasHammer (mario w0) then
          let w := setScore (score w + 500) w in
          let '(fs1, heap) :=
            deactivateFireball fireball (fireballs w) (heap w) in
          fireballCollisions w0 fs' (set_heap heap (setFireballs fs1 w)) deaths
        else fireballCollisions w0 fs' w (S deaths)
      else fireballCollisions w0 fs' w deaths
  end.

(** The timeout [setTimeout(nextLevel, 2000)], with the bonus its
    [nextLevel] closes over. *)
Inductive Timeout := toNextLevel (bonus0 : Z).

Definition reachedPauline (m : Mario) : bool :=
  gtb (x m) 280 && (y m <? 80)%float.

Definition checkCollisions (w0 w : World) : World * nat * list Timeout :=
  if negb (GameState_eqb (gameState w0) playing) then (w, O, [])
  else
    let '(w, deaths) := barrelCollisions w0 (barrels w0) w O in
    let '(w, deaths) := fireballCollisions w0 (fireballs w0) w deaths in
    if reachedPauline (mario w0)
    then (setGameState levelComplete w, deaths, [toNextLevel (bonus w0)])
    else (w, deaths, []).

(** *** The main game loop *)

(** One call of [gameLoop]: the frame's direct updates, then the [setLives]
    updaters of the [loseLife] calls it made. *)
Definition gameLoop (rnd : random) (w0 : World) : World * list Timeout :=
  let w := updateMario w0 w0 in
  let '(w, i) := updateBarrels w0 rnd w O in
  let '(w, i) := updateFireballs w0 rnd w i in
  let '(w, deaths, ts) := checkCollisions w0 w in
  let w := setBonus (Z.max 0 (bonus w - 1)) w in
  (Nat.iter deaths (loseLife w0) w, ts).

(** The effect schedules [gameLoop] only while the state is [playing]. *)
Definition animationFrame (rnd : random) (w0 : World)
    : World * list Timeout :=
  if GameState_eqb (gameState w0) playing then gameLoop rnd w0 else (w0, []).

(** The start/restart effect. *)
Definition startEffect (w : World) : World :=
  if (GameState_eqb (gameState w) title || GameState_eqb (gameState w) gameOver)
     && jumpPressed w
  then startGame w else w.

Definition initialWorld (saved : option Z) : World :=
  mkWorld title 0 3 1%float
    (match saved with Some v => v | None => 0 end)
    freshMario [] [] None 5000 []
    (mkTouch false false false false false) saved O.

(** [n] consecutive frames of the loop. *)
Fixpoint frames (n : nat) (rnd : nat -> random) (w : World) : World :=
  match n with
  | O => w
  | S n' => fst (animationFrame (rnd n') (frames n' rnd w))
  end.

(** *** What a frame does, named for the statements below *)

(** The avatar as the [setMario] updater leaves it, before the pickup. *)
Definition marioAfter (w0 : World) : Mario := marioMoved w0 (mario w0).

(** The frame started from [w0] picks the hammer up. *)
Definition framePickup (w0 : World) : bool :=
  GameState_eqb (gameState w0) playing && hammerInReach w0 (marioAfter w0).

(** The number of [loseLife] calls of a frame started from [w0]. *)
Definition lethalContacts (w0 : World) : Z :=
  if GameState_eqb (gameState w0) playing && negb (hasHammer (mario w0))
  then countb (hitsBarrel (mario w0)) (barrels w0) +
       countb (hitsFireball (mario w0)) (fireballs w0)
  else 0.


End DonkeyKongAtari.

(** ** The 3D maze game: [Game3D] and its [GameScene]

    [Game3D] owns the [gameState] object (score, lives, status, power mode)
    and hands it to [GameScene] together with [onGameStateChange], which
    merges a partial object into the state: [setGameState(prev => ({...prev,
    ...newState}))].  [GameScene] owns the position of the player, the
    ghosts, the maze and the set of pressed keys; its [useFrame] callback is
    the game logic.  As in the other two components, a frame reads the state
    of the render it closes over and queues updates, and the next frame
    starts from the world the previous one produced.

    An expression such as [maze[gridZ][gridX]] throws a [TypeError] when
    [maze[gridZ]] is undefined; a frame that throws is [None].

    [Math.pow] and [Math.sqrt] are implementation-approximated in the
    language standard: they are parameters of the frame.  Meshes, lights,
    the camera and the one-second countdown of the power mode (an effect
    with a timeout) are left out. *)

Module PacMan.
Import JS.

Definition MAZE_SIZE : Z := 21.
Definition PACMAN_SPEED : float := 0.05.
Definition GHOST_SPEED : float := 0.03.
Definition Math_PI : float := 0x1.921fb54442d18p+1.

Record Position := mkPosition { x : float; z : float }.

Inductive Status := start | playing | gameOver | paused.

Definition Status_eqb (a b : Status) : bool :=
  match a, b with
  | start, start | playing, playing | gameOver, gameOver | paused, paused =>
      true
  | _, _ => false
  end.

Record GameState := mkGameState {
  score : Z; lives : Z; gameStatus : Status;
  powerMode : bool; powerModeTimer : Z }.

Record Ghost := mkGhost {
  pos : Position; color : string; direction : Position }.

(** 1 = wall, 0 = empty, 2 = dot, 3 = power pellet. *)
Definition MAZE_LAYOUT : list (list Z) :=
  [ [1;1;1;1;1;1;1;1;1;1;1;1;1;1;1;1;1;1;1;1;1];
    [1;2;2;2;2;2;2;2;2;2;1;2;2;2;2;2;2;2;2;2;1];
    [1;3;1;1;1;2;1;1;1;2;1;2;1;1;1;2;1;1;1;3;1];
    [1;2;2;2;2;2;2;2;2;2;2;2;2;2;2;2;2;2;2;2;1];
    [1;2;1;1;1;2;1;2;1;1;1;1;1;2;1;2;1;1;1;2;1];
    [1;2;2;2;2;2;1;2;2;2;1;2;2;2;1;2;2;2;2;2;1];
    [1;1;1;1;1;2;1;1;1;0;1;0;1;1;1;2;1;1;1;1;1];
    [0;0;0;0;1;2;1;0;0;0;0;0;0;0;1;2;1;0;0;0;0];
    [1;1;1;1;1;2;1;0;1;1;0;1;1;0;1;2;1;1;1;1;1];
    [0;0;0;0;0;2;0;0;1;0;0;0;1;0;0;2;0;0;0;0;0];
    [1;1;1;1;1;2;1;0;1;0;0;0;1;0;1;2;1;1;1;1;1];
    [0;0;0;0;0;2;0;0;1;1;1;1;1;0;0;2;0;0;0;0;0];
    [1;1;1;1;1;2;1;0;1;1;1;1;1;0;1;2;1;1;1;1;1];
    [0;0;0;0;1;2;1;0;0;0;0;0;0;0;1;2;1;0;0;0;0];
    [1;1;1;1;1;2;1;1;1;0;1;0;1;1;1;2;1;1;1;1;1];
    [1;2;2;2;2;2;2;2;2;2;1;2;2;2;2;2;2;2;2;2;1];
    [1;2;1;1;1;2;1;1;1;2;1;2;1;1;1;2;1;1;1;2;1];
    [1;3;2;2;1;2;2;2;2;2;2;2;2;2;2;2;1;2;2;3;1];
    [1;1;1;2;1;2;1;2;1;1;1;1;1;2;1;2;1;2;1;1;1];
    [1;2;2;2;2;2;1;2;2;2;1;2;2;2;1;2;2;2;2;2;1];
    [1;1;1;1;1;1;1;1;1;1;1;1;1;1;1;1;1;1;1;1;1] ].

(** The state of [Game3D] and of [GameScene]. *)
Record World := mkWorld {
  gameState : GameState;
  pacmanPos : Position;
  pacmanRotation : float;
  ghosts : list Ghost;
  maze : list (list Z);
  keys : list string }.

Definition setGameState v w := mkWorld v (pacmanPos w) (pacmanRotation w) (ghosts w) (maze w) (keys w).
Definition setPacmanPos v w := mkWorld (gameState w) v (pacmanRotation w) (ghosts w) (maze w) (keys w).
Definition setPacmanRotation v w := mkWorld (gameState w) (pacmanPos w) v (ghosts w) (maze w) (keys w).
Definition setGhosts v w := mkWorld (gameState w) (pacmanPos w) (pacmanRotation w) v (maze w) (keys w).
Definition setMaze v w := mkWorld (gameState w) (pacmanPos w) (pacmanRotation w) (ghosts w) v (keys w).
Definition setKeys v w := mkWorld (gameState w) (pacmanPos w) (pacmanRotation w) (ghosts w) (maze w) v.

(** *** Numbers used as indices *)

(** The value of [Math.round] or [Math.floor]: an integer, an infinity or
    NaN. *)
Inductive Rounded := RInt (v : Z) | RInf (negative : bool) | RNaN.

(** [Math.round(v)]: the integer closest to [v], ties towards +infinity. *)
Definition Math_round (v : float) : Rounded :=
  match Prim2SF v with
  | S754_zero _ => RInt 0
  | S754_infinity s => RInf s
  | S754_nan => RNaN
  | S754_finite s m e =>
      let n := if s then Z.neg m else Z.pos m in
      RInt (if 0 <=? e then n * 2 ^ e
            else (2 * n + 2 ^ (- e)) / (2 * 2 ^ (- e)))
  end.

Definition Math_floor (v : float) : Rounded :=
  match Prim2SF v with
  | S754_zero _ => RInt 0
  | S754_infinity s => RInf s
  | S754_nan => RNaN
  | S754_finite s m e =>
      let n := if s then Z.neg m else Z.pos m in
      RInt (if 0 <=? e then n * 2 ^ e else n / 2 ^ (- e))
  end.

(** [r < k] and [r >= k] for an integer [k]. *)
Definition ltZ (r : Rounded) (k : Z) : bool :=
  match r with RInt v => v <? k | RInf s => s | RNaN => false end.
Definition geZ (r : Rounded) (k : Z) : bool :=
  match r with RInt v => k <=? v | RInf s => negb s | RNaN => false end.

(** [a[i]] on an array: [None] is [undefined]. *)
Definition at_ {A} (a : list A) (i : Rounded) : option A :=
  match i with
  | RInt v => if v <? 0 then None else nth_error a (Z.to_nat v)
  | _ => None
  end.

(** [maze[gridZ][gridX] === v]; the outer [None] is the [TypeError] of
    indexing [undefined]. *)
Definition cellIs (mz : list (list Z)) (gridZ gridX : Rounded) (v : Z)
    : option bool :=
  match at_ mz gridZ with
  | Some row =>
      Some (match at_ row gridX with Some c => c =? v | None => false end)
  | None => None
  end.

(** *** The player's move *)

Record Move := mkMove {
  newPos : Position; newRotation : float; moved : bool }.

(** The guard of each of the four moves, [&&] evaluated left to right. *)
Definition free (mz : list (list Z)) (gridX gridZ : Rounded) : option bool :=
  if geZ gridX 0 && ltZ gridX MAZE_SIZE && geZ gridZ 0 && ltZ gridZ MAZE_SIZE
  then option_map negb (cellIs mz gridZ gridX 1)
  else Some false.

Definition pressed (w0 : World) (k1 k2 : string) : bool :=
  has (keys w0) k1 || has (keys w0) k2.

Definition moveZ (w0 : World) (k1 k2 : string) (test : float -> float)
    (rot : float) (mv : Move) : option Move :=
  if pressed w0 k1 k2 then
    let testZ := test (z (newPos mv)) in
    let gridZ := Math_round testZ in
    let gridX := Math_round (x (newPos mv)) in
    match free (maze w0) gridX gridZ with
    | Some true => Some (mkMove (mkPosition (x (newPos mv)) testZ) rot true)
    | Some false => Some mv
    | None => None
    end
  else Some mv.

Definition moveX (w0 : World) (k1 k2 : string) (test : float -> float)
    (rot : float) (mv : Move) : option Move :=
  if pressed w0 k1 k2 then
    let testX := test (x (newPos mv)) in
    let gridX := Math_round testX in
    let gridZ := Math_round (z (newPos mv)) in
    match free (maze w0) gridX gridZ with
    | Some true => Some (mkMove (mkPosition testX (z (newPos mv))) rot true)
    | Some false => Some mv
    | None => None
    end
  else Some mv.

Definition bind {A B} (a : option A) (f : A -> option B) : option B :=
  match a with Some v => f v | None => None end.

Definition movePacman (w0 : World) : option Move :=
  let mv := mkMove (pacmanPos w0) (pacmanRotation w0) false in
  bind (moveZ w0 "w" "arrowup" (fun v => v - PACMAN_SPEED)%float
          Math_PI mv) (fun mv =>
  bind (moveZ w0 "s" "arrowdown" (fun v => v + PACMAN_SPEED)%float
          0 mv) (fun mv =>
  bind (moveX w0 "a" "arrowleft" (fun v => v - PACMAN_SPEED)%float
          (Math_PI / 2) mv) (fun mv =>
  moveX w0 "d" "arrowright" (fun v => v + PACMAN_SPEED)%float
    (- Math_PI / 2) mv))).

(** *** Collectibles *)

(** [newMaze[gridZ][gridX] = 0] on a copy of the maze. *)
Definition setAt {A} (a : list A) (i : nat) (v : A) : list A :=
  firstn i a ++ match skipn i a with [] => [] | _ :: rest => v :: rest end.

Definition clearCell (mz : list (list Z)) (gridZ gridX : Z) : list (list Z) :=
  match nth_error mz (Z.to_nat gridZ) with
  | Some row => setAt mz (Z.to_nat gridZ) (setAt row (Z.to_nat gridX) 0)
  | None => mz
  end.

(** What the frame hands to [onGameStateChange]: the merge of a partial
    object computed from the [gameState] of the render. *)
Definition Change := GameState -> GameState.

Definition withScore (v : Z) : Change :=
  fun prev => mkGameState v (lives prev) (gameStatus prev) (powerMode prev)
                (powerModeTimer prev).
Definition withPower (v : Z) : Change :=
  fun prev => mkGameState v (lives prev) (gameStatus prev) true 10.
Definition withLives (v : Z) (s : Status) : Change :=
  fun prev => mkGameState (score prev) v s (powerMode prev)
                (powerModeTimer prev).

(** The maze and the state changes of the collectible checks; they run
    only when the player has moved. *)
Definition collect (w0 : World) (mv : Move)
    : option (list (list Z) * list Change) :=
  if moved mv then
    let gridX := Math_round (x (newPos mv)) in
    let gridZ := Math_round (z (newPos mv)) in
    bind (cellIs (maze w0) gridZ gridX 2) (fun dot =>
    bind (cellIs (maze w0) gridZ gridX 3) (fun pellet =>
      let clear mz :=
        match gridZ, gridX with
        | RInt vz, RInt vx => clearCell mz vz vx
        | _, _ => mz
        end in
      let mz := if dot then clear (maze w0) else maze w0 in
      let mz := if pellet then clear mz else mz in
      Some (mz,
            (if dot then [withScore (score (gameState w0) + 10)] else []) ++
            (if pellet then [withPower (score (gameState w0) + 50)]
             else []))))
  else Some (maze w0, []).

(** *** Ghosts *)

Definition directions : list Position :=
  [ mkPosition 1 0; mkPosition (-1) 0; mkPosition 0 1; mkPosition 0 (-1) ].

(** [directions[Math.floor(Math.random() * directions.length)]];
    [Math.random()] is below 1, so the index is one of 0 to 3 and the
    default is not used. *)
Definition pickDirection (r : float) : Position :=
  match at_ directions (Math_floor (r * 4)%float) with
  | Some d => d
  | None => mkPosition 1 0
  end.

(** The callback of [prevGhosts.map]; the [||] chain is evaluated left to
    right, so [Math.random() < 0.01] is drawn only when the cell ahead is
    inside the maze and free. *)
Definition moveGhost (mz : list (list Z)) (rnd : random) (i : nat)
    (ghost : Ghost) : option (Ghost * nat) :=
  let newGhostPos :=
    mkPosition (x (pos ghost) + x (direction ghost) * GHOST_SPEED)%float
               (z (pos ghost) + z (direction ghost) * GHOST_SPEED)%float in
  let ghostGridX := Math_round (x newGhostPos) in
  let ghostGridZ := Math_round (z newGhostPos) in
  let turn i := Some (mkGhost (pos ghost) (color ghost)
                        (pickDirection (rnd i)), S i) in
  if ltZ ghostGridX 0 || geZ ghostGridX MAZE_SIZE ||
     ltZ ghostGridZ 0 || geZ ghostGridZ MAZE_SIZE
  then turn i
  else
    bind (cellIs mz ghostGridZ ghostGridX 1) (fun wall =>
      if wall then turn i
      else if (rnd i <? 0.01)%float then turn (S i)
      else Some (mkGhost newGhostPos (color ghost) (direction ghost), S i)).

Fixpoint moveGhosts (mz : list (list Z)) (rnd : random) (i : nat)
    (gs : list Ghost) : option (list Ghost) :=
  match gs with
  | [] => Some []
  | ghost :: gs' =>
      bind (moveGhost mz rnd i ghost) (fun '(ghost', i) =>
      bind (moveGhosts mz rnd i gs') (fun rest => Some (ghost' :: rest)))
  end.

Section Scene.
Variable Math_pow : float -> float -> float.
Variable Math_sqrt : float -> float.

Definition touches (w0 : World) (ghost : Ghost) : bool :=
  let distance :=
    Math_sqrt (Math_pow (x (pacmanPos w0) - x (pos ghost)) 2 +
               Math_pow (z (pacmanPos w0) - z (pos ghost)) 2)%float in
  (distance <? 0.5)%float.

(** The state change of one touching ghost. *)
Definition caught (w0 : World) : Change :=
  let gs0 := gameState w0 in
  if powerMode gs0 then withScore (score gs0 + 200)
  else withLives (lives gs0 - 1)
         (if lives gs0 <=? 1 then gameOver else playing).

(** [useFrame]'s callback: one frame of the game logic. *)
Definition frame (rnd : random) (w0 : World) : option World :=
  if negb (Status_eqb (gameStatus (gameState w0)) playing) then Some w0
  else
    bind (movePacman w0) (fun mv =>
    bind (collect w0 mv) (fun '(mz, changes) =>
    bind (moveGhosts (maze w0) rnd 0 (ghosts w0)) (fun ghosts' =>
      let hits := filter (touches w0) (ghosts w0) in
      let changes := changes ++ map (fun _ => caught w0) hits in
      let reset :=
        negb (powerMode (gameState w0)) &&
        negb (Nat.eqb (List.length hits) 0) in
      Some (mkWorld
              (fold_left (fun gs (c : Change) => c gs) changes (gameState w0))
              (if reset then mkPosition 10 15
               else if moved mv then newPos mv else pacmanPos w0)
              (if moved mv then newRotation mv else pacmanRotation w0)
              ghosts' mz (keys w0))))).

End Scene.

(** *** Keys and buttons *)

(** [toLowerCase] of the key name, on ASCII letters. *)
Definition lowerAscii (c : Ascii.ascii) : Ascii.ascii :=
  let n := Ascii.nat_of_ascii c in
  if (Nat.leb 65 n && Nat.leb n 90)%bool then Ascii.ascii_of_nat (n + 32)
  else c.

Fixpoint toLowerCase (s : string) : string :=
  match s with
  | EmptyString => EmptyString
  | String c s' => String (lowerAscii c) (toLowerCase s')
  end.

Definition handleKeyDown (key : string) (w : World) : World :=
  setKeys (add (keys w) (toLowerCase key)) w.
Definition handleKeyUp (key : string) (w : World) : World :=
  setKeys (delete (keys w) (toLowerCase key)) w.

Definition startGame (w : World) : World :=
  setGameState (mkGameState 0 3 playing false 0) w.
Definition restartGame (w : World) : World :=
  setGameState (mkGameState 0 3 start false 0) w.

(** The component as mounted. *)
Definition initialWorld : World :=
  mkWorld (mkGameState 0 3 start false 0) (mkPosition 10 15) 0
    [ mkGhost (mkPosition 10 9) "#FF0000" (mkPosition 1 0);
      mkGhost (mkPosition 9 9) "#FFB6C1" (mkPosition (-1) 0);
      mkGhost (mkPosition 11 9) "#00FFFF" (mkPosition 0 1);
      mkGhost (mkPosition 10 10) "#FFA500" (mkPosition 0 (-1)) ]
    MAZE_LAYOUT [].

(** The buttons exist only on their screens. *)
Inductive Event :=
| Frame (rnd : random)
| KeyDown (key : string)
| KeyUp (key : string)
| StartButton
| PlayAgainButton.

Definition step (Math_pow : float -> float -> float)
    (Math_sqrt : float -> float) (w : World) (e : Event) : option World :=
  match e with
  | Frame rnd => frame Math_pow Math_sqrt rnd w
  | KeyDown key => Some (handleKeyDown key w)
  | KeyUp key => Some (handleKeyUp key w)
  | StartButton =>
      Some (if Status_eqb (gameStatus (gameState w)) start
            then startGame w else w)
  | PlayAgainButton =>
      Some (if Status_eqb (gameStatus (gameState w)) gameOver
            then restartGame w else w)
  end.

Fixpoint run (Math_pow : float -> float -> float)
    (Math_sqrt : float -> float) (w : World) (es : list Event)
    : option World :=
  match es with
  | [] => Some w
  | e :: es' =>
      bind (step Math_pow Math_sqrt w e) (fun w' =>
        run Math_pow Math_sqrt w' es')
  end.

End PacMan.

(** * Properties *)

(** ** Counting *)

Module JSFacts.
Import JS.

Lemma countb_cons {A} (p : A -> bool) a l :
  countb p (a :: l) = (if p a then 1 else 0) + countb p l.
Proof.
  unfold countb. simpl. destruct (p a); simpl List.length; lia.
Qed.

Lemma countb_nonneg {A} (p : A -> bool) l : 0 <= countb p l.
Proof. unfold countb. lia. Qed.

Lemma countb_zero {A} (p : A -> bool) l :
  countb p l = 0 <-> existsb p l = false.
Proof.
  induction l as [|a l IH]; [unfold countb; simpl; tauto|].
  rewrite countb_cons. cbn [existsb]. pose proof (countb_nonneg p l).
  destruct (p a); cbn [orb]; [split; [lia|discriminate]|].
  rewrite <- IH. lia.
Qed.

End JSFacts.

(** ** Facts about the full variant *)

Module DonkeyKongFacts.
Import JS JSFacts DonkeyKong.

Lemma GameState_eqb_eq (a b : GameState) : GameState_eqb a b = true <-> a = b.
Proof. destruct a, b; simpl; split; intros H; congruence. Qed.

Lemma GameState_eqb_refl (a : GameState) : GameState_eqb a a = true.
Proof. now destruct a. Qed.

Lemma LevelType_eqb_eq (a b : LevelType) : LevelType_eqb a b = true <-> a = b.
Proof. destruct a, b; simpl; split; intros H; congruence. Qed.

(** The animation step leaves the position alone. *)
Lemma marioAnimate_xy moving m :
  x (marioAnimate moving m) = x m /\ y (marioAnimate moving m) = y m.
Proof.
  unfold marioAnimate. destruct moving; simpl; [|auto].
  destruct (_ >? _); simpl; auto.
Qed.

Lemma atGoal_animate moving m : atGoal (marioAnimate moving m) = atGoal m.
Proof.
  unfold atGoal. destruct (marioAnimate_xy moving m) as [-> ->]. reflexivity.
Qed.

Lemma marioFell_animate moving m :
  marioFell (marioAnimate moving m) = marioFell m.
Proof.
  unfold marioFell. destruct (marioAnimate_xy moving m) as [_ ->]. reflexivity.
Qed.

(** *** Which fields a step leaves alone *)

Inductive Field :=
| F_gameState | F_currentLevel | F_score | F_lives
| F_level | F_highScore | F_bonus | F_marioHasHammer
| F_hammerTimer | F_touchControls | F_mario | F_donkeyKong
| F_barrels | F_fireballs | F_rivets | F_elevators
| F_keys | F_gameTime | F_bonusTimer | F_storedHighScore.

Definition ftype (f : Field) : Type :=
  match f with
  | F_gameState => GameState
  | F_currentLevel => LevelType
  | F_score => Z
  | F_lives => Z
  | F_level => Z
  | F_highScore => Z
  | F_bonus => Z
  | F_marioHasHammer => bool
  | F_hammerTimer => Z
  | F_touchControls => Touch
  | F_mario => Sprite
  | F_donkeyKong => Sprite
  | F_barrels => list Barrel
  | F_fireballs => list Fireball
  | F_rivets => list Rivet
  | F_elevators => list Elevator
  | F_keys => list string
  | F_gameTime => Z
  | F_bonusTimer => Z
  | F_storedHighScore => option Z
  end.

Definition get (f : Field) : World -> ftype f :=
  match f return World -> ftype f with
  | F_gameState => gameState
  | F_currentLevel => currentLevel
  | F_score => score
  | F_lives => lives
  | F_level => level
  | F_highScore => highScore
  | F_bonus => bonus
  | F_marioHasHammer => marioHasHammer
  | F_hammerTimer => hammerTimer
  | F_touchControls => touchControls
  | F_mario => mario
  | F_donkeyKong => donkeyKong
  | F_barrels => barrels
  | F_fireballs => fireballs
  | F_rivets => rivets
  | F_elevators => elevators
  | F_keys => keys
  | F_gameTime => gameTime
  | F_bonusTimer => bonusTimer
  | F_storedHighScore => storedHighScore
  end.

(** [keeps W w w']: every field outside [W] has the same value in [w']
    as in [w]. *)
Definition keeps (W : Field -> bool) (w w' : World) : Prop :=
  forall f, W f = false -> get f w' = get f w.

Lemma keeps_refl W w : keeps W w w.
Proof. intros f _. reflexivity. Qed.

Lemma keeps_trans W w1 w2 w3 :
  keeps W w1 w2 -> keeps W w2 w3 -> keeps W w1 w3.
Proof. intros H12 H23 f Hf. rewrite (H23 f Hf). apply H12, Hf. Qed.

Lemma keeps_mono (W W' : Field -> bool) w w' :
  (forall f, W' f = false -> W f = false) -> keeps W w w' -> keeps W' w w'.
Proof. intros Hsub H f Hf. apply H, Hsub, Hf. Qed.

Ltac keeps_basic :=
  let f := fresh "f" in
  let H := fresh "H" in
  intros f H; destruct f; first [discriminate H | reflexivity].

Ltac widen := intros []; simpl; intros; first [reflexivity | discriminate].

Definition W_phase f := match f with F_gameState => true | _ => false end.
Definition W_hammer f :=
  match f with F_marioHasHammer | F_hammerTimer => true | _ => false end.
Definition W_win f :=
  match f with F_gameState | F_score => true | _ => false end.
Definition W_mario f :=
  match f with
  | F_gameState | F_score | F_marioHasHammer | F_hammerTimer | F_mario => true
  | _ => false
  end.
Definition W_barrels f :=
  match f with F_gameState | F_score | F_barrels => true | _ => false end.
Definition W_fireballs f :=
  match f with F_gameState | F_fireballs => true | _ => false end.
Definition W_elevators f := match f with F_elevators => true | _ => false end.
Definition W_rivets f :=
  match f with F_score | F_rivets => true | _ => false end.
Definition W_donkeyKong f := match f with F_donkeyKong => true | _ => false end.
Definition W_bonus f :=
  match f with F_bonus | F_bonusTimer => true | _ => false end.

Lemma marioDeath_keeps w : keeps W_phase w (marioDeath w).
Proof. unfold marioDeath. destruct (marioFell _); keeps_basic. Qed.

Lemma marioPickup_keeps w0 w : keeps W_hammer w (marioPickup w0 w).
Proof. unfold marioPickup. destruct (hammerPickup _ _); keeps_basic. Qed.

Lemma marioHammerTimer_keeps w0 w : keeps W_hammer w (marioHammerTimer w0 w).
Proof.
  unfold marioHammerTimer, hammerCountdown.
  destruct (marioHasHammer w0); [destruct (_ <=? _)|]; keeps_basic.
Qed.

Lemma checkWinCondition_keeps w0 w : keeps W_win w (checkWinCondition w0 w).
Proof.
  unfold checkWinCondition.
  destruct (currentLevel w0);
    match goal with |- context [if ?c then _ else _] => destruct c end;
    keeps_basic.
Qed.

Lemma set_mario_keeps v w : keeps W_mario w (set_mario v w).
Proof. keeps_basic. Qed.

(** [updateMario] as the composition of its steps. *)
Lemma updateMario_eq w0 w :
  updateMario w0 w =
  let w1 := marioDeath (set_mario (fst (marioPhysics w0 w)) w) in
  checkWinCondition w0
    (marioHammerTimer w0
       (marioPickup w0
          (set_mario (marioAnimate (snd (marioPhysics w0 w)) (mario w1)) w1))).
Proof. unfold updateMario. destruct (marioPhysics w0 w). reflexivity. Qed.

Lemma updateMario_keeps w0 w : keeps W_mario w (updateMario w0 w).
Proof.
  rewrite updateMario_eq. cbv zeta.
  eapply keeps_trans;
    [| eapply keeps_mono; [| apply checkWinCondition_keeps]; widen].
  eapply keeps_trans;
    [| eapply keeps_mono; [| apply marioHammerTimer_keeps]; widen].
  eapply keeps_trans;
    [| eapply keeps_mono; [| apply marioPickup_keeps]; widen].
  eapply keeps_trans; [| apply set_mario_keeps].
  eapply keeps_trans;
    [| eapply keeps_mono; [| apply marioDeath_keeps]; widen].
  apply set_mario_keeps.
Qed.

(** Rewrite a projection of a step's result with a [keeps] fact. *)
Tactic Notation "kept" uconstr(H) constr(fld) :=
  let E := fresh "E" in
  epose proof (H fld eq_refl) as E; cbn [get] in E; rewrite E; clear E.

(** *** What [updateMario] writes *)

Lemma updateMario_mario w0 w :
  mario (updateMario w0 w) =
  marioAnimate (snd (marioPhysics w0 w)) (fst (marioPhysics w0 w)).
Proof.
  rewrite updateMario_eq. cbv zeta.
  kept (checkWinCondition_keeps w0 _) F_mario.
  kept (marioHammerTimer_keeps w0 _) F_mario.
  kept (marioPickup_keeps w0 _) F_mario.
  cbn [mario set_mario].
  kept (marioDeath_keeps _) F_mario. reflexivity.
Qed.

Lemma checkWinCondition_gameState w0 w :
  gameState (checkWinCondition w0 w) =
  if marioWins w0 (rivets w) (mario w)
  then match currentLevel w0 with RIVET => INTERLUDE | _ => LEVEL_COMPLETE end
  else gameState w.
Proof.
  unfold checkWinCondition, marioWins.
  destruct (currentLevel w0);
    match goal with |- context [if ?c then _ else _] => destruct c end;
    reflexivity.
Qed.

Lemma checkWinCondition_score w0 w :
  score (checkWinCondition w0 w) =
  if marioWins w0 (rivets w) (mario w) then score w + bonus w0 else score w.
Proof.
  unfold checkWinCondition, marioWins.
  destruct (currentLevel w0);
    match goal with |- context [if ?c then _ else _] => destruct c end;
    reflexivity.
Qed.

Lemma marioWins_animate w0 rs moving m :
  marioWins w0 rs (marioAnimate moving m) = marioWins w0 rs m.
Proof.
  unfold marioWins. destruct (currentLevel w0); auto using atGoal_animate.
Qed.

Lemma updateMario_gameState w0 w :
  gameState (updateMario w0 w) =
  marioPhase w0 (rivets w) (fst (marioPhysics w0 w)) (gameState w).
Proof.
  rewrite updateMario_eq. cbv zeta.
  rewrite checkWinCondition_gameState.
  kept (marioHammerTimer_keeps w0 _) F_rivets.
  kept (marioPickup_keeps w0 _) F_rivets.
  kept (marioHammerTimer_keeps w0 _) F_mario.
  kept (marioPickup_keeps w0 _) F_mario.
  kept (marioHammerTimer_keeps w0 _) F_gameState.
  kept (marioPickup_keeps w0 _) F_gameState.
  cbn [mario set_mario rivets gameState].
  kept (marioDeath_keeps _) F_rivets. kept (marioDeath_keeps _) F_mario.
  cbn [mario set_mario rivets].
  rewrite marioWins_animate. unfold marioPhase.
  destruct (marioWins _ _ _); [reflexivity|].
  unfold marioDeath. cbn [mario set_mario].
  destruct (marioFell _); reflexivity.
Qed.

Lemma updateMario_score w0 w :
  score (updateMario w0 w) =
  if marioWins w0 (rivets w) (fst (marioPhysics w0 w))
  then score w + bonus w0 else score w.
Proof.
  rewrite updateMario_eq. cbv zeta.
  rewrite checkWinCondition_score.
  kept (marioHammerTimer_keeps w0 _) F_rivets.
  kept (marioPickup_keeps w0 _) F_rivets.
  kept (marioHammerTimer_keeps w0 _) F_mario.
  kept (marioPickup_keeps w0 _) F_mario.
  kept (marioHammerTimer_keeps w0 _) F_score.
  kept (marioPickup_keeps w0 _) F_score.
  cbn [mario set_mario rivets score].
  kept (marioDeath_keeps _) F_rivets. kept (marioDeath_keeps _) F_mario.
  kept (marioDeath_keeps _) F_score.
  cbn [mario set_mario rivets score].
  rewrite marioWins_animate. reflexivity.
Qed.

Lemma hammerPickup_holding w0 m :
  marioHasHammer w0 = true -> hammerPickup w0 m = false.
Proof.
  intros H. unfold hammerPickup. rewrite H.
  now rewrite andb_false_r.
Qed.

(** The power-up flag and its timer after [updateMario]. *)
Lemma updateMario_hammer w0 w :
  let m := marioAnimate (snd (marioPhysics w0 w)) (fst (marioPhysics w0 w)) in
  marioHasHammer (updateMario w0 w) =
    (if marioHasHammer w0
     then (if hammerTimer w <=? 1 then false else marioHasHammer w)
     else if hammerPickup w0 m then true else marioHasHammer w) /\
  hammerTimer (updateMario w0 w) =
    (if marioHasHammer w0
     then (if hammerTimer w <=? 1 then 0 else hammerTimer w - 1)
     else if hammerPickup w0 m then 300 else hammerTimer w).
Proof.
  cbv zeta. rewrite updateMario_eq. cbv zeta.
  kept (checkWinCondition_keeps w0 _) F_marioHasHammer.
  kept (checkWinCondition_keeps w0 _) F_hammerTimer.
  set (w1 := marioDeath _).
  assert (Hm : mario w1 = fst (marioPhysics w0 w)).
  { subst w1. kept (marioDeath_keeps _) F_mario. reflexivity. }
  assert (Hh : marioHasHammer w1 = marioHasHammer w).
  { subst w1. kept (marioDeath_keeps _) F_marioHasHammer. reflexivity. }
  assert (Ht : hammerTimer w1 = hammerTimer w).
  { subst w1. kept (marioDeath_keeps _) F_hammerTimer. reflexivity. }
  rewrite Hm. clearbody w1.
  unfold marioHammerTimer, marioPickup, hammerCountdown.
  cbn [mario set_mario].
  destruct (marioHasHammer w0) eqn:H0.
  - rewrite (hammerPickup_holding _ _ H0).
    cbn [hammerTimer set_mario]. rewrite Ht.
    destruct (hammerTimer w <=? 1); cbn; auto.
  - destruct (hammerPickup w0 _); cbn; auto.
Qed.

(** *** [updateBarrels] and [updateFireballs] *)

Lemma filterBarrels_spec w0 rnd bs :
  forall w i kept w' i',
    filterBarrels w0 rnd bs w i = (kept, w', i') ->
    let moved := movedBarrels (currentLevel w0) rnd bs i in
    kept = filter (barrelKept w0 (mario w)) moved /\
    keeps W_win w w' /\
    gameState w' =
      (if negb (marioHasHammer w0) && existsb (barrelContact (mario w)) moved
       then MARIO_DEATH else gameState w) /\
    score w' =
      score w +
      (if marioHasHammer w0
       then 300 * countb (barrelContact (mario w)) moved else 0).
Proof.
  induction bs as [|barrel bs IH]; intros w i kept w' i' E;
    cbn [filterBarrels] in E; cbv zeta; cbn [movedBarrels].
  - injection E as <- <- <-.
    split; [reflexivity|]. split; [apply keeps_refl|]. split.
    + cbn [existsb]. now rewrite andb_false_r.
    + destruct (marioHasHammer w0); unfold countb; simpl; lia.
  - unfold barrelCallback in E.
    destruct (barrelMove (currentLevel w0) rnd i barrel) as [b1 i1].
    cbn [filter existsb]. rewrite countb_cons.
    assert (Hkept : barrelKept w0 (mario w) b1 =
                    negb (barrelOffScreen b1) &&
                    negb (marioHasHammer w0 &&
                          checkCollision (mario w) (b_sprite b1)))
      by reflexivity.
    assert (Hc : barrelContact (mario w) b1 =
                 negb (barrelOffScreen b1) &&
                 checkCollision (mario w) (b_sprite b1)) by reflexivity.
    rewrite Hkept, Hc. clear Hkept Hc.
    destruct (barrelOffScreen b1) eqn:Eoff; cbn [negb andb orb].
    { destruct (filterBarrels w0 rnd bs w i1) as [[rest w2] i2] eqn:Er.
      injection E as <- <- <-.
      destruct (IH _ _ _ _ _ Er) as (-> & Hk & Hg & Hs).
      split; [reflexivity|]. split; [exact Hk|]. split; [exact Hg|].
      rewrite Hs. destruct (marioHasHammer w0); lia. }
    destruct (marioHasHammer w0) eqn:Eh; cbn [negb andb orb] in *.
    + destruct (checkCollision (mario w) (b_sprite b1)) eqn:Ec;
        cbn [negb andb orb] in *.
      * destruct (filterBarrels w0 rnd bs (setScore (score w + 300) w) i1)
          as [[rest w2] i2] eqn:Er.
        injection E as <- <- <-.
        destruct (IH _ _ _ _ _ Er) as (-> & Hk & Hg & Hs).
        cbn [mario setScore gameState score] in *.
        split; [reflexivity|]. split; [|split; [exact Hg|]].
        -- eapply keeps_trans; [|exact Hk]. keeps_basic.
        -- rewrite Hs. lia.
      * destruct (filterBarrels w0 rnd bs w i1) as [[rest w2] i2] eqn:Er.
        injection E as <- <- <-.
        destruct (IH _ _ _ _ _ Er) as (-> & Hk & Hg & Hs).
        split; [reflexivity|]. split; [exact Hk|]. split; [exact Hg|].
        rewrite Hs. lia.
    + destruct (checkCollision (mario w) (b_sprite b1)) eqn:Ec;
        cbn [negb andb orb] in *.
      * destruct (filterBarrels w0 rnd bs (setGameState MARIO_DEATH w) i1)
          as [[rest w2] i2] eqn:Er.
        injection E as <- <- <-.
        destruct (IH _ _ _ _ _ Er) as (-> & Hk & Hg & Hs).
        cbn [mario setGameState gameState score] in *.
        split; [reflexivity|]. split; [|split; [|exact Hs]].
        -- eapply keeps_trans; [|exact Hk]. keeps_basic.
        -- rewrite Hg. now destruct (existsb _ _).
      * destruct (filterBarrels w0 rnd bs w i1) as [[rest w2] i2] eqn:Er.
        injection E as <- <- <-.
        destruct (IH _ _ _ _ _ Er) as (-> & Hk & Hg & Hs).
        split; [reflexivity|]. split; [exact Hk|]. split; [exact Hg|exact Hs].
Qed.

Lemma filterFireballs_spec w0 fs :
  forall w kept w',
    filterFireballs w0 fs w = (kept, w') ->
    let moved := map (fireballMove (currentLevel w0)) fs in
    kept = filter (fun f => negb (fireballOffScreen f)) moved /\
    keeps W_phase w w' /\
    gameState w' =
      (if existsb (fireballContact (mario w)) moved
       then MARIO_DEATH else gameState w).
Proof.
  induction fs as [|fireball fs IH]; intros w kept w' E;
    cbn [filterFireballs] in E; cbv zeta; cbn [map].
  - injection E as <- <-.
    split; [reflexivity|]. split; [apply keeps_refl|reflexivity].
  - unfold fireballCallback in E.
    set (f1 := fireballMove (currentLevel w0) fireball) in *.
    cbn [filter existsb].
    assert (Hc : fireballContact (mario w) f1 =
                 negb (fireballOffScreen f1) &&
                 checkCollision (mario w) (f_sprite f1)) by reflexivity.
    rewrite Hc. clear Hc.
    destruct (fireballOffScreen f1) eqn:Eoff; cbn [negb andb orb].
    { destruct (filterFireballs w0 fs w) as [rest w2] eqn:Er.
      injection E as <- <-.
      destruct (IH _ _ _ Er) as (-> & Hk & Hg).
      split; [reflexivity|]. split; [exact Hk|exact Hg]. }
    destruct (checkCollision (mario w) (f_sprite f1)) eqn:Ec.
    + destruct (filterFireballs w0 fs (setGameState MARIO_DEATH w))
        as [rest w2] eqn:Er.
      injection E as <- <-.
      destruct (IH _ _ _ Er) as (-> & Hk & Hg).
      cbn [mario setGameState gameState] in *.
      split; [reflexivity|]. split.
      * eapply keeps_trans; [|exact Hk]. keeps_basic.
      * rewrite Hg. now destruct (existsb _ _).
    + destruct (filterFireballs w0 fs w) as [rest w2] eqn:Er.
      injection E as <- <-.
      destruct (IH _ _ _ Er) as (-> & Hk & Hg).
      split; [reflexivity|]. split; [exact Hk|exact Hg].
Qed.

Lemma spawnBarrel_keeps w0 w :
  keeps (fun f => match f with F_barrels => true | _ => false end)
    w (spawnBarrel w0 w).
Proof. unfold spawnBarrel. destruct (barrelSpawns _ _); keeps_basic. Qed.

Lemma updateBarrels_spec w0 rnd w i :
  let w' := fst (updateBarrels w0 rnd w i) in
  let moved :=
    movedBarrels (currentLevel w0) rnd (barrels (spawnBarrel w0 w)) i in
  keeps W_barrels w w' /\
  barrels w' = filter (barrelKept w0 (mario w)) moved /\
  gameState w' =
    (if negb (marioHasHammer w0) && existsb (barrelContact (mario w)) moved
     then MARIO_DEATH else gameState w) /\
  score w' =
    score w +
    (if marioHasHammer w0
     then 300 * countb (barrelContact (mario w)) moved else 0).
Proof.
  cbv zeta. unfold updateBarrels.
  pose proof (spawnBarrel_keeps w0 w) as Hsp.
  set (w1 := spawnBarrel w0 w) in *.
  destruct (filterBarrels w0 rnd (barrels w1) w1 i) as [[bs w2] i2] eqn:E.
  destruct (filterBarrels_spec _ _ _ _ _ _ _ _ E) as (-> & Hk & Hg & Hs).
  cbn [fst barrels set_barrels gameState score].
  assert (Hm : mario w1 = mario w) by (apply (Hsp F_mario); reflexivity).
  assert (Hgs : gameState w1 = gameState w)
    by (apply (Hsp F_gameState); reflexivity).
  assert (Hsc : score w1 = score w) by (apply (Hsp F_score); reflexivity).
  rewrite Hm, Hgs, Hsc in *.
  split; [|split; [reflexivity|split; [exact Hg|exact Hs]]].
  eapply keeps_trans; [eapply keeps_mono; [|exact Hsp]; widen|].
  eapply keeps_trans; [eapply keeps_mono; [|exact Hk]; widen|].
  keeps_basic.
Qed.

Lemma spawnFireball_keeps w0 rnd w i :
  keeps (fun f => match f with F_fireballs => true | _ => false end)
    w (fst (spawnFireball w0 rnd w i)).
Proof. unfold spawnFireball. destruct (fireballSpawns _ _); keeps_basic. Qed.

Lemma updateFireballs_spec w0 rnd w i :
  let w' := fst (updateFireballs w0 rnd w i) in
  let moved :=
    map (fireballMove (currentLevel w0))
      (fireballs (fst (spawnFireball w0 rnd w i))) in
  keeps W_fireballs w w' /\
  fireballs w' = filter (fun f => negb (fireballOffScreen f)) moved /\
  gameState w' =
    (if existsb (fireballContact (mario w)) moved
     then MARIO_DEATH else gameState w).
Proof.
  cbv zeta. unfold updateFireballs.
  pose proof (spawnFireball_keeps w0 rnd w i) as Hsp.
  destruct (spawnFireball w0 rnd w i) as [w1 i1]. cbn [fst] in *.
  destruct (filterFireballs w0 (fireballs w1) w1) as [fs w2] eqn:E.
  destruct (filterFireballs_spec _ _ _ _ _ E) as (-> & Hk & Hg).
  cbn [fst fireballs set_fireballs gameState].
  assert (Hm : mario w1 = mario w) by (apply (Hsp F_mario); reflexivity).
  assert (Hgs : gameState w1 = gameState w)
    by (apply (Hsp F_gameState); reflexivity).
  rewrite Hm, Hgs in *.
  split; [|split; [reflexivity|exact Hg]].
  eapply keeps_trans; [eapply keeps_mono; [|exact Hsp]; widen|].
  eapply keeps_trans; [eapply keeps_mono; [|exact Hk]; widen|].
  keeps_basic.
Qed.

(** *** The remaining updates *)

Lemma updateElevators_keeps w0 w : keeps W_elevators w (updateElevators w0 w).
Proof. unfold updateElevators. destruct (negb _); keeps_basic. Qed.

Lemma rivetsScan_spec m rs :
  forall w rs' w',
    rivetsScan m rs w = (rs', w') ->
    keeps W_rivets w w' /\ rivets w' = rivets w /\
    score w' = score w + 100 * countb (rivetTouched m) rs.
Proof.
  induction rs as [|rivet rs IH]; intros w rs' w' E; cbn [rivetsScan] in E.
  - injection E as <- <-. split; [apply keeps_refl|].
    split; [reflexivity|]. unfold countb; simpl; lia.
  - rewrite countb_cons.
    destruct (rivetTouched m rivet).
    + destruct (rivetsScan m rs (setScore (score w + 100) w))
        as [rest w2] eqn:Er.
      injection E as <- <-. destruct (IH _ _ _ Er) as (Hk & Hr & Hs).
      cbn [score setScore rivets] in *.
      split; [|split; [exact Hr|rewrite Hs; lia]].
      eapply keeps_trans; [|exact Hk]. keeps_basic.
    + destruct (rivetsScan m rs w) as [rest w2] eqn:Er.
      injection E as <- <-. destruct (IH _ _ _ Er) as (Hk & Hr & Hs).
      split; [exact Hk|split; [exact Hr|rewrite Hs; lia]].
Qed.

Lemma updateRivets_keeps w0 w : keeps W_rivets w (updateRivets w0 w).
Proof.
  unfold updateRivets. destruct (negb _); [apply keeps_refl|].
  destruct (rivetsScan (mario w) (rivets w) w) as [rs w1] eqn:E.
  destruct (rivetsScan_spec _ _ _ _ _ E) as (Hk & _ & _).
  eapply keeps_trans; [exact Hk|]. keeps_basic.
Qed.

Lemma updateRivets_score w0 w :
  score (updateRivets w0 w) =
  score w +
  (if LevelType_eqb (currentLevel w0) RIVET
   then 100 * countb (rivetTouched (mario w)) (rivets w) else 0).
Proof.
  unfold updateRivets. destruct (LevelType_eqb _ _); cbn [negb]; [|lia].
  destruct (rivetsScan (mario w) (rivets w) w) as [rs w1] eqn:E.
  destruct (rivetsScan_spec _ _ _ _ _ E) as (_ & _ & Hs).
  cbn [score set_rivets]. exact Hs.
Qed.

Lemma updateDonkeyKong_keeps w : keeps W_donkeyKong w (updateDonkeyKong w).
Proof. unfold updateDonkeyKong. keeps_basic. Qed.

Lemma updateBonus_keeps w : keeps W_bonus w (updateBonus w).
Proof.
  unfold updateBonus. cbv zeta. destruct (_ >=? _); keeps_basic.
Qed.


(** *** One frame in the Playing phase *)

Section Frame.
Variable rnd : random.
Variable w0 : World.

Let wM := updateMario w0 (ticked w0).
Let wB := fst (updateBarrels w0 rnd wM 0).
Let iB := snd (updateBarrels w0 rnd wM 0).
Let wF := fst (updateFireballs w0 rnd wB iB).
Let wE := updateElevators w0 wF.
Let wR := updateRivets w0 wE.

Lemma playingFrame_eq :
  playingFrame w0 rnd (ticked w0) = updateBonus (updateDonkeyKong wR).
Proof.
  unfold playingFrame, wR, wE, wF, wB, iB, wM.
  destruct (updateBarrels w0 rnd _ 0) as [w1 i1]. cbn [fst snd].
  destruct (updateFireballs w0 rnd w1 i1) as [w2 i2]. reflexivity.
Qed.

Lemma gameLoop_playing :
  gameState w0 = PLAYING ->
  gameLoop rnd w0 = updateBonus (updateDonkeyKong wR).
Proof.
  intros H. unfold gameLoop. cbv zeta. rewrite H. cbn [GameState_eqb].
  apply playingFrame_eq.
Qed.

Lemma gameLoop_idle :
  gameState w0 <> PLAYING -> gameLoop rnd w0 = ticked w0.
Proof.
  intros H. unfold gameLoop. cbv zeta.
  destruct (GameState_eqb (gameState w0) PLAYING) eqn:E; [|reflexivity].
  apply GameState_eqb_eq in E. contradiction.
Qed.

Lemma wM_mario : mario wM = marioAfter w0.
Proof.
  unfold wM, marioAfter. rewrite updateMario_mario.
  destruct (marioPhysics w0 (ticked w0)). reflexivity.
Qed.

Lemma wM_barrels : barrels (spawnBarrel w0 wM) = barrels (spawnBarrel w0 (ticked w0)).
Proof.
  unfold spawnBarrel, barrelSpawns, wM.
  kept (updateMario_keeps w0 _) F_gameTime.
  kept (updateMario_keeps w0 _) F_barrels.
  destruct (_ && _); cbn [barrels set_barrels]; try reflexivity.
  kept (updateMario_keeps w0 _) F_barrels. reflexivity.
Qed.

(** Fields written by nothing in a frame but the frame counter. *)
Definition W_frame f :=
  match f with
  | F_currentLevel | F_lives | F_level | F_highScore | F_touchControls
  | F_keys | F_gameTime | F_storedHighScore => false
  | _ => true
  end.

Lemma playingFrame_keeps :
  keeps W_frame (ticked w0) (updateBonus (updateDonkeyKong wR)).
Proof.
  eapply keeps_trans;
    [|eapply keeps_mono; [|apply updateBonus_keeps]; widen].
  eapply keeps_trans;
    [|eapply keeps_mono; [|apply updateDonkeyKong_keeps]; widen].
  eapply keeps_trans;
    [|eapply keeps_mono; [|apply updateRivets_keeps]; widen].
  eapply keeps_trans;
    [|eapply keeps_mono; [|apply updateElevators_keeps]; widen].
  eapply keeps_trans;
    [|eapply keeps_mono;
       [|apply (updateFireballs_spec w0 rnd wB iB)]; widen].
  eapply keeps_trans;
    [|eapply keeps_mono;
       [|apply (updateBarrels_spec w0 rnd wM 0)]; widen].
  eapply keeps_mono; [|apply updateMario_keeps]; widen.
Qed.

(** The phase after the frame: a hazard contact overrides whatever
    [updateMario] queued, and a win overrides the fall. *)
Lemma gameLoop_gameState :
  gameState w0 = PLAYING ->
  gameState (gameLoop rnd w0) =
  if hazardDeath rnd w0 then MARIO_DEATH
  else marioPhase w0 (rivets w0)
         (fst (marioPhysics w0 (ticked w0))) PLAYING.
Proof.
  intros H. rewrite (gameLoop_playing H).
  kept (updateBonus_keeps _) F_gameState.
  kept (updateDonkeyKong_keeps _) F_gameState.
  unfold wR. kept (updateRivets_keeps w0 _) F_gameState.
  unfold wE. kept (updateElevators_keeps w0 _) F_gameState.
  destruct (updateFireballs_spec w0 rnd wB iB) as (_ & _ & HgF).
  destruct (updateBarrels_spec w0 rnd wM 0) as (HkB & _ & HgB & _).
  cbv zeta in HgF, HgB. fold wF in HgF. fold wB in HgB, HkB.
  rewrite HgF, HgB.
  assert (HmB : mario wB = mario wM) by (apply (HkB F_mario); reflexivity).
  rewrite HmB, wM_mario, wM_barrels.
  unfold hazardDeath, frameFireballs, frameBarrels.
  fold wM. rewrite (surjective_pairing (updateBarrels w0 rnd wM 0)).
  fold wB iB.
  assert (HgM : gameState wM =
                marioPhase w0 (rivets w0)
                  (fst (marioPhysics w0 (ticked w0))) PLAYING).
  { unfold wM. rewrite updateMario_gameState.
    change (gameState (ticked w0)) with (gameState w0).
    now rewrite H. }
  rewrite HgM.
  match goal with
  | |- (if ?b then _ else if ?a then _ else _) = _ =>
      destruct a, b; reflexivity
  end.
Qed.

Lemma gameLoop_mario :
  gameState w0 = PLAYING -> mario (gameLoop rnd w0) = marioAfter w0.
Proof.
  intros H. rewrite (gameLoop_playing H).
  kept (updateBonus_keeps _) F_mario.
  kept (updateDonkeyKong_keeps _) F_mario.
  unfold wR. kept (updateRivets_keeps w0 _) F_mario.
  unfold wE. kept (updateElevators_keeps w0 _) F_mario.
  destruct (updateFireballs_spec w0 rnd wB iB) as (HkF & _).
  destruct (updateBarrels_spec w0 rnd wM 0) as (HkB & _).
  unfold wF. kept HkF F_mario. unfold wB. kept HkB F_mario.
  apply wM_mario.
Qed.

Lemma gameLoop_hammer :
  gameState w0 = PLAYING ->
  marioHasHammer (gameLoop rnd w0) =
    (if marioHasHammer w0 then negb (hammerTimer w0 <=? 1)
     else framePickup w0) /\
  hammerTimer (gameLoop rnd w0) =
    (if marioHasHammer w0
     then (if hammerTimer w0 <=? 1 then 0 else hammerTimer w0 - 1)
     else if framePickup w0 then 300 else hammerTimer w0).
Proof.
  intros H. rewrite (gameLoop_playing H).
  kept (updateBonus_keeps _) F_marioHasHammer.
  kept (updateBonus_keeps _) F_hammerTimer.
  kept (updateDonkeyKong_keeps _) F_marioHasHammer.
  kept (updateDonkeyKong_keeps _) F_hammerTimer.
  unfold wR. kept (updateRivets_keeps w0 _) F_marioHasHammer.
  kept (updateRivets_keeps w0 _) F_hammerTimer.
  unfold wE. kept (updateElevators_keeps w0 _) F_marioHasHammer.
  kept (updateElevators_keeps w0 _) F_hammerTimer.
  destruct (updateFireballs_spec w0 rnd wB iB) as (HkF & _).
  destruct (updateBarrels_spec w0 rnd wM 0) as (HkB & _).
  unfold wF. kept HkF F_marioHasHammer. kept HkF F_hammerTimer.
  unfold wB. kept HkB F_marioHasHammer. kept HkB F_hammerTimer.
  destruct (updateMario_hammer w0 (ticked w0)) as [Hh Ht].
  cbv zeta in Hh, Ht. fold wM in Hh, Ht. rewrite Hh, Ht.
  change (marioHasHammer (ticked w0)) with (marioHasHammer w0).
  change (hammerTimer (ticked w0)) with (hammerTimer w0).
  unfold framePickup, marioAfter. rewrite H. cbn [GameState_eqb andb].
  destruct (marioPhysics w0 (ticked w0)) as [m moving]. cbn [fst snd].
  destruct (marioHasHammer w0) eqn:E0.
  - destruct (hammerTimer w0 <=? 1); split; reflexivity.
  - destruct (hammerPickup w0 _); split; reflexivity.
Qed.


Lemma gameLoop_barrels :
  gameState w0 = PLAYING ->
  barrels (gameLoop rnd w0) =
  filter (barrelKept w0 (marioAfter w0)) (frameBarrels rnd w0).
Proof.
  intros H. rewrite (gameLoop_playing H).
  kept (updateBonus_keeps _) F_barrels.
  kept (updateDonkeyKong_keeps _) F_barrels.
  unfold wR. kept (updateRivets_keeps w0 _) F_barrels.
  unfold wE. kept (updateElevators_keeps w0 _) F_barrels.
  destruct (updateFireballs_spec w0 rnd wB iB) as (HkF & _).
  destruct (updateBarrels_spec w0 rnd wM 0) as (_ & HbB & _).
  unfold wF. kept HkF F_barrels. unfold wB. rewrite HbB.
  rewrite wM_mario, wM_barrels. reflexivity.
Qed.

Lemma gameLoop_fireballs :
  gameState w0 = PLAYING ->
  fireballs (gameLoop rnd w0) =
  filter (fun f => negb (fireballOffScreen f)) (frameFireballs rnd w0).
Proof.
  intros H. rewrite (gameLoop_playing H).
  kept (updateBonus_keeps _) F_fireballs.
  kept (updateDonkeyKong_keeps _) F_fireballs.
  unfold wR. kept (updateRivets_keeps w0 _) F_fireballs.
  unfold wE. kept (updateElevators_keeps w0 _) F_fireballs.
  destruct (updateFireballs_spec w0 rnd wB iB) as (_ & HfF & _).
  unfold wF. rewrite HfF. unfold frameFireballs. fold wM.
  rewrite (surjective_pairing (updateBarrels w0 rnd wM 0)).
  reflexivity.
Qed.

Lemma gameLoop_score :
  gameState w0 = PLAYING ->
  score (gameLoop rnd w0) =
  score w0 +
  (if marioWins w0 (rivets w0) (fst (marioPhysics w0 (ticked w0)))
   then bonus w0 else 0) +
  (if marioHasHammer w0
   then 300 * countb (barrelContact (marioAfter w0)) (frameBarrels rnd w0)
   else 0) +
  (if LevelType_eqb (currentLevel w0) RIVET
   then 100 * countb (rivetTouched (marioAfter w0)) (rivets w0) else 0).
Proof.
  intros H. rewrite (gameLoop_playing H).
  kept (updateBonus_keeps _) F_score.
  kept (updateDonkeyKong_keeps _) F_score.
  unfold wR. rewrite updateRivets_score.
  unfold wE. kept (updateElevators_keeps w0 _) F_score.
  kept (updateElevators_keeps w0 _) F_mario.
  kept (updateElevators_keeps w0 _) F_rivets.
  destruct (updateFireballs_spec w0 rnd wB iB) as (HkF & _).
  destruct (updateBarrels_spec w0 rnd wM 0) as (HkB & _ & _ & HsB).
  cbv zeta in HsB. fold wB in HsB, HkB. fold wF in HkF.
  kept HkF F_score. kept HkF F_mario. kept HkF F_rivets.
  rewrite HsB. kept HkB F_mario. kept HkB F_rivets.
  rewrite wM_mario, wM_barrels. fold (frameBarrels rnd w0).
  unfold wM. rewrite updateMario_score.
  kept (updateMario_keeps w0 _) F_rivets.
  change (score (ticked w0)) with (score w0).
  change (rivets (ticked w0)) with (rivets w0).
  destruct (marioWins _ _ _); lia.
Qed.

End Frame.

End DonkeyKongFacts.

(** ** Facts about the reduced variant *)

Module DonkeyKongAtariFacts.
Import JS JSFacts DonkeyKongAtari.

Lemma atari_GameState_eqb_eq (a b : GameState) : GameState_eqb a b = true <-> a = b.
Proof. destruct a, b; simpl; split; intros H; congruence. Qed.

Inductive Field :=
| F_gameState | F_score | F_lives | F_level
| F_highScore | F_mario | F_barrels | F_fireballs
| F_hammer | F_bonus | F_keys | F_touchControls
| F_storedHighScore | F_heap.

Definition ftype (f : Field) : Type :=
  match f with
  | F_gameState => GameState
  | F_score => Z
  | F_lives => Z
  | F_level => float
  | F_highScore => Z
  | F_mario => Mario
  | F_barrels => list Barrel
  | F_fireballs => list Fireball
  | F_hammer => option GameObject
  | F_bonus => Z
  | F_keys => list string
  | F_touchControls => Touch
  | F_storedHighScore => option Z
  | F_heap => nat
  end.

Definition get (f : Field) : World -> ftype f :=
  match f return World -> ftype f with
  | F_gameState => gameState
  | F_score => score
  | F_lives => lives
  | F_level => level
  | F_highScore => highScore
  | F_mario => mario
  | F_barrels => barrels
  | F_fireballs => fireballs
  | F_hammer => hammer
  | F_bonus => bonus
  | F_keys => keys
  | F_touchControls => touchControls
  | F_storedHighScore => storedHighScore
  | F_heap => heap
  end.

Definition keeps (W : Field -> bool) (w w' : World) : Prop :=
  forall f, W f = false -> get f w' = get f w.

Lemma atari_keeps_refl W w : keeps W w w.
Proof. intros f _. reflexivity. Qed.

Lemma atari_keeps_trans W w1 w2 w3 :
  keeps W w1 w2 -> keeps W w2 w3 -> keeps W w1 w3.
Proof. intros H12 H23 f Hf. rewrite (H23 f Hf). apply H12, Hf. Qed.

Lemma atari_keeps_mono (W W' : Field -> bool) w w' :
  (forall f, W' f = false -> W f = false) -> keeps W w w' -> keeps W' w w'.
Proof. intros Hsub H f Hf. apply H, Hsub, Hf. Qed.

Ltac keeps_basic :=
  let f := fresh "f" in
  let H := fresh "H" in
  intros f H; destruct f; first [discriminate H | reflexivity].

Ltac widen := intros []; simpl; intros; first [reflexivity | discriminate].

Tactic Notation "kept" uconstr(H) constr(fld) :=
  let E := fresh "E" in
  epose proof (H fld eq_refl) as E; cbn [get] in E; rewrite E; clear E.

Definition W_mario f := match f with F_mario | F_hammer => true | _ => false end.
Definition W_barrels f := match f with F_barrels | F_heap => true | _ => false end.
Definition W_fireballs f :=
  match f with F_fireballs | F_heap => true | _ => false end.
Definition W_collisions f :=
  match f with
  | F_gameState | F_score | F_barrels | F_fireballs | F_heap => true
  | _ => false
  end.

Lemma atari_updateMario_keeps w0 w : keeps W_mario w (updateMario w0 w).
Proof.
  unfold updateMario. destruct (negb _); [apply atari_keeps_refl|].
  destruct (hammerInReach _ _); keeps_basic.
Qed.

Lemma updateBarrels_keeps w0 rnd w i :
  keeps W_barrels w (fst (updateBarrels w0 rnd w i)).
Proof.
  unfold updateBarrels. destruct (negb _); [apply atari_keeps_refl|].
  destruct (_ <? _)%float;
    match goal with
    | |- context [mapBarrels ?r ?l ?h ?j] =>
        destruct (mapBarrels r l h j) as [[bs h'] j']
    end; keeps_basic.
Qed.

Lemma updateFireballs_keeps w0 rnd w i :
  keeps W_fireballs w (fst (updateFireballs w0 rnd w i)).
Proof.
  unfold updateFireballs. destruct (negb _); [apply atari_keeps_refl|].
  destruct (_ <? _)%float;
    match goal with
    | |- context [mapFireballs ?r ?l ?h ?j] =>
        destruct (mapFireballs r l h j) as [[fs h'] j']
    end; keeps_basic.
Qed.

Lemma barrelCollisions_spec w0 bs :
  forall w d w' d',
    barrelCollisions w0 bs w d = (w', d') ->
    keeps W_collisions w w' /\ gameState w' = gameState w /\
    score w' =
      score w +
      (if hasHammer (mario w0)
       then 300 * countb (hitsBarrel (mario w0)) bs else 0) /\
    Z.of_nat d' =
      Z.of_nat d +
      (if hasHammer (mario w0)
       then 0 else countb (hitsBarrel (mario w0)) bs).
Proof.
  induction bs as [|barrel bs IH]; intros w d w' d' E;
    cbn [barrelCollisions] in E.
  - injection E as <- <-. split; [apply atari_keeps_refl|]. split; [reflexivity|].
    destruct (hasHammer _); unfold countb; simpl; lia.
  - rewrite countb_cons.
    destruct (hitsBarrel (mario w0) barrel).
    + destruct (hasHammer (mario w0)) eqn:Eh.
      * destruct (deactivateBarrel barrel (barrels (setScore (score w + 300) w))
                    (heap (setScore (score w + 300) w))) as [bs1 h1].
        destruct (IH _ _ _ _ E) as (Hk & Hg & Hs & Hd).
        cbn [score setScore set_heap setBarrels gameState] in *.
        split; [|split; [exact Hg|split; lia]].
        eapply atari_keeps_trans; [|exact Hk]. keeps_basic.
      * destruct (IH _ _ _ _ E) as (Hk & Hg & Hs & Hd).
        split; [exact Hk|split; [exact Hg|split; lia]].
    + destruct (IH _ _ _ _ E) as (Hk & Hg & Hs & Hd).
      split; [exact Hk|split; [exact Hg|]].
      destruct (hasHammer (mario w0)); split; lia.
Qed.

Lemma fireballCollisions_spec w0 fs :
  forall w d w' d',
    fireballCollisions w0 fs w d = (w', d') ->
    keeps W_collisions w w' /\ gameState w' = gameState w /\
    score w' =
      score w +
      (if hasHammer (mario w0)
       then 500 * countb (hitsFireball (mario w0)) fs else 0) /\
    Z.of_nat d' =
      Z.of_nat d +
      (if hasHammer (mario w0)
       then 0 else countb (hitsFireball (mario w0)) fs).
Proof.
  induction fs as [|fireball fs IH]; intros w d w' d' E;
    cbn [fireballCollisions] in E.
  - injection E as <- <-. split; [apply atari_keeps_refl|]. split; [reflexivity|].
    destruct (hasHammer _); unfold countb; simpl; lia.
  - rewrite countb_cons.
    destruct (hitsFireball (mario w0) fireball).
    + destruct (hasHammer (mario w0)) eqn:Eh.
      * destruct (deactivateFireball fireball
                    (fireballs (setScore (score w + 500) w))
                    (heap (setScore (score w + 500) w))) as [fs1 h1].
        destruct (IH _ _ _ _ E) as (Hk & Hg & Hs & Hd).
        cbn [score setScore set_heap setFireballs gameState] in *.
        split; [|split; [exact Hg|split; lia]].
        eapply atari_keeps_trans; [|exact Hk]. keeps_basic.
      * destruct (IH _ _ _ _ E) as (Hk & Hg & Hs & Hd).
        split; [exact Hk|split; [exact Hg|split; lia]].
    + destruct (IH _ _ _ _ E) as (Hk & Hg & Hs & Hd).
      split; [exact Hk|split; [exact Hg|]].
      destruct (hasHammer (mario w0)); split; lia.
Qed.

Lemma checkCollisions_spec w0 w w' d ts :
  gameState w0 = playing ->
  checkCollisions w0 w = (w', d, ts) ->
  keeps W_collisions w w' /\
  gameState w' =
    (if reachedPauline (mario w0) then levelComplete else gameState w) /\
  score w' =
    score w +
    (if hasHammer (mario w0)
     then 300 * countb (hitsBarrel (mario w0)) (barrels w0) +
          500 * countb (hitsFireball (mario w0)) (fireballs w0)
     else 0) /\
  Z.of_nat d = lethalContacts w0.
Proof.
  intros Hp E. unfold checkCollisions in E. unfold lethalContacts.
  rewrite Hp in *. cbn [GameState_eqb negb andb] in *.
  destruct (barrelCollisions w0 (barrels w0) w 0) as [w1 d1] eqn:E1.
  destruct (fireballCollisions w0 (fireballs w0) w1 d1) as [w2 d2] eqn:E2.
  destruct (barrelCollisions_spec _ _ _ _ _ _ E1) as (Hk1 & Hg1 & Hs1 & Hd1).
  destruct (fireballCollisions_spec _ _ _ _ _ _ E2) as (Hk2 & Hg2 & Hs2 & Hd2).
  assert (Hk : keeps W_collisions w w2) by (eapply atari_keeps_trans; eassumption).
  destruct (reachedPauline (mario w0)); injection E as <- <- <-.
  - split; [eapply atari_keeps_trans; [exact Hk|keeps_basic]|].
    split; [reflexivity|]. cbn [score setGameState].
    destruct (hasHammer (mario w0)); cbn [negb]; split; lia.
  - split; [exact Hk|]. split; [congruence|].
    destruct (hasHammer (mario w0)); cbn [negb]; split; lia.
Qed.

(** *** The [setLives] updaters of a frame *)







Lemma loseLife_hasHammer w0 w :
  hasHammer (mario w) = false -> hasHammer (mario (loseLife w0 w)) = false.
Proof.
  unfold loseLife. cbv zeta.
  destruct (_ <=? _); [destruct (_ >? _)|]; auto.
Qed.

Lemma iter_loseLife_hasHammer w0 d w :
  hasHammer (mario w) = false ->
  hasHammer (mario (Nat.iter d (loseLife w0) w)) = false.
Proof.
  intros H. induction d as [|d IH]; [exact H|]. rewrite Nat.iter_succ.
  now apply loseLife_hasHammer.
Qed.



(** *** The power-up fields through the [setMario] updater *)

(** [f] leaves the power-up flag and its timer alone. *)
Definition sameHammer (m m' : Mario) : Prop :=
  hasHammer m' = hasHammer m /\ hammerTimer m' = hammerTimer m.

Lemma marioHorizontal_hammer w0 m : sameHammer m (marioHorizontal w0 m).
Proof.
  unfold marioHorizontal. destruct (_ && _); [split; reflexivity|].
  destruct (_ && _); split; reflexivity.
Qed.

Lemma marioClimb_hammer w0 m : sameHammer m (marioClimb w0 m).
Proof.
  unfold marioClimb. destruct (existsb _ _); [|split; reflexivity].
  destruct (upPressed w0); [split; reflexivity|].
  destruct (downPressed w0); split; reflexivity.
Qed.

Lemma marioJump_hammer w0 m : sameHammer m (marioJump w0 m).
Proof. unfold marioJump. destruct (_ && _); split; reflexivity. Qed.

Lemma marioGravity_hammer prev m : sameHammer m (marioGravity prev m).
Proof.
  unfold marioGravity. destruct (_ && _); [|split; reflexivity].
  destruct (jumping m); [|split; reflexivity]. cbv zeta.
  destruct (_ <=? _)%float; split; reflexivity.
Qed.

Lemma platformsFold_hammer ps :
  forall m,
    sameHammer m
      (fold_left
         (fun m platform =>
            if landsOn m platform
            then set_jumping false
                   (set_onGround true (set_y (py platform - 16)%float m))
            else m)
         ps m).
Proof.
  induction ps as [|p ps IH]; intros m; [split; reflexivity|].
  cbn [fold_left]. destruct (landsOn m p).
  - destruct (IH (set_jumping false
                    (set_onGround true (set_y (py p - 16)%float m))))
      as [H1 H2].
    split; [rewrite H1|rewrite H2]; reflexivity.
  - apply IH.
Qed.

Lemma marioPlatforms_hammer m : sameHammer m (marioPlatforms m).
Proof.
  unfold marioPlatforms.
  destruct (platformsFold_hammer platforms (set_onGround false m)) as [H1 H2].
  split; [rewrite H1|rewrite H2]; reflexivity.
Qed.

Lemma sameHammer_trans m1 m2 m3 :
  sameHammer m1 m2 -> sameHammer m2 m3 -> sameHammer m1 m3.
Proof. intros [A B] [C D]. split; congruence. Qed.

Lemma marioHammerTimer_spec m :
  hasHammer (marioHammerTimer m) =
    hasHammer m && negb (hammerTimer m - 1 <=? 0) /\
  hammerTimer (marioHammerTimer m) =
    (if hasHammer m then hammerTimer m - 1 else hammerTimer m).
Proof.
  unfold marioHammerTimer. destruct (hasHammer m) eqn:E; [|now rewrite E].
  cbv zeta. cbn [hammerTimer set_hammerTimer].
  destruct (_ <=? _); cbn; auto.
Qed.

Lemma marioAfter_hammer w0 :
  hasHammer (marioAfter w0) =
    hasHammer (mario w0) && negb (hammerTimer (mario w0) - 1 <=? 0) /\
  hammerTimer (marioAfter w0) =
    (if hasHammer (mario w0)
     then hammerTimer (mario w0) - 1 else hammerTimer (mario w0)).
Proof.
  assert (H : sameHammer (mario w0)
                (marioPlatforms
                   (marioGravity (mario w0)
                      (marioJump w0
                         (marioClimb w0 (marioHorizontal w0 (mario w0))))))).
  { eapply sameHammer_trans; [|apply marioPlatforms_hammer].
    eapply sameHammer_trans; [|apply marioGravity_hammer].
    eapply sameHammer_trans; [|apply marioJump_hammer].
    eapply sameHammer_trans; [|apply marioClimb_hammer].
    apply marioHorizontal_hammer. }
  destruct H as [Hh Ht].
  unfold marioAfter, marioMoved.
  destruct (marioHammerTimer_spec
              (marioPlatforms
                 (marioGravity (mario w0)
                    (marioJump w0
                       (marioClimb w0 (marioHorizontal w0 (mario w0)))))))
    as [E1 E2].
  rewrite E1, E2, Hh, Ht. split; reflexivity.
Qed.

(** *** One frame of the loop *)

Section Frame.
Variable rnd : random.
Variable w0 : World.
Hypothesis Hp : gameState w0 = playing.

Let w1 := updateMario w0 w0.
Let w2 := fst (updateBarrels w0 rnd w1 0).
Let i2 := snd (updateBarrels w0 rnd w1 0).
Let w3 := fst (updateFireballs w0 rnd w2 i2).
Let w4 := fst (fst (checkCollisions w0 w3)).
Let d := snd (fst (checkCollisions w0 w3)).
Let w5 := setBonus (Z.max 0 (bonus w4 - 1)) w4.

Lemma gameLoop_eq : fst (gameLoop rnd w0) = Nat.iter d (loseLife w0) w5.
Proof.
  unfold gameLoop, w5, d, w4, w3, w2, i2, w1.
  destruct (updateBarrels w0 rnd _ 0) as [a i]. cbn [fst snd].
  destruct (updateFireballs w0 rnd a i) as [b j]. cbn [fst snd].
  destruct (checkCollisions w0 b) as [[c k] ts]. reflexivity.
Qed.

Lemma frame_collisions :
  keeps W_collisions w3 w4 /\
  gameState w4 =
    (if reachedPauline (mario w0) then levelComplete else gameState w3) /\
  score w4 =
    score w3 +
    (if hasHammer (mario w0)
     then 300 * countb (hitsBarrel (mario w0)) (barrels w0) +
          500 * countb (hitsFireball (mario w0)) (fireballs w0)
     else 0) /\
  Z.of_nat d = lethalContacts w0.
Proof.
  unfold w4, d.
  destruct (checkCollisions w0 w3) as [[c k] ts] eqn:E. cbn [fst snd].
  exact (checkCollisions_spec _ _ _ _ _ Hp E).
Qed.







Lemma frame_mario :
  mario w5 =
  if framePickup w0
  then set_hammerTimer 300 (set_hasHammer true (marioAfter w0))
  else marioAfter w0.
Proof.
  unfold w5. cbn [mario setBonus].
  destruct frame_collisions as (Hk & _). kept Hk F_mario.
  unfold w3. kept (updateFireballs_keeps w0 rnd _ _) F_mario.
  unfold w2. kept (updateBarrels_keeps w0 rnd _ _) F_mario.
  unfold w1, updateMario, framePickup, marioAfter. rewrite Hp.
  cbn [GameState_eqb negb andb].
  destruct (hammerInReach _ _); reflexivity.
Qed.


(** A frame without a [loseLife] call. *)
Section Quiet.
Hypothesis Hq : lethalContacts w0 = 0.

Lemma quiet_d : d = O.
Proof. destruct frame_collisions as (_ & _ & _ & H). lia. Qed.




End Quiet.

(** Without the power-up and without a pickup, the flag stays off, lives
    lost or not. *)
Lemma gameLoop_hasHammer_off :
  hasHammer (mario w0) = false -> framePickup w0 = false ->
  hasHammer (mario (fst (gameLoop rnd w0))) = false.
Proof.
  intros Hh Hn. rewrite gameLoop_eq. apply iter_loseLife_hasHammer.
  rewrite frame_mario, Hn.
  destruct (marioAfter_hammer w0) as [-> _]. now rewrite Hh.
Qed.

End Frame.

Lemma holding_is_quiet w0 :
  hasHammer (mario w0) = true -> lethalContacts w0 = 0.
Proof.
  intros H. unfold lethalContacts. rewrite H.
  now rewrite andb_false_r.
Qed.

Lemma animationFrame_idle rnd w0 :
  gameState w0 <> playing -> animationFrame rnd w0 = (w0, []).
Proof.
  intros H. unfold animationFrame.
  destruct (GameState_eqb (gameState w0) playing) eqn:E; [|reflexivity].
  apply atari_GameState_eqb_eq in E. contradiction.
Qed.






End DonkeyKongAtariFacts.

(** * The claims *)

Module Claims.
Import JS.
Module F := DonkeyKong.
Module A := DonkeyKongAtari.
Module FF := DonkeyKongFacts.
Module AF := DonkeyKongAtariFacts.

(** A random source that never triggers anything probabilistic. *)
Definition calm : random := fun _ => 0.5%float.

(** ** Worlds, event sequences and predicates of the statements *)



(** The reduced variant just started. *)
Definition atari1 : A.World := A.startGame (A.initialWorld None).

Definition calms : nat -> random := fun _ => calm.
















(** Random numbers for the reduced variant under which the first frame
    spawns one fireball heading left and nothing else ever happens. *)
Definition oneFireball : nat -> random :=
  fun k i => if (Nat.eqb k 0 && Nat.eqb i 1)%bool
             then 0%float else 0.5%float.

(** A play-through of the reduced variant: 30 frames to the right, a jump
    of 7 frames that lands on the second platform and picks the hammer up,
    60 frames to the left (walking off the platform, back to the bottom one)
    and 144 frames of waiting, after which the fireball spawned in the first
    frame reaches the avatar. *)
Definition atariContact : A.World :=
  let a := A.frames 30 oneFireball (A.setKeys ["ArrowRight"%string] atari1) in
  let a := A.frames 7 calms (A.setKeys [" "%string] a) in
  let a := A.frames 60 calms (A.setKeys ["ArrowLeft"%string] a) in
  A.frames 144 calms (A.setKeys [] a).

(** ** C10: frames outside the Playing phase *)

(** C10.  A frame whose phase is not Playing leaves the world unchanged.  In
    the full variant [gameLoop] only advances the frame counter: the avatar,
    the barrel and fireball lists, rivets, elevators, score, bonus and lives
    are what they were.  In the reduced variant the loop is not scheduled at
    all outside [playing], so the world is untouched and no timeout is
    scheduled. *)
Theorem C10_idle_frame_changes_nothing
    (rnd : random) (w : F.World) (rndA : random) (a : A.World) :
  F.gameState w <> F.PLAYING ->
  A.gameState a <> A.playing ->
  let w' := F.gameLoop rnd w in
  w' = F.set_gameTime (F.gameTime w + 1) w /\
  F.mario w' = F.mario w /\ F.barrels w' = F.barrels w /\
  F.fireballs w' = F.fireballs w /\ F.rivets w' = F.rivets w /\
  F.elevators w' = F.elevators w /\ F.score w' = F.score w /\
  F.bonus w' = F.bonus w /\ F.lives w' = F.lives w /\
  F.gameState w' = F.gameState w /\
  A.animationFrame rndA a = (a, []).
Proof.
  intros HF HA. cbv zeta. rewrite (FF.gameLoop_idle rnd w HF).
  unfold F.ticked. repeat split. now apply AF.animationFrame_idle.
Qed.

Lemma C10_idle_frame_witness :
  F.gameLoop calm F.initialWorld =
    F.set_gameTime 1 F.initialWorld /\
  A.animationFrame calm (A.initialWorld None) = (A.initialWorld None, []).
Proof.
  pose proof (C10_idle_frame_changes_nothing calm F.initialWorld calm
                (A.initialWorld None)) as H.
  cbv zeta in H.
  destruct H as (H1 & _ & _ & _ & _ & _ & _ & _ & _ & _ & H2);
    [discriminate | discriminate |].
  split; [exact H1 | exact H2].
Defined.

(** ** C4: the bonus countdown *)





(** ** C5: platform collision of the avatar *)




(** ** C6: spawn policy and caps of the full variant *)










(** ** C7: the win condition of the Rivets level *)




(** ** C8: the goal rectangle of the other three levels *)




(** ** C3: duration of the power-up *)




(** ** C9: the hammer is consumed by its pickup *)






(** ** C2: three deaths end the game *)












(** ** C1: contact while the hammer is held *)




(** The reduced variant in the state [atariContact], reached by play: the
    hammer is held and the fireball overlaps the avatar.  The frame awards
    500, and the fireball is still active and still overlapping afterwards,
    so the next frame awards 500 again: the [f === fireball] test of the
    [setFireballs] updater compares the fireball of the render with the
    copies [updateFireballs] has just made, and never succeeds. *)
Lemma atari_contact_keeps_hazard :
  let a := atariContact in
  let a1 := fst (A.gameLoop calm a) in
  let a2 := fst (A.gameLoop calm a1) in
  A.gameState a = A.playing /\
  A.hasHammer (A.mario a) = true /\
  map (A.hitsFireball (A.mario a)) (A.fireballs a) = [true] /\
  A.score a = 0 /\
  A.score a1 = 500 /\
  map (fun f => (A.f_active f, A.hitsFireball (A.mario a1) f))
    (A.fireballs a1) = [(true, true)] /\
  A.score a2 = 1000 /\
  map A.f_active (A.fireballs a2) = [true].
Proof. vm_compute. repeat split; reflexivity. Qed.

End Claims.

(** * Further properties of the three components *)

(** ** Binary64 sums and products of numbers never are NaN unless an
    operand is NaN or infinite *)

Module FloatFacts.
Import JS.

Definition finiteb (v : float) : bool :=
  match Prim2SF v with
  | S754_zero _ | S754_finite _ _ _ => true
  | _ => false
  end.

Definition nanb (v : float) : bool :=
  match Prim2SF v with S754_nan => true | _ => false end.

Lemma shr_1_nonneg mrs : 0 <= shr_m mrs -> 0 <= shr_m (shr_1 mrs).
Proof.
  destruct mrs as [m r s]. cbn [shr_m]. intros H. unfold shr_1.
  destruct m as [|p|p]; [cbn; lia| |lia].
  destruct p; cbn; lia.
Qed.

Lemma iter_pos_shr_1_nonneg p :
  forall mrs, 0 <= shr_m mrs -> 0 <= shr_m (SpecFloat.iter_pos shr_1 p mrs).
Proof.
  induction p as [p IH|p IH|]; intros mrs H; cbn [iter_pos].
  - apply IH, IH, shr_1_nonneg, H.
  - apply IH, IH, H.
  - apply shr_1_nonneg, H.
Qed.

Lemma shr_fexp_nonneg prec emax m e l :
  0 <= m -> 0 <= shr_m (fst (shr_fexp prec emax m e l)).
Proof.
  intros H. unfold shr_fexp, shr.
  assert (H0 : 0 <= shr_m (shr_record_of_loc m l)).
  { destruct l as [|[]]; exact H. }
  destruct (_ - _) as [|p|p]; cbn [fst]; try exact H0.
  now apply iter_pos_shr_1_nonneg.
Qed.

Lemma round_nearest_even_nonneg m l :
  0 <= m -> 0 <= round_nearest_even m l.
Proof.
  intros H. destruct l as [|[]]; cbn; try lia.
  destruct (Z.even m); lia.
Qed.

Lemma binary_round_aux_not_nan prec emax s m e l :
  0 <= m -> binary_round_aux prec emax s m e l <> S754_nan.
Proof.
  intros H. unfold binary_round_aux.
  pose proof (shr_fexp_nonneg prec emax m e l H) as H1.
  destruct (shr_fexp prec emax m e l) as [mrs' e']. cbn [fst] in H1.
  pose proof (shr_fexp_nonneg prec emax
                (round_nearest_even (shr_m mrs') (loc_of_shr_record mrs'))
                e' loc_Exact
                (round_nearest_even_nonneg _ _ H1)) as H2.
  destruct (shr_fexp prec emax _ e' loc_Exact) as [mrs'' e''].
  cbn [fst] in H2.
  destruct (shr_m mrs'') as [|p|p]; [discriminate| |lia].
  destruct (_ <=? _); discriminate.
Qed.

Lemma binary_normalize_not_nan prec emax m e sz :
  binary_normalize prec emax m e sz <> S754_nan.
Proof.
  unfold binary_normalize, binary_round.
  destruct m as [|p|p]; [discriminate| |];
    destruct (shl_align _ _ _) as [mz ez];
    apply binary_round_aux_not_nan; lia.
Qed.

(** A finite number times a finite number is not NaN, and neither is a
    finite number plus a number that is not NaN. *)
Lemma mul_not_nan (a b : float) :
  finiteb a = true -> finiteb b = true -> nanb (a * b) = false.
Proof.
  unfold finiteb, nanb. rewrite mul_spec. unfold SF64mul, SFmul.
  destruct (Prim2SF a), (Prim2SF b); try discriminate; try reflexivity.
  intros _ _.
  match goal with
  | |- context [binary_round_aux ?p ?e ?s ?m ?x ?l] =>
      pose proof (binary_round_aux_not_nan p e s m x l ltac:(lia)) as H;
      destruct (binary_round_aux p e s m x l)
  end; congruence.
Qed.

Lemma add_not_nan (a b : float) :
  finiteb a = true -> nanb b = false -> nanb (a + b) = false.
Proof.
  unfold finiteb, nanb. rewrite add_spec. unfold SF64add, SFadd.
  destruct (Prim2SF a) as [sa|sa| |sa ma ea], (Prim2SF b) as [sb|sb| |sb mb eb];
    try discriminate; try reflexivity; intros _ _.
  - destruct sa, sb; reflexivity.
  - match goal with
    | |- context [binary_normalize ?p ?e ?m ?x ?z] =>
        pose proof (binary_normalize_not_nan p e m x z) as H;
        destruct (binary_normalize p e m x z)
    end; congruence.
Qed.

Lemma finiteb_not_nan (a : float) : finiteb a = true -> nanb a = false.
Proof. unfold finiteb, nanb. destruct (Prim2SF a); congruence. Qed.

(** *** The order of numbers, [Math.min] and [Math.max] *)

Lemma SFcompare_antisym (a b : spec_float) :
  SFcompare b a = option_map CompOpp (SFcompare a b).
Proof.
  destruct a as [[|]| [|] | | [|] m1 e1], b as [[|]| [|] | | [|] m2 e2];
    cbn; try reflexivity.
  - rewrite (Z.compare_antisym e1 e2).
    destruct (e1 ?= e2) eqn:E; cbn; try reflexivity.
    rewrite (Pos.compare_cont_antisym m1 m2 Eq). cbn.
    now destruct (Pos.compare_cont Eq m1 m2).
  - rewrite (Z.compare_antisym e1 e2).
    destruct (e1 ?= e2) eqn:E; cbn; try reflexivity.
    rewrite (Pos.compare_cont_antisym m1 m2 Eq). reflexivity.
Qed.

Lemma is_nan_SF (a : float) : is_nan a = false -> Prim2SF a <> S754_nan.
Proof.
  unfold is_nan. rewrite FloatAxioms.eqb_spec. intros H E. rewrite E in H. discriminate.
Qed.

Lemma SFcompare_some (a b : spec_float) :
  a <> S754_nan -> b <> S754_nan -> exists c, SFcompare a b = Some c.
Proof.
  intros Ha Hb.
  destruct a as [?|?| |? ? ?], b as [?|?| |? ? ?]; try congruence;
    cbn; eexists; reflexivity.
Qed.

Lemma ltb_leb (a b : float) : (a <? b)%float = true -> (a <=? b)%float = true.
Proof.
  rewrite FloatAxioms.ltb_spec, FloatAxioms.leb_spec. unfold SFltb, SFleb.
  destruct (SFcompare _ _) as [[| |]|]; congruence.
Qed.

(** Two numbers of which neither is below the other compare equal. *)
Lemma not_ltb_leb (a b : float) :
  is_nan a = false -> is_nan b = false ->
  (a <? b)%float = false -> (b <? a)%float = false ->
  (a <=? b)%float = true /\ (b <=? a)%float = true.
Proof.
  intros Ha Hb. apply is_nan_SF in Ha, Hb.
  rewrite !FloatAxioms.ltb_spec, !FloatAxioms.leb_spec. unfold SFltb, SFleb.
  rewrite (SFcompare_antisym (Prim2SF a) (Prim2SF b)).
  destruct (SFcompare_some _ _ Ha Hb) as (c & ->). cbn.
  destruct c; cbn; auto; discriminate.
Qed.

Lemma leb_refl (a : float) : is_nan a = false -> (a <=? a)%float = true.
Proof.
  intros Ha. apply is_nan_SF in Ha.
  rewrite FloatAxioms.leb_spec. unfold SFleb.
  pose proof (SFcompare_antisym (Prim2SF a) (Prim2SF a)) as K.
  destruct (SFcompare_some _ _ Ha Ha) as (c & E). rewrite E in K |- *.
  destruct c; cbn in K; congruence.
Qed.

(** [Math.min(a, v)] and [Math.max(a, v)] of two numbers that are not NaN. *)
Lemma Math_min_le (a v : float) :
  is_nan a = false -> is_nan v = false ->
  is_nan (Math_min a v) = false /\ (Math_min a v <=? a)%float = true.
Proof.
  intros Ha Hv. unfold Math_min. rewrite Ha, Hv. cbn [orb].
  destruct (a <? v)%float eqn:E1.
  - split; [exact Ha|now apply leb_refl].
  - destruct (v <? a)%float eqn:E2.
    + split; [exact Hv|now apply ltb_leb].
    + destruct (not_ltb_leb a v Ha Hv E1 E2) as [H1 H2].
      destruct (is_negzero a); split; auto using leb_refl.
Qed.

Lemma Math_max_ge (a v : float) :
  is_nan a = false -> is_nan v = false ->
  is_nan (Math_max a v) = false /\ (a <=? Math_max a v)%float = true /\
  (Math_max a v = a \/ Math_max a v = v).
Proof.
  intros Ha Hv. unfold Math_max. rewrite Ha, Hv. cbn [orb].
  destruct (a <? v)%float eqn:E1.
  - split; [exact Hv|]. split; [now apply ltb_leb|now right].
  - destruct (v <? a)%float eqn:E2.
    + split; [exact Ha|]. split; [now apply leb_refl|now left].
    + destruct (not_ltb_leb a v Ha Hv E1 E2) as [H1 H2].
      destruct (is_negzero a).
      * split; [exact Hv|]. split; [exact H1|now right].
      * split; [exact Ha|]. split; [now apply leb_refl|now left].
Qed.

Lemma is_nan_nanb (a : float) : is_nan a = nanb a.
Proof.
  unfold nanb. destruct (is_nan a) eqn:E.
  - unfold is_nan in E. rewrite FloatAxioms.eqb_spec in E. unfold SFeqb in E.
    destruct (Prim2SF a) as [s|s| |s m e] eqn:F; try reflexivity;
      exfalso.
    + cbn in E. discriminate.
    + cbn in E. destruct s; discriminate.
    + pose proof (SFcompare_antisym (S754_finite s m e) (S754_finite s m e))
        as K.
      destruct (SFcompare_some (S754_finite s m e) (S754_finite s m e))
        as (c & Ec); try discriminate.
      rewrite Ec in K, E. destruct c; cbn in K; try discriminate.
  - apply is_nan_SF in E. destruct (Prim2SF a); congruence.
Qed.

Lemma add_not_nan_r (a b : float) :
  nanb a = false -> finiteb b = true -> nanb (a + b) = false.
Proof.
  unfold finiteb, nanb. rewrite add_spec. unfold SF64add, SFadd.
  destruct (Prim2SF a) as [sa|sa| |sa ma ea], (Prim2SF b) as [sb|sb| |sb mb eb];
    try discriminate; try reflexivity; intros _ _.
  - destruct sa, sb; reflexivity.
  - match goal with
    | |- context [binary_normalize ?p ?e ?m ?x ?z] =>
        pose proof (binary_normalize_not_nan p e m x z) as H;
        destruct (binary_normalize p e m x z)
    end; congruence.
Qed.

End FloatFacts.

(** ** The full variant: input, high score, rivets, hazards and the first
    level *)

Module FullMore.
Import JS JSFacts DonkeyKong DonkeyKongFacts FloatFacts.

(** *** Definitions of the statements *)

Definition control (c : Control) (t : Touch) : bool :=
  match c with
  | c_left => left t | c_right => right t | c_up => up t
  | c_down => down t | c_jump => jump t
  end.

Definition Control_eqb (a b : Control) : bool :=
  match a, b with
  | c_left, c_left | c_right, c_right | c_up, c_up | c_down, c_down
  | c_jump, c_jump => true
  | _, _ => false
  end.

Definition pullRivet (m : Sprite) (rivet : Rivet) : Rivet :=
  if rivetTouched m rivet then mkRivet (rx rivet) (ry rivet) true else rivet.

(** The free fall of [updateMario]: the vertical speed and position after
    [k] frames without support, from the spawn point of [resetMario]. *)
Fixpoint fallV (k : nat) : float :=
  match k with O => 0 | S k' => fallV k' + 0.3 end.

Fixpoint fallY (k : nat) : float :=
  match k with O => 232 | S k' => fallY k' + fallV k end.

(** The avatar is [k] frames into that fall. *)
Definition falling (k : nat) (m : Sprite) : Prop :=
  y m = fallY k /\ vy m = fallV k /\ (k = O -> x m = 24%float).

(** At height [my] the feet are below the band of every platform. *)
Definition clearOfPlatforms (lvl : LevelType) (my : float) : bool :=
  forallb (fun p => negb (my + MARIO_HEIGHT <=? py p + ph p + 4)%float)
    (getCurrentPlatforms lvl).

Definition clearOfLanding (lvl : LevelType) (my : float) : bool :=
  forallb (fun p => negb (my + MARIO_HEIGHT <? py p + ph p + 8)%float)
    (getCurrentPlatforms lvl).

Definition clearOfLadders (lvl : LevelType) (my : float) : bool :=
  forallb (fun l => negb (my <=? py l + ph l)%float) (getCurrentLadders lvl).

Definition clearOfHammers (my : float) : bool :=
  forallb (fun pos => negb (Math_abs (my - snd pos) <? 16)%float)
    hammerPositions.

(** What the fall passes: checked frame by frame on the thirteen heights. *)
Definition fallChecks (k : nat) : bool :=
  clearOfPlatforms GIRDERS (fallY k) &&
  (if Nat.eqb k 0 then negb (canClimbLadder GIRDERS 24 (fallY k))
   else clearOfLadders GIRDERS (fallY k)) &&
  clearOfLanding GIRDERS (fallY (S k)) &&
  clearOfHammers (fallY (S k)) &&
  negb (fallY (S k) <=? 48)%float &&
  Bool.eqb (marioFell (mkSprite 0 (fallY (S k)) 0 0 0 0 0 0)) (Nat.eqb k 12).



(** The whole game: what no sequence of events gets out of. *)
Definition stuck (w : World) : Prop :=
  currentLevel w = GIRDERS /\ level w = 1 /\ score w = 0 /\
  marioHasHammer w = false /\
  gameState w <> LEVEL_COMPLETE /\ gameState w <> INTERLUDE /\
  exists k, (k <= 13)%nat /\ falling k (mario w) /\
            (gameState w = PLAYING -> (k <= 12)%nat).

(** The horizontal speed of the frame: what the input, the conveyor and
    the ladder make of it. *)
Definition frameSpeed (v : float) : Prop :=
  In v [ -1; 0; 1; -1 + 0.5; 0 + 0.5; 1 + 0.5;
         -1 + -0.5; 0 + -0.5; 1 + -0.5 ]%float.

(** A random source that never triggers anything probabilistic. *)
Definition steady : random := fun _ => 0.5%float.

(** The game after the start click and its two timeouts. *)
Definition started : World :=
  fst (run (initialWorld, []) [Click; TimerFires; TimerFires]).

(** Rivets level: the avatar on the lowest ladder, level with the first
    rivet. *)
Definition onRivet : World :=
  mkWorld PLAYING RIVET 0 3 2 7650 5000 false 0
    (mkTouch false false false false false)
    (mkSprite 8 168 16 16 0 0 0 0) (donkeyKong initialWorld)
    [] [] initialRivets [] [] 0 0 None.

(** Girders level: the avatar standing on the bottom girder, a barrel just
    thrown and a barrel leaving the screen on the right. *)
Definition twoBarrels : World :=
  set_barrels
    [ newBarrel; mkBarrel (mkSprite 300 72 16 14 1 0 0 0) false true ]
    (set_mario (mkSprite 24 216 MARIO_WIDTH MARIO_HEIGHT 0 0 0 0) started).


(** *** The fall from the spawn point *)

Lemma standsOn_clear ps mx my :
  forallb (fun p => negb (my + MARIO_HEIGHT <=? py p + ph p + 4)%float) ps
    = true ->
  existsb (standsOn mx my) ps = false.
Proof.
  induction ps as [|p ps IH]; [reflexivity|].
  cbn [forallb existsb]. intros H. apply andb_true_iff in H.
  destruct H as [Hp Hps]. rewrite (IH Hps). unfold standsOn.
  apply negb_true_iff in Hp. rewrite Hp. now rewrite andb_false_r.
Qed.

Lemma inLadder_clear ls mx my :
  forallb (fun l => negb (my <=? py l + ph l)%float) ls = true ->
  existsb (inLadder mx my) ls = false.
Proof.
  induction ls as [|l ls IH]; [reflexivity|].
  cbn [forallb existsb]. intros H. apply andb_true_iff in H.
  destruct H as [Hl Hls]. rewrite (IH Hls). unfold inLadder.
  apply negb_true_iff in Hl. rewrite Hl. now rewrite andb_false_r.
Qed.

Lemma platformScan_clear ps m :
  forallb (fun p => negb (y m + MARIO_HEIGHT <? py p + ph p + 8)%float) ps
    = true ->
  platformScan ps m = m.
Proof.
  induction ps as [|p ps IH]; [reflexivity|].
  cbn [forallb platformScan]. intros H. apply andb_true_iff in H.
  destruct H as [Hp Hps]. unfold landsOn.
  apply negb_true_iff in Hp. rewrite Hp, andb_false_r. exact (IH Hps).
Qed.

Lemma nearHammer_clear m :
  clearOfHammers (y m) = true -> existsb (nearHammer m) hammerPositions = false.
Proof.
  unfold clearOfHammers. induction hammerPositions as [|p ps IH];
    [reflexivity|].
  cbn [forallb existsb]. intros H. apply andb_true_iff in H.
  destruct H as [Hp Hps]. rewrite (IH Hps). unfold nearHammer.
  apply negb_true_iff in Hp. rewrite Hp. now rewrite andb_false_r.
Qed.

Lemma marioInput_pos w0 w m :
  x (fst (marioInput w0 w m)) = x m /\ y (fst (marioInput w0 w m)) = y m /\
  vy (fst (marioInput w0 w m)) = vy m.
Proof.
  unfold marioInput.
  destruct (pressedLeft w0 w); [repeat split|].
  destruct (pressedRight w0 w); repeat split.
Qed.

(** One frame of [updateMario] on the Girders level with nothing to stand
    on, nothing to climb and nothing to land on: gravity alone acts,
    whatever the input. *)
Lemma physics_falls w0 w :
  currentLevel w0 = GIRDERS ->
  clearOfPlatforms GIRDERS (y (mario w)) = true ->
  canClimbLadder GIRDERS (x (mario w)) (y (mario w)) = false ->
  clearOfLanding GIRDERS (y (mario w) + (vy (mario w) + 0.3))%float = true ->
  y (fst (marioPhysics w0 w)) = (y (mario w) + (vy (mario w) + 0.3))%float /\
  vy (fst (marioPhysics w0 w)) = (vy (mario w) + 0.3)%float.
Proof.
  intros Hl Hp Hc Hd. unfold marioPhysics.
  destruct (marioInput_pos w0 w (mario w)) as (Ex & Ey & Ev).
  destruct (marioInput w0 w (mario w)) as [m1 moving]. cbn [fst] in Ex, Ey, Ev.
  cbn [fst].
  assert (E2 : marioConveyor w0 w m1 = m1).
  { unfold marioConveyor. now rewrite Hl. }
  rewrite E2.
  assert (E3 : marioJump w0 w m1 = m1).
  { unfold marioJump, isOnPlatform. rewrite Hl, Ex, Ey.
    rewrite (standsOn_clear _ _ _ Hp). cbn [LevelType_eqb andb orb].
    now rewrite andb_false_r. }
  rewrite E3.
  assert (E4 : marioLadder w0 w m1 = m1).
  { unfold marioLadder. rewrite Hl, Ex, Ey, Hc.
    destruct (pressedUp w0 w); [reflexivity|].
    destruct (pressedDown w0 w); reflexivity. }
  rewrite E4.
  assert (E5 : marioGravity w0 m1 = set_vy (vy m1 + 0.3)%float m1).
  { unfold marioGravity. now rewrite Hl, Ex, Ey, Hc. }
  rewrite E5.
  set (m2 := marioIntegrate (set_vy (vy m1 + 0.3)%float m1)).
  assert (Ey2 : y m2 = (y (mario w) + (vy (mario w) + 0.3))%float).
  { subst m2. unfold marioIntegrate. cbn. now rewrite Ey, Ev. }
  assert (Ev2 : vy m2 = (vy (mario w) + 0.3)%float).
  { subst m2. unfold marioIntegrate. cbn. now rewrite Ev. }
  assert (E6 : marioCollision w0 w m2 = m2).
  { unfold marioCollision. rewrite Hl. cbn [LevelType_eqb].
    destruct (gtb (vy m2) 0); [|reflexivity].
    apply platformScan_clear. rewrite Ey2. exact Hd. }
  rewrite E6. unfold marioClamp. cbn [y vy set_x]. split; assumption.
Qed.

Lemma fall_checked : forallb fallChecks (seq 0 13) = true.
Proof. vm_compute. reflexivity. Qed.

Lemma fallChecks_below k : (k <= 12)%nat -> fallChecks k = true.
Proof.
  intros H. pose proof fall_checked as F. rewrite forallb_forall in F.
  apply F. apply in_seq. lia.
Qed.

Lemma fall_physics w0 w k :
  (k <= 12)%nat -> currentLevel w0 = GIRDERS -> falling k (mario w) ->
  let m := fst (marioPhysics w0 w) in
  y m = fallY (S k) /\ vy m = fallV (S k) /\
  atGoal m = false /\ marioFell m = Nat.eqb k 12 /\
  existsb (nearHammer m) hammerPositions = false.
Proof.
  intros Hk Hl (Ey & Ev & Ex). cbv zeta.
  pose proof (fallChecks_below k Hk) as C. unfold fallChecks in C.
  apply andb_true_iff in C. destruct C as [C C6].
  apply andb_true_iff in C. destruct C as [C C5].
  apply andb_true_iff in C. destruct C as [C C4].
  apply andb_true_iff in C. destruct C as [C C3].
  apply andb_true_iff in C. destruct C as [C1 C2].
  assert (Hc : canClimbLadder GIRDERS (x (mario w)) (y (mario w)) = false).
  { rewrite Ey. destruct k as [|k].
    - rewrite (Ex eq_refl). cbn [Nat.eqb] in C2.
      now apply negb_true_iff in C2.
    - cbn [Nat.eqb] in C2. unfold canClimbLadder.
      apply inLadder_clear. exact C2. }
  destruct (physics_falls w0 w Hl) as [Ey' Ev'].
  - rewrite Ey. exact C1.
  - exact Hc.
  - rewrite Ey, Ev.
    change (fallY k + (fallV k + 0.3))%float with (fallY (S k)). exact C3.
  - rewrite Ey, Ev in Ey'. rewrite Ev in Ev'.
    change (fallY k + (fallV k + 0.3))%float with (fallY (S k)) in Ey'.
    change (fallV k + 0.3)%float with (fallV (S k)) in Ev'.
    split; [exact Ey'|]. split; [exact Ev'|].
    split.
    { unfold atGoal. rewrite Ey'. apply negb_true_iff in C5. now rewrite C5. }
    split.
    { unfold marioFell in *. cbn [y] in C6. rewrite Ey'.
      now apply Bool.eqb_prop in C6. }
    apply nearHammer_clear. rewrite Ey'. exact C4.
Qed.

Lemma marioAnimate_vy moving m : vy (marioAnimate moving m) = vy m.
Proof.
  unfold marioAnimate. destruct moving; simpl; [|auto].
  destruct (_ >? _); simpl; auto.
Qed.

(** A Playing frame of the fall. *)
Lemma fall_frame rnd (w : World) k :
  (k <= 12)%nat -> gameState w = PLAYING -> currentLevel w = GIRDERS ->
  falling k (mario w) ->
  let w' := gameLoop rnd w in
  falling (S k) (mario w') /\
  gameState w' = (if hazardDeath rnd w || Nat.eqb k 12
                  then MARIO_DEATH else PLAYING) /\
  (marioHasHammer w = false ->
   score w' = score w /\ marioHasHammer w' = false).
Proof.
  intros Hk Hp Hl Hf. cbv zeta.
  destruct (fall_physics w (ticked w) k Hk Hl Hf) as (Ey & Ev & Eg & Ef & En).
  split.
  { rewrite (gameLoop_mario rnd w Hp). unfold marioAfter.
    destruct (marioPhysics w (ticked w)) as [m moving]. cbn [fst] in *.
    destruct (marioAnimate_xy moving m) as [_ Ey2].
    split; [now rewrite Ey2|]. split; [now rewrite marioAnimate_vy|].
    discriminate. }
  split.
  { rewrite (gameLoop_gameState rnd w Hp).
    unfold marioPhase, marioWins. rewrite Hl, Eg, Ef.
    destruct (hazardDeath rnd w), (Nat.eqb k 12); reflexivity. }
  intros Hh. split.
  { rewrite (gameLoop_score rnd w Hp). unfold marioWins.
    rewrite Hl, Eg, Hh. cbn [LevelType_eqb]. lia. }
  destruct (gameLoop_hammer rnd w Hp) as [E _]. rewrite E, Hh.
  unfold framePickup, hammerPickup, marioAfter.
  destruct (marioPhysics w (ticked w)) as [m moving]. cbn [fst] in *.
  destruct (marioAnimate_xy moving m) as [_ Ey2].
  rewrite nearHammer_clear; [now rewrite !andb_false_r|].
  rewrite Ey2, Ey.
  pose proof (fallChecks_below k Hk) as C. unfold fallChecks in C.
  apply andb_true_iff in C. destruct C as [C _].
  apply andb_true_iff in C. destruct C as [C _].
  apply andb_true_iff in C. destruct C as [_ C]. exact C.
Qed.

Lemma gameLoop_levels rnd (w : World) :
  currentLevel (gameLoop rnd w) = currentLevel w /\
  level (gameLoop rnd w) = level w.
Proof.
  destruct (gameState w) eqn:Eg;
    try (rewrite gameLoop_idle by congruence; split; reflexivity).
  rewrite (gameLoop_playing rnd w Eg). split.
  - exact (playingFrame_keeps rnd w F_currentLevel eq_refl).
  - exact (playingFrame_keeps rnd w F_level eq_refl).
Qed.






Lemma falling_spawn : falling 0 (mkSprite 24 232 MARIO_WIDTH MARIO_HEIGHT 0 0 0 0).
Proof. repeat split. Qed.

Lemma stuck_intro (w : World) (k : nat) :
  currentLevel w = GIRDERS -> level w = 1 -> score w = 0 ->
  marioHasHammer w = false ->
  gameState w <> LEVEL_COMPLETE -> gameState w <> INTERLUDE ->
  (k <= 13)%nat -> falling k (mario w) ->
  (gameState w = PLAYING -> (k <= 12)%nat) ->
  stuck w.
Proof.
  intros. repeat (split; [assumption|]). exists k. auto.
Qed.

Ltac stuck_with k :=
  apply (stuck_intro _ k); cbn;
  try assumption; try reflexivity; try discriminate; try apply falling_spawn;
  try (intros; discriminate); try (intros; lia).

Lemma stuck_frame rnd (w : World) : stuck w -> stuck (gameLoop rnd w).
Proof.
  intros (Hl & Hn & Hs & Hh & H1 & H2 & k & Hk & Hf & Hp).
  destruct (GameState_eqb (gameState w) PLAYING) eqn:Eg.
  - apply GameState_eqb_eq in Eg. specialize (Hp Eg).
    destruct (fall_frame rnd w k Hp Eg Hl Hf) as (Hf' & Hg' & Hsh).
    destruct (Hsh Hh) as [Hs' Hh'].
    destruct (gameLoop_levels rnd w) as [El En].
    apply (stuck_intro _ (S k)); try congruence; try lia; try exact Hf'.
    + rewrite Hg'. destruct (_ || _); discriminate.
    + rewrite Hg'. destruct (_ || _); discriminate.
    + rewrite Hg'. destruct (Nat.eqb k 12) eqn:E12.
      * rewrite orb_true_r. discriminate.
      * apply Nat.eqb_neq in E12. lia.
  - assert (Eg' : gameState w <> PLAYING).
    { intros E. rewrite E in Eg. discriminate. }
    rewrite (gameLoop_idle rnd w Eg').
    now apply (stuck_intro _ k).
Qed.

Lemma stuck_step (c : Config) (e : Event) :
  stuck (fst c) -> stuck (fst (step c e)).
Proof.
  destruct c as [w pending]. cbn [fst]. intros Hst.
  destruct e; cbn [step fst]; try exact Hst.
  - now apply stuck_frame.
  - destruct Hst as (Hl & Hn & Hs & Hh & H1 & H2 & k & Hk & Hf & Hp).
    unfold handleCanvasClick.
    destruct (gameState w) eqn:Eg; cbn [fst]; try (exfalso; congruence).
    + stuck_with O.
    + stuck_with k.
    + apply (stuck_intro _ k); try assumption; try congruence;
      intros _; apply Hp; congruence.
    + apply (stuck_intro _ k); try assumption; try congruence;
      intros _; apply Hp; congruence.
    + destruct (lives w >? 1); cbn [fst]; [stuck_with O|stuck_with k].
    + unfold resetGame. cbv zeta.
      destruct (score w >? highScore w); stuck_with O.
    + apply (stuck_intro _ k); try assumption; try congruence;
      intros _; apply Hp; congruence.
  - destruct pending as [|t pending]; [exact Hst|].
    destruct Hst as (Hl & Hn & Hs & Hh & H1 & H2 & k & Hk & Hf & Hp).
    destruct t; cbn [fire fst].
    + stuck_with k.
    + unfold initializeLevel. cbv zeta.
      destruct (LevelType_eqb cl RIVET), (LevelType_eqb cl ELEVATOR);
        stuck_with O.
Qed.

Lemma stuck_run (es : list Event) :
  forall c, stuck (fst c) -> stuck (fst (run c es)).
Proof.
  unfold run. induction es as [|e es IH]; intros c H; [exact H|].
  cbn [fold_left]. apply IH. now apply stuck_step.
Qed.

(** X2.  The first level is never completed.  From the component as
    mounted, after any sequence of frames, key and touch events, clicks and
    timeouts, the level type is still Girders, the level number 1, the score
    0 and the hammer flag unset, and the phase is neither LevelComplete nor
    Interlude.  Each event acts on the world the previous one produced. *)
Theorem girders_is_never_completed (es : list Event) :
  let w := fst (run (initialWorld, []) es) in
  currentLevel w = GIRDERS /\ level w = 1 /\ score w = 0 /\
  marioHasHammer w = false /\
  gameState w <> LEVEL_COMPLETE /\ gameState w <> INTERLUDE.
Proof.
  cbv zeta.
  destruct (stuck_run es (initialWorld, [])) as (Hl & Hn & Hs & Hh & H1 & H2 & _).
  - repeat split; try discriminate.
    exists O. split; [lia|]. split; [apply falling_spawn|discriminate].
  - repeat split; assumption.
Qed.

(** *** The set of pressed keys *)

Lemma has_add (ks : list string) (k k' : string) :
  has (add ks k) k' = has ks k' || String.eqb k' k.
Proof.
  unfold add. destruct (has ks k) eqn:E.
  - destruct (String.eqb k' k) eqn:E'; [|now rewrite orb_false_r].
    apply String.eqb_eq in E'. subst k'. now rewrite E.
  - unfold has. rewrite existsb_app. cbn [existsb]. now rewrite orb_false_r.
Qed.

Lemma has_delete (ks : list string) (k k' : string) :
  has (delete ks k) k' = has ks k' && negb (String.eqb k' k).
Proof.
  unfold has, delete. induction ks as [|s ks IH]; [reflexivity|].
  cbn [filter existsb].
  destruct (String.eqb k s) eqn:E; cbn [negb].
  - apply String.eqb_eq in E. subst s. rewrite IH.
    destruct (String.eqb k' k); cbn [negb orb]; [now rewrite !andb_false_r|].
    reflexivity.
  - cbn [existsb]. rewrite IH.
    destruct (String.eqb k' s) eqn:E'; [|reflexivity].
    apply String.eqb_eq in E'. subst s.
    rewrite String.eqb_sym in E. rewrite E. cbn [negb orb].
    now rewrite andb_true_r.
Qed.

(** X7.  The input handlers.  After [handleKeyDown] the key set holds the
    code next to what it held; after [handleKeyUp] it holds what it held
    except the code; a key pressed and released is not held.
    [handleTouchStart] sets and [handleTouchEnd] clears the flag of its
    control and no other.  None of the four changes anything else of the
    game. *)
Theorem input_follows_the_player
    (code k : string) (b b' : Control) (c : Config) :
  let down := fst (step c (KeyDown code)) in
  let up := fst (step c (KeyUp code)) in
  let touched := fst (step c (TouchStart b)) in
  let released := fst (step c (TouchEnd b)) in
  has (keys down) k = has (keys (fst c)) k || String.eqb k code /\
  has (keys up) k = has (keys (fst c)) k && negb (String.eqb k code) /\
  has (keys (fst (step (step c (KeyDown code)) (KeyUp code)))) code = false /\
  set_keys (keys (fst c)) down = fst c /\
  set_keys (keys (fst c)) up = fst c /\
  control b' (touchControls touched) =
    (if Control_eqb b' b then true
     else control b' (touchControls (fst c))) /\
  control b' (touchControls released) =
    (if Control_eqb b' b then false
     else control b' (touchControls (fst c))) /\
  setTouchControls (touchControls (fst c)) touched = fst c /\
  setTouchControls (touchControls (fst c)) released = fst c.
Proof.
  destruct c as [w pending].
  cbn [step fst handleKeyDown handleKeyUp].
  split; [apply has_add|]. split; [apply has_delete|].
  split.
  { unfold handleKeyUp, handleKeyDown. cbn [keys set_keys].
    rewrite has_delete, String.eqb_refl. apply andb_false_r. }
  split; [destruct w; reflexivity|]. split; [destruct w; reflexivity|].
  unfold handleTouchStart, handleTouchEnd.
  split; [destruct b, b'; reflexivity|].
  split; [destruct b, b'; reflexivity|].
  destruct w; split; reflexivity.
Qed.

(** *** Collision *)

(** X8.  The overlap test of both variants is symmetric in its two
    rectangles. *)
Theorem checkCollision_sym (r1 r2 : Sprite) (x1 y1 w1 h1 x2 y2 w2 h2 : float) :
  checkCollision r1 r2 = checkCollision r2 r1 /\
  DonkeyKongAtari.checkCollision x1 y1 w1 h1 x2 y2 w2 h2 =
  DonkeyKongAtari.checkCollision x2 y2 w2 h2 x1 y1 w1 h1.
Proof.
  unfold checkCollision, DonkeyKongAtari.checkCollision, gtb. split.
  - destruct (x r1 <? x r2 + width r2)%float,
             (x r2 <? x r1 + width r1)%float,
             (y r1 <? y r2 + height r2)%float,
             (y r2 <? y r1 + height r1)%float; reflexivity.
  - destruct (x1 <? x2 + w2)%float, (x2 <? x1 + w1)%float,
             (y1 <? y2 + h2)%float, (y2 <? y1 + h1)%float; reflexivity.
Qed.

(** *** The high score *)

Lemma gameLoop_highScore rnd (w : World) :
  highScore (gameLoop rnd w) = highScore w /\
  storedHighScore (gameLoop rnd w) = storedHighScore w.
Proof.
  destruct (gameState w) eqn:Eg;
    try (rewrite gameLoop_idle by congruence; split; reflexivity).
  rewrite (gameLoop_playing rnd w Eg).
  split.
  - exact (playingFrame_keeps rnd w F_highScore eq_refl).
  - exact (playingFrame_keeps rnd w F_storedHighScore eq_refl).
Qed.

Lemma initializeLevel_highScore cl (w : World) :
  highScore (initializeLevel cl w) = highScore w /\
  storedHighScore (initializeLevel cl w) = storedHighScore w.
Proof.
  unfold initializeLevel. cbv zeta.
  destruct (LevelType_eqb cl RIVET), (LevelType_eqb cl ELEVATOR);
    split; reflexivity.
Qed.

Lemma resetGame_highScore (w : World) :
  highScore (resetGame w) = Z.max (score w) (highScore w) /\
  storedHighScore (resetGame w) =
    (if score w >? highScore w then Some (score w) else storedHighScore w).
Proof.
  unfold resetGame. cbv zeta.
  destruct (score w >? highScore w) eqn:E; cbn; split; try reflexivity.
  - apply Z.gtb_lt in E. lia.
  - rewrite Z.gtb_ltb in E. apply Z.ltb_ge in E. lia.
Qed.

Lemma step_highScore (c : Config) (e : Event) :
  highScore (fst (step c e)) =
    (match e, gameState (fst c) with
     | Click, GAME_OVER => Z.max (score (fst c)) (highScore (fst c))
     | _, _ => highScore (fst c)
     end).
Proof.
  destruct c as [w pending]. destruct e; cbn [step fst].
  - destruct (gameLoop_highScore rnd w) as [-> _].
    destruct (gameState w); reflexivity.
  - unfold handleCanvasClick.
    destruct (gameState w) eqn:Eg; cbn [fst]; try reflexivity.
    + destruct (lives w >? 1); reflexivity.
    + apply resetGame_highScore.
  - destruct (gameState w); reflexivity.
  - destruct (gameState w); reflexivity.
  - destruct (gameState w); reflexivity.
  - destruct (gameState w); reflexivity.
  - destruct pending as [|t pending];
      [destruct (gameState w); reflexivity|].
    destruct t; cbn [fire fst].
    + destruct (gameState w); reflexivity.
    + destruct (initializeLevel_highScore cl (setGameState PLAYING w))
        as [-> _].
      destruct (gameState w); reflexivity.
Qed.

Lemma run_highScore_le (es : list Event) :
  forall c, highScore (fst c) <= highScore (fst (run c es)).
Proof.
  unfold run. induction es as [|e es IH]; intros c; [cbn; lia|].
  cbn [fold_left]. etransitivity; [|apply IH].
  rewrite step_highScore. destruct e; try lia.
  destruct (gameState (fst c)); lia.
Qed.

(** X6.  The high score of the full variant.  Over any sequence of events it
    never decreases.  A single event changes it only if it is a click in the
    GameOver phase, which makes it the maximum of the score and the old high
    score; that click writes the score to the local storage exactly when the
    score is greater than the old high score. *)
Theorem high_score_is_kept (c : Config) (e : Event) (es : list Event) :
  highScore (fst c) <= highScore (fst (run c es)) /\
  highScore (fst (step c e)) =
    (match e, gameState (fst c) with
     | Click, GAME_OVER => Z.max (score (fst c)) (highScore (fst c))
     | _, _ => highScore (fst c)
     end) /\
  storedHighScore (fst (step c Click)) =
    (match gameState (fst c) with
     | GAME_OVER =>
         if score (fst c) >? highScore (fst c)
         then Some (score (fst c)) else storedHighScore (fst c)
     | _ => storedHighScore (fst c)
     end).
Proof.
  split; [apply run_highScore_le|]. split; [apply step_highScore|].
  destruct c as [w pending]. cbn [step fst]. unfold handleCanvasClick.
  destruct (gameState w); cbn [fst]; try reflexivity.
  - destruct (lives w >? 1); reflexivity.
  - apply resetGame_highScore.
Qed.

(** *** Rivets *)

Lemma rivetsScan_map m rs :
  forall w, fst (rivetsScan m rs w) = map (pullRivet m) rs.
Proof.
  induction rs as [|rivet rs IH]; intros w; [reflexivity|].
  cbn [rivetsScan map]. unfold pullRivet at 1.
  destruct (rivetTouched m rivet).
  - specialize (IH (setScore (score w + 100) w)).
    destruct (rivetsScan m rs _) as [rest w2]. cbn [fst] in *. now rewrite IH.
  - specialize (IH w).
    destruct (rivetsScan m rs _) as [rest w2]. cbn [fst] in *. now rewrite IH.
Qed.

Lemma updateRivets_rivets w0 w :
  rivets (updateRivets w0 w) =
  if LevelType_eqb (currentLevel w0) RIVET
  then map (pullRivet (mario w)) (rivets w) else rivets w.
Proof.
  unfold updateRivets. destruct (LevelType_eqb _ _); cbn [negb]; [|reflexivity].
  pose proof (rivetsScan_map (mario w) (rivets w) w) as H.
  destruct (rivetsScan (mario w) (rivets w) w) as [rs w1].
  cbn [fst] in H. cbn [rivets set_rivets]. exact H.
Qed.

Lemma gameLoop_rivets rnd (w0 : World) :
  gameState w0 = PLAYING ->
  rivets (gameLoop rnd w0) =
  if LevelType_eqb (currentLevel w0) RIVET
  then map (pullRivet (marioAfter w0)) (rivets w0) else rivets w0.
Proof.
  intros H. rewrite (gameLoop_playing rnd w0 H).
  kept (updateBonus_keeps _) F_rivets.
  kept (updateDonkeyKong_keeps _) F_rivets.
  rewrite updateRivets_rivets.
  kept (updateElevators_keeps w0 _) F_rivets.
  kept (updateElevators_keeps w0 _) F_mario.
  set (wM := updateMario w0 (ticked w0)).
  set (wB := fst (updateBarrels w0 rnd wM 0)).
  set (iB := snd (updateBarrels w0 rnd wM 0)).
  destruct (updateFireballs_spec w0 rnd wB iB) as (HkF & _).
  destruct (updateBarrels_spec w0 rnd wM 0) as (HkB & _).
  cbv zeta in HkF, HkB. fold wB in HkB.
  kept HkF F_rivets. kept HkF F_mario.
  kept HkB F_rivets. kept HkB F_mario.
  unfold wM. rewrite (wM_mario w0).
  kept (updateMario_keeps w0 _) F_rivets.
  reflexivity.
Qed.

Lemma pullRivet_spec m rivet :
  rx (pullRivet m rivet) = rx rivet /\ ry (pullRivet m rivet) = ry rivet /\
  removed (pullRivet m rivet) = removed rivet || rivetTouched m rivet.
Proof.
  unfold pullRivet. destruct (rivetTouched m rivet) eqn:E; cbn.
  - now rewrite orb_true_r.
  - now rewrite orb_false_r.
Qed.

(** X4.  Rivets in a Playing frame.  The rivet list keeps its length and
    every rivet its position; a removed rivet stays removed.  Outside the
    Rivets level the list is unchanged; on the Rivets level a rivet is
    removed after the frame exactly if it was before or the avatar, as
    [updateMario] left it, is less than 8 away from it on both axes. *)
Theorem rivets_stay_removed rnd (w : World) :
  gameState w = PLAYING ->
  let w' := gameLoop rnd w in
  List.length (rivets w') = List.length (rivets w) /\
  (forall i d,
     rx (nth i (rivets w') d) = rx (nth i (rivets w) d) /\
     ry (nth i (rivets w') d) = ry (nth i (rivets w) d) /\
     (removed (nth i (rivets w) d) = true ->
      removed (nth i (rivets w') d) = true)) /\
  (currentLevel w <> RIVET -> rivets w' = rivets w) /\
  (currentLevel w = RIVET ->
   map removed (rivets w') =
   map (fun r => removed r || rivetTouched (marioAfter w) r) (rivets w)).
Proof.
  intros H. cbv zeta. rewrite (gameLoop_rivets rnd w H).
  destruct (LevelType_eqb (currentLevel w) RIVET) eqn:E.
  - apply LevelType_eqb_eq in E.
    split; [apply length_map|]. split.
    + intros i d.
      destruct (Nat.lt_ge_cases i (List.length (rivets w))) as [Hi|Hi].
      * rewrite (nth_indep _ d (pullRivet (marioAfter w) d))
          by (rewrite length_map; exact Hi).
        rewrite map_nth.
        destruct (pullRivet_spec (marioAfter w) (nth i (rivets w) d))
          as (-> & -> & ->).
        split; [reflexivity|]. split; [reflexivity|].
        intros ->. reflexivity.
      * rewrite !nth_overflow by (rewrite ?length_map; exact Hi).
        auto.
    + split; [congruence|]. intros _. rewrite map_map.
      apply map_ext. intros r. apply pullRivet_spec.
  - split; [reflexivity|]. split; [auto|]. split; [reflexivity|].
    intros E'. rewrite E' in E. discriminate.
Qed.

Lemma rivets_stay_removed_witness :
  map removed (rivets (gameLoop steady onRivet)) =
  [true; false; false; false; false; false].
Proof.
  pose proof (rivets_stay_removed steady onRivet eq_refl) as H.
  cbv zeta in H. destruct H as (_ & _ & _ & H).
  rewrite H by reflexivity. vm_compute. reflexivity.
Defined.

(** *** Hazards in the lists *)

(** X5.  Hazards that leave the screen are dropped.  After a Playing frame
    no barrel of the list is below the canvas, left of -20 or right of the
    canvas width plus 20, and no fireball is below the canvas.  Without the
    hammer the barrel list is the list the frame moved (with the barrel it
    spawned, if any) without the barrels that left the screen: nothing else
    is dropped. *)
Theorem hazards_stay_on_screen rnd (w : World) :
  gameState w = PLAYING ->
  (forall b, In b (barrels (gameLoop rnd w)) -> barrelOffScreen b = false) /\
  (forall f, In f (fireballs (gameLoop rnd w)) ->
             fireballOffScreen f = false) /\
  (marioHasHammer w = false ->
   barrels (gameLoop rnd w) =
   filter (fun b => negb (barrelOffScreen b)) (frameBarrels rnd w)).
Proof.
  intros H. rewrite (gameLoop_barrels rnd w H), (gameLoop_fireballs rnd w H).
  split; [|split].
  - intros b Hb. apply filter_In in Hb. destruct Hb as [_ Hb].
    unfold barrelKept in Hb. apply andb_true_iff in Hb.
    destruct Hb as [Hb _]. now apply negb_true_iff.
  - intros f Hf. apply filter_In in Hf. destruct Hf as [_ Hf].
    now apply negb_true_iff.
  - intros Hh. apply filter_ext. intros b. unfold barrelKept.
    rewrite Hh. cbn [andb negb]. apply andb_true_r.
Qed.

Lemma hazards_stay_on_screen_witness :
  List.length (frameBarrels steady twoBarrels) = 2%nat /\
  List.length (barrels (gameLoop steady twoBarrels)) = 1%nat.
Proof.
  pose proof (hazards_stay_on_screen steady twoBarrels) as H.
  destruct H as (_ & _ & H).
  - vm_compute. reflexivity.
  - rewrite H by (vm_compute; reflexivity).
    vm_compute. split; reflexivity.
Defined.

(** *** Level initialisation runs one level late *)




(** *** The screen boundaries *)

Lemma marioClamp_x (m : Sprite) :
  is_nan (x m) = false ->
  is_nan (x (marioClamp m)) = false /\
  (0 <=? x (marioClamp m))%float = true /\
  (x (marioClamp m) <=? CANVAS_WIDTH - MARIO_WIDTH)%float = true.
Proof.
  intros H. unfold marioClamp.
  assert (E : x (set_x (Math_max 0 (Math_min (CANVAS_WIDTH - MARIO_WIDTH) (x m))) m)
              = Math_max 0 (Math_min (CANVAS_WIDTH - MARIO_WIDTH) (x m)))
    by reflexivity.
  rewrite E.
  destruct (Math_min_le (CANVAS_WIDTH - MARIO_WIDTH) (x m) eq_refl H)
    as [N1 L1].
  destruct (Math_max_ge 0 _ eq_refl N1) as (N2 & L2 & [Em | Em]).
  - rewrite Em. split; [reflexivity|]. split; reflexivity.
  - rewrite Em in N2, L2 |- *. split; [exact N2|]. split; [exact L2|exact L1].
Qed.

Lemma marioInput_x w0 w m :
  x (fst (marioInput w0 w m)) = x m /\
  In (vx (fst (marioInput w0 w m))) [ -1; 0; 1 ]%float.
Proof.
  unfold marioInput.
  destruct (pressedLeft w0 w); [cbn; auto|].
  destruct (pressedRight w0 w); cbn; auto.
Qed.

Lemma conveyorScan_x i ps m :
  x (conveyorScan i ps m) = x m /\
  (vx (conveyorScan i ps m) = vx m \/
   vx (conveyorScan i ps m) = (vx m + 0.5)%float \/
   vx (conveyorScan i ps m) = (vx m + -0.5)%float).
Proof.
  revert i. induction ps as [|p ps IH]; intros i; cbn [conveyorScan];
    [auto|].
  destruct (standsOn (x m) (y m) p); [|apply IH].
  destruct (Nat.even i); cbn; auto.
Qed.

Lemma marioConveyor_x w0 w m :
  In (vx m) [ -1; 0; 1 ]%float ->
  x (marioConveyor w0 w m) = x m /\ frameSpeed (vx (marioConveyor w0 w m)).
Proof.
  intros H. unfold marioConveyor, frameSpeed.
  destruct (_ && _).
  - destruct (conveyorScan_x 1
                (firstn (List.length (getCurrentPlatforms (currentLevel w0)) - 2)
                   (skipn 1 (getCurrentPlatforms (currentLevel w0)))) m)
      as (Ex & [Ev | [Ev | Ev]]); rewrite Ex, Ev; split; try reflexivity;
      cbn [In] in H |- *; destruct H as [<- | [<- | [<- | []]]]; tauto.
  - split; [reflexivity|]. cbn [In] in H |- *. tauto.
Qed.

Lemma marioJump_x w0 w m :
  x (marioJump w0 w m) = x m /\ vx (marioJump w0 w m) = vx m.
Proof. unfold marioJump. destruct (_ && _); cbn; auto. Qed.

Lemma marioLadder_x w0 w m :
  frameSpeed (vx m) ->
  x (marioLadder w0 w m) = x m /\ frameSpeed (vx (marioLadder w0 w m)).
Proof.
  intros H. unfold marioLadder.
  assert (Z0 : frameSpeed 0) by (unfold frameSpeed; cbn [In]; tauto).
  destruct (pressedUp w0 w).
  - destruct (canClimbLadder _ _ _); cbn; auto.
  - destruct (pressedDown w0 w); [|auto].
    destruct (canClimbLadder _ _ _); cbn; auto.
Qed.

Lemma marioGravity_x w0 m :
  x (marioGravity w0 m) = x m /\ vx (marioGravity w0 m) = vx m.
Proof. unfold marioGravity. destruct (negb _); cbn; auto. Qed.

Lemma platformScan_x ps m : x (platformScan ps m) = x m.
Proof.
  induction ps as [|p ps IH]; cbn [platformScan]; [reflexivity|].
  destruct (landsOn m p); [reflexivity|exact IH].
Qed.

Lemma elevatorScan_x els m : x (elevatorScan els m) = x m.
Proof.
  induction els as [|e els IH]; cbn [elevatorScan]; [reflexivity|].
  destruct (landsOnElevator m e); [reflexivity|exact IH].
Qed.

Lemma marioCollision_x w0 w m : x (marioCollision w0 w m) = x m.
Proof.
  unfold marioCollision. destruct (gtb _ _); [|reflexivity].
  destruct (LevelType_eqb _ _).
  - now rewrite elevatorScan_x, platformScan_x.
  - apply platformScan_x.
Qed.

Lemma frameSpeed_finite v : frameSpeed v -> finiteb v = true.
Proof.
  unfold frameSpeed. cbn [In].
  intros [<- | [<- | [<- | [<- | [<- | [<- | [<- | [<- | [<- | []]]]]]]]]];
    reflexivity.
Qed.

Lemma marioPhysics_x w0 w :
  is_nan (x (mario w)) = false ->
  let m := fst (marioPhysics w0 w) in
  is_nan (x m) = false /\ (0 <=? x m)%float = true /\
  (x m <=? CANVAS_WIDTH - MARIO_WIDTH)%float = true.
Proof.
  intros H. cbv zeta. unfold marioPhysics.
  destruct (marioInput_x w0 w (mario w)) as [X1 V1].
  destruct (marioInput w0 w (mario w)) as [m1 moving]. cbn [fst] in X1, V1 |- *.
  destruct (marioConveyor_x w0 w m1 V1) as [X2 V2].
  destruct (marioJump_x w0 w (marioConveyor w0 w m1)) as [X3 V3].
  rewrite <- V3 in V2.
  destruct (marioLadder_x w0 w _ V2) as [X4 V4].
  destruct (marioGravity_x w0 (marioLadder w0 w
              (marioJump w0 w (marioConveyor w0 w m1)))) as [X5 V5].
  apply marioClamp_x. rewrite marioCollision_x.
  unfold marioIntegrate. cbn [x set_x set_y]. rewrite X5, V5, X4, X3, X2, X1.
  rewrite is_nan_nanb. apply add_not_nan_r.
  - now rewrite <- is_nan_nanb.
  - now apply frameSpeed_finite.
Qed.

(** X15.  The avatar stays on the screen.  [updateMario] clamps the
    horizontal position to the canvas after it has moved the avatar: after a
    Playing frame started with a position that is a number, the position is
    a number between 0 and the canvas width less the avatar's width,
    whatever the keys, the level and the random draws are. *)
Theorem avatar_stays_on_screen rnd (w : World) :
  gameState w = PLAYING ->
  is_nan (x (mario w)) = false ->
  let m := mario (gameLoop rnd w) in
  is_nan (x m) = false /\ (0 <=? x m)%float = true /\
  (x m <=? CANVAS_WIDTH - MARIO_WIDTH)%float = true.
Proof.
  intros Hp Hx. cbv zeta. rewrite (gameLoop_mario rnd w Hp).
  unfold marioAfter.
  pose proof (marioPhysics_x w (ticked w) Hx) as H. cbv zeta in H.
  destruct (marioPhysics w (ticked w)) as [m moving]. cbn [fst] in H.
  destruct (marioAnimate_xy moving m) as [-> _]. exact H.
Qed.

Lemma avatar_stays_on_screen_witness :
  (0 <=? x (mario (gameLoop steady started)))%float = true /\
  (x (mario (gameLoop steady started)) <=? CANVAS_WIDTH - MARIO_WIDTH)%float
  = true.
Proof.
  pose proof (avatar_stays_on_screen steady started) as H.
  cbv zeta in H. destruct H as (_ & H1 & H2).
  - vm_compute. reflexivity.
  - vm_compute. reflexivity.
  - split; [exact H1|exact H2].
Defined.

End FullMore.

(** ** The reduced variant: hammer contacts and scores *)

Module AtariMore.
Import JS JSFacts DonkeyKongAtari DonkeyKongAtariFacts.

(** *** Definitions of the statements *)

(** Every hazard of the render was allocated before the frame. *)
Definition freshb (w : World) : bool :=
  forallb (fun b => Nat.ltb (b_oid b) (heap w)) (barrels w) &&
  forallb (fun f => Nat.ltb (f_oid f) (heap w)) (fireballs w).

(** A random source that never triggers anything probabilistic. *)
Definition quiet : random := fun _ => 0.5%float.

(** The avatar at its start position with the hammer, a barrel on it. *)
Definition armed : World :=
  set_heap 1
    (setBarrels [ mkBarrel 0 50 200 16 16 true 1 1.2 false ]
       (setMario (mkMario 50 200 true false false 1 true 300 0)
          (startGame (initialWorld None)))).


(** *** Object identities *)

Lemma deactivateBarrel_miss barrel prev h :
  (forall b, In b prev -> b_oid b <> b_oid barrel) ->
  deactivateBarrel barrel prev h = (prev, h).
Proof.
  induction prev as [|b prev IH]; intros H; [reflexivity|].
  cbn [deactivateBarrel].
  assert (E : Nat.eqb (b_oid b) (b_oid barrel) = false).
  { apply Nat.eqb_neq. apply H. now left. }
  rewrite E, IH; [reflexivity|]. intros b' Hb'. apply H. now right.
Qed.

Lemma deactivateFireball_miss fireball prev h :
  (forall f, In f prev -> f_oid f <> f_oid fireball) ->
  deactivateFireball fireball prev h = (prev, h).
Proof.
  induction prev as [|f prev IH]; intros H; [reflexivity|].
  cbn [deactivateFireball].
  assert (E : Nat.eqb (f_oid f) (f_oid fireball) = false).
  { apply Nat.eqb_neq. apply H. now left. }
  rewrite E, IH; [reflexivity|]. intros f' Hf'. apply H. now right.
Qed.

Lemma barrelCollisions_miss w0 bs :
  forall w d,
    (forall barrel b, In barrel bs -> In b (barrels w) ->
                      b_oid b <> b_oid barrel) ->
    barrels (fst (barrelCollisions w0 bs w d)) = barrels w /\
    fireballs (fst (barrelCollisions w0 bs w d)) = fireballs w /\
    heap (fst (barrelCollisions w0 bs w d)) = heap w.
Proof.
  induction bs as [|barrel bs IH]; intros w d H; [repeat split|].
  cbn [barrelCollisions].
  assert (Hrest : forall w', barrels w' = barrels w ->
            forall barrel0 b, In barrel0 bs -> In b (barrels w') ->
                              b_oid b <> b_oid barrel0).
  { intros w' E barrel0 b H0 Hb. rewrite E in Hb. apply H; [now right|exact Hb]. }
  destruct (hitsBarrel (mario w0) barrel).
  - destruct (hasHammer (mario w0)).
    + cbn [barrels heap setScore].
      rewrite deactivateBarrel_miss
        by (intros b Hb; apply (H barrel b); [now left|exact Hb]).
      destruct (IH (set_heap (heap w) (setBarrels (barrels w)
                                          (setScore (score w + 300) w))) d)
        as (E1 & E2 & E3); [apply Hrest; reflexivity|].
      rewrite E1, E2, E3. repeat split.
    + apply IH. apply Hrest. reflexivity.
  - apply IH. apply Hrest. reflexivity.
Qed.

Lemma fireballCollisions_miss w0 fs :
  forall w d,
    (forall fireball f, In fireball fs -> In f (fireballs w) ->
                        f_oid f <> f_oid fireball) ->
    barrels (fst (fireballCollisions w0 fs w d)) = barrels w /\
    fireballs (fst (fireballCollisions w0 fs w d)) = fireballs w /\
    heap (fst (fireballCollisions w0 fs w d)) = heap w.
Proof.
  induction fs as [|fireball fs IH]; intros w d H; [repeat split|].
  cbn [fireballCollisions].
  assert (Hrest : forall w', fireballs w' = fireballs w ->
            forall fireball0 f, In fireball0 fs -> In f (fireballs w') ->
                                f_oid f <> f_oid fireball0).
  { intros w' E fireball0 f H0 Hf. rewrite E in Hf.
    apply H; [now right|exact Hf]. }
  destruct (hitsFireball (mario w0) fireball).
  - destruct (hasHammer (mario w0)).
    + cbn [fireballs heap setScore].
      rewrite deactivateFireball_miss
        by (intros f Hf; apply (H fireball f); [now left|exact Hf]).
      destruct (IH (set_heap (heap w) (setFireballs (fireballs w)
                                          (setScore (score w + 500) w))) d)
        as (E1 & E2 & E3); [apply Hrest; reflexivity|].
      rewrite E1, E2, E3. repeat split.
    + apply IH. apply Hrest. reflexivity.
  - apply IH. apply Hrest. reflexivity.
Qed.

(** The movement steps keep the identity of the object they update. *)
Lemma barrelBounds_oid b : b_oid (barrelBounds b) = b_oid b.
Proof.
  unfold barrelBounds. destruct (find _ _); [|reflexivity].
  destruct (_ <=? _)%float; [reflexivity|].
  destruct (geb _ _); reflexivity.
Qed.

Lemma barrelLadderDescent_oid rnd i b :
  b_oid (fst (barrelLadderDescent rnd i b)) = b_oid b.
Proof.
  unfold barrelLadderDescent. destruct (negb _); [|reflexivity].
  destruct (_ <? _)%float; [|reflexivity].
  destruct (find _ _); reflexivity.
Qed.

Lemma barrelLadderMove_oid b : b_oid (barrelLadderMove b) = b_oid b.
Proof.
  unfold barrelLadderMove. destruct (b_onLadder b); [|reflexivity].
  destruct (find _ _); [|reflexivity].
  destruct (geb _ _); reflexivity.
Qed.

Lemma barrelStep_oid rnd barrel h i :
  (b_active barrel = false /\
   barrelStep rnd barrel h i = (barrel, h, i)) \/
  (b_oid (fst (fst (barrelStep rnd barrel h i))) = h /\
   snd (fst (barrelStep rnd barrel h i)) = S h).
Proof.
  unfold barrelStep. destruct (b_active barrel); cbn [negb]; [right|now left].
  destruct (barrelLadderDescent rnd i _) as [b i'] eqn:E.
  cbn [fst snd]. split; [|reflexivity].
  assert (Eb : b_oid b = h).
  { change b with (fst (b, i')). rewrite <- E.
    rewrite barrelLadderDescent_oid, barrelBounds_oid. reflexivity. }
  destruct (gtb _ _); cbn [b_oid set_b_active];
    rewrite barrelLadderMove_oid; exact Eb.
Qed.

Lemma mapBarrels_fresh rnd bs :
  forall h i,
    (h <= snd (fst (mapBarrels rnd bs h i)))%nat /\
    forall b, In b (fst (fst (mapBarrels rnd bs h i))) ->
              b_active b = true ->
              (h <= b_oid b < snd (fst (mapBarrels rnd bs h i)))%nat.
Proof.
  induction bs as [|barrel bs IH]; intros h i.
  - cbn. split; [lia|contradiction].
  - cbn [mapBarrels].
    pose proof (barrelStep_oid rnd barrel h i) as S.
    destruct (barrelStep rnd barrel h i) as [[b1 h1] i1].
    specialize (IH h1 i1).
    destruct (mapBarrels rnd bs h1 i1) as [[rest h2] i2].
    cbn [fst snd] in *. destruct IH as [Hle Hin].
    assert (Hh : (h <= h1)%nat).
    { destruct S as [[_ E]|[_ E]]; [injection E as _ <- _|]; lia. }
    split; [lia|].
    intros b [<-|Hb] Ha.
    + destruct S as [[Hi E]|[Eo Eh]].
      * injection E as <- _ _. congruence.
      * lia.
    + specialize (Hin b Hb Ha). lia.
Qed.

Lemma fireballStep_oid rnd fireball h i :
  (f_active fireball = false /\
   fireballStep rnd fireball h i = (fireball, h, i)) \/
  (f_oid (fst (fst (fireballStep rnd fireball h i))) = h /\
   snd (fst (fireballStep rnd fireball h i)) = S h).
Proof.
  unfold fireballStep. destruct (f_active fireball); cbn [negb];
    [right|now left].
  destruct (f_climbing (copy_f h fireball)); cbn [negb].
  - cbn [fst snd]. split; [|reflexivity].
    destruct (_ <? _)%float; reflexivity.
  - cbn [fst snd]. split; [|reflexivity].
    destruct (_ || _); destruct (_ <? _)%float; try reflexivity;
      destruct (find _ _); reflexivity.
Qed.

Lemma mapFireballs_fresh rnd fs :
  forall h i,
    (h <= snd (fst (mapFireballs rnd fs h i)))%nat /\
    forall f, In f (fst (fst (mapFireballs rnd fs h i))) ->
              f_active f = true ->
              (h <= f_oid f < snd (fst (mapFireballs rnd fs h i)))%nat.
Proof.
  induction fs as [|fireball fs IH]; intros h i.
  - cbn. split; [lia|contradiction].
  - cbn [mapFireballs].
    pose proof (fireballStep_oid rnd fireball h i) as S.
    destruct (fireballStep rnd fireball h i) as [[f1 h1] i1].
    specialize (IH h1 i1).
    destruct (mapFireballs rnd fs h1 i1) as [[rest h2] i2].
    cbn [fst snd] in *. destruct IH as [Hle Hin].
    assert (Hh : (h <= h1)%nat).
    { destruct S as [[_ E]|[_ E]]; [injection E as _ <- _|]; lia. }
    split; [lia|].
    intros f [<-|Hf] Ha.
    + destruct S as [[Hi E]|[Eo Eh]].
      * injection E as <- _ _. congruence.
      * lia.
    + specialize (Hin f Hf Ha). lia.
Qed.

(** After [updateBarrels], every barrel of the state is active and was
    allocated by this very call. *)
Lemma updateBarrels_fresh w0 rnd w i :
  gameState w0 = playing ->
  let w' := fst (updateBarrels w0 rnd w i) in
  (heap w <= heap w')%nat /\
  forall b, In b (barrels w') ->
            b_active b = true /\ (heap w <= b_oid b < heap w')%nat.
Proof.
  intros Hp. cbv zeta. unfold updateBarrels. rewrite Hp.
  cbn [GameState_eqb negb].
  destruct (_ <? _)%float.
  - pose proof (mapBarrels_fresh rnd
                  (barrels w ++ [spawnedBarrel w0 (heap w)]) (S (heap w))
                  (S i)) as [Hle Hin].
    destruct (mapBarrels rnd _ (S (heap w)) (S i)) as [[bs h'] i'].
    cbn [fst snd barrels heap set_heap setBarrels] in *.
    split; [lia|]. intros b Hb. apply filter_In in Hb. destruct Hb as [Hb Ha].
    split; [exact Ha|]. specialize (Hin b Hb Ha). lia.
  - pose proof (mapBarrels_fresh rnd (barrels w) (heap w) (S i))
      as [Hle Hin].
    destruct (mapBarrels rnd _ (heap w) (S i)) as [[bs h'] i'].
    cbn [fst snd barrels heap set_heap setBarrels] in *.
    split; [lia|]. intros b Hb. apply filter_In in Hb. destruct Hb as [Hb Ha].
    split; [exact Ha|]. specialize (Hin b Hb Ha). lia.
Qed.

Lemma updateFireballs_fresh w0 rnd w i :
  gameState w0 = playing ->
  let w' := fst (updateFireballs w0 rnd w i) in
  (heap w <= heap w')%nat /\
  forall f, In f (fireballs w') ->
            f_active f = true /\ (heap w <= f_oid f < heap w')%nat.
Proof.
  intros Hp. cbv zeta. unfold updateFireballs. rewrite Hp.
  cbn [GameState_eqb negb].
  destruct (_ <? _)%float.
  - pose proof (mapFireballs_fresh rnd
                  (fireballs w ++ [spawnedFireball w0 rnd (S i) (heap w)])
                  (S (heap w)) (S (S i))) as [Hle Hin].
    destruct (mapFireballs rnd _ (S (heap w)) (S (S i))) as [[fs h'] i'].
    cbn [fst snd fireballs heap set_heap setFireballs] in *.
    split; [lia|]. intros f Hf. apply filter_In in Hf. destruct Hf as [Hf Ha].
    split; [exact Ha|]. specialize (Hin f Hf Ha). lia.
  - pose proof (mapFireballs_fresh rnd (fireballs w) (heap w) (S i))
      as [Hle Hin].
    destruct (mapFireballs rnd _ (heap w) (S i)) as [[fs h'] i'].
    cbn [fst snd fireballs heap set_heap setFireballs] in *.
    split; [lia|]. intros f Hf. apply filter_In in Hf. destruct Hf as [Hf Ha].
    split; [exact Ha|]. specialize (Hin f Hf Ha). lia.
Qed.

Lemma freshb_spec (w : World) :
  freshb w = true <->
  (forall b, In b (barrels w) -> (b_oid b < heap w)%nat) /\
  (forall f, In f (fireballs w) -> (f_oid f < heap w)%nat).
Proof.
  unfold freshb. rewrite andb_true_iff, !forallb_forall.
  split; intros [H1 H2]; split; intros o Ho.
  - apply Nat.ltb_lt. now apply H1.
  - apply Nat.ltb_lt. now apply H2.
  - apply Nat.ltb_lt. now apply H1.
  - apply Nat.ltb_lt. now apply H2.
Qed.

Lemma checkCollisions_miss w0 w :
  gameState w0 = playing ->
  (forall barrel b, In barrel (barrels w0) -> In b (barrels w) ->
                    b_oid b <> b_oid barrel) ->
  (forall fireball f, In fireball (fireballs w0) -> In f (fireballs w) ->
                      f_oid f <> f_oid fireball) ->
  barrels (fst (fst (checkCollisions w0 w))) = barrels w /\
  fireballs (fst (fst (checkCollisions w0 w))) = fireballs w /\
  heap (fst (fst (checkCollisions w0 w))) = heap w.
Proof.
  intros Hp Hb Hf. unfold checkCollisions. rewrite Hp.
  cbn [GameState_eqb negb].
  destruct (barrelCollisions_miss w0 (barrels w0) w 0 Hb) as (B1 & B2 & B3).
  destruct (barrelCollisions w0 (barrels w0) w 0) as [wB dB].
  cbn [fst] in B1, B2, B3.
  assert (Hf' : forall fireball f, In fireball (fireballs w0) ->
                  In f (fireballs wB) -> f_oid f <> f_oid fireball).
  { intros fireball f H1 H2. rewrite B2 in H2. now apply Hf. }
  destruct (fireballCollisions_miss w0 (fireballs w0) wB dB Hf')
    as (F1 & F2 & F3).
  destruct (fireballCollisions w0 (fireballs w0) wB dB) as [wF dF].
  cbn [fst] in F1, F2, F3.
  destruct (reachedPauline (mario w0)); cbn [fst barrels fireballs heap
                                             setGameState];
    repeat split; congruence.
Qed.

Section Frame.
Variable rnd : random.
Variable w0 : World.
Hypothesis Hp : gameState w0 = playing.
Hypothesis Hfresh : freshb w0 = true.

Let w1 := updateMario w0 w0.
Let w2 := fst (updateBarrels w0 rnd w1 0).
Let i2 := snd (updateBarrels w0 rnd w1 0).
Let w3 := fst (updateFireballs w0 rnd w2 i2).
Let w4 := fst (fst (checkCollisions w0 w3)).

Lemma frame_heaps :
  heap w1 = heap w0 /\ (heap w0 <= heap w2)%nat /\ (heap w2 <= heap w3)%nat.
Proof.
  assert (E1 : heap w1 = heap w0)
    by exact (atari_updateMario_keeps w0 w0 F_heap eq_refl).
  split; [exact E1|].
  destruct (updateBarrels_fresh w0 rnd w1 0 Hp) as [H2 _].
  destruct (updateFireballs_fresh w0 rnd w2 i2 Hp) as [H3 _].
  fold w2 in H2. fold w3 in H3. split; [lia|exact H3].
Qed.

Lemma frame_hazards :
  barrels w4 = barrels w2 /\ fireballs w4 = fireballs w3 /\
  heap w4 = heap w3 /\
  (forall b, In b (barrels w2) ->
             b_active b = true /\ (heap w0 <= b_oid b < heap w3)%nat) /\
  (forall f, In f (fireballs w3) ->
             f_active f = true /\ (heap w0 <= f_oid f < heap w3)%nat).
Proof.
  destruct frame_heaps as (E1 & L2 & L3).
  destruct (updateBarrels_fresh w0 rnd w1 0 Hp) as [_ Hb].
  destruct (updateFireballs_fresh w0 rnd w2 i2 Hp) as [_ Hf].
  fold w2 in Hb. fold w3 in Hf.
  assert (E3 : barrels w3 = barrels w2)
    by exact (updateFireballs_keeps w0 rnd w2 i2 F_barrels eq_refl).
  apply freshb_spec in Hfresh. destruct Hfresh as [Fb Ff].
  destruct (checkCollisions_miss w0 w3 Hp) as (C1 & C2 & C3).
  - intros barrel b H1 H2. rewrite E3 in H2.
    specialize (Fb barrel H1). destruct (Hb b H2) as [_ ?]. lia.
  - intros fireball f H1 H2.
    specialize (Ff fireball H1). destruct (Hf f H2) as [_ ?]. lia.
  - fold w4 in C1, C2, C3.
    split; [congruence|]. split; [exact C2|]. split; [exact C3|].
    split.
    + intros b H. destruct (Hb b H). split; [assumption|lia].
    + intros f H. destruct (Hf f H). split; [assumption|lia].
Qed.

End Frame.

Lemma freshb_loseLife w0 w :
  freshb w = true -> freshb (loseLife w0 w) = true.
Proof.
  unfold loseLife. cbv zeta.
  destruct (_ <=? _); [destruct (_ >? _)|]; auto.
Qed.

Lemma freshb_iter w0 d w :
  freshb w = true -> freshb (Nat.iter d (loseLife w0) w) = true.
Proof.
  intros H. induction d as [|d IH]; [exact H|]. rewrite Nat.iter_succ.
  now apply freshb_loseLife.
Qed.

Lemma freshb_frame rnd (a : World) :
  freshb a = true -> freshb (fst (animationFrame rnd a)) = true.
Proof.
  intros H. unfold animationFrame.
  destruct (GameState_eqb (gameState a) playing) eqn:Eg; [|exact H].
  apply atari_GameState_eqb_eq in Eg.
  rewrite (gameLoop_eq rnd a). apply freshb_iter.
  destruct (frame_hazards rnd a Eg H) as (E1 & E2 & E3 & Hb & Hf).
  apply freshb_spec. cbn [barrels fireballs heap setBonus].
  rewrite E1, E2, E3. split.
  - intros b Hin. destruct (Hb b Hin). lia.
  - intros f Hin. destruct (Hf f Hin). lia.
Qed.

Lemma freshb_frames n rnd (a : World) :
  freshb a = true -> freshb (frames n rnd a) = true.
Proof.
  intros H. induction n as [|n IH]; [exact H|].
  cbn [frames]. now apply freshb_frame.
Qed.

(** X9.  In the reduced variant the hammer removes no hazard.  The
    collision pass deactivates the element of the list that is identical to
    the one it iterates over, but it iterates over the render's list and the
    barrel and fireball updates of the same frame have replaced every
    element by a copy.  In a Playing frame with the hammer held the barrel
    and fireball lists are therefore what the two updates produced, every
    element active.  This holds in every frame of a run from a world whose
    hazards were allocated before the frame, which every frame preserves. *)
Theorem hammer_removes_nothing
    (rnd : random) (a : World) (n : nat) (rnds : nat -> random) :
  gameState a = playing ->
  hasHammer (mario a) = true ->
  freshb a = true ->
  let a2 := updateBarrels a rnd (updateMario a a) 0 in
  let a3 := updateFireballs a rnd (fst a2) (snd a2) in
  let a' := fst (gameLoop rnd a) in
  barrels a' = barrels (fst a2) /\
  fireballs a' = fireballs (fst a3) /\
  forallb b_active (barrels a') = true /\
  forallb f_active (fireballs a') = true /\
  freshb (frames n rnds a) = true.
Proof.
  intros Hp Hh Hf. cbv zeta.
  destruct (frame_hazards rnd a Hp Hf) as (E1 & E2 & E3 & Hb & Hfi).
  assert (Ea : fst (gameLoop rnd a) =
               setBonus
                 (Z.max 0
                    (bonus
                       (fst (fst (checkCollisions a
                          (fst (updateFireballs a rnd
                             (fst (updateBarrels a rnd (updateMario a a) 0))
                             (snd (updateBarrels a rnd (updateMario a a) 0)))))))
                     - 1))
                 (fst (fst (checkCollisions a
                    (fst (updateFireballs a rnd
                       (fst (updateBarrels a rnd (updateMario a a) 0))
                       (snd (updateBarrels a rnd (updateMario a a) 0)))))))).
  { rewrite (gameLoop_eq rnd a).
    rewrite (quiet_d rnd a Hp (holding_is_quiet a Hh)). reflexivity. }
  rewrite Ea. cbn [barrels fireballs setBonus]. rewrite E1, E2.
  split; [reflexivity|]. split; [reflexivity|].
  split; [apply forallb_forall; intros b H; now destruct (Hb b H)|].
  split; [apply forallb_forall; intros f H; now destruct (Hfi f H)|].
  now apply freshb_frames.
Qed.

Lemma hammer_removes_nothing_witness :
  List.length (barrels (fst (gameLoop quiet armed))) = 1%nat /\
  forallb b_active (barrels (fst (gameLoop quiet armed))) = true /\
  score (fst (gameLoop quiet armed)) = 300.
Proof.
  pose proof (hammer_removes_nothing quiet armed 0 (fun _ => quiet)) as H.
  cbv zeta in H. destruct H as (H1 & _ & H2 & _).
  - vm_compute. reflexivity.
  - vm_compute. reflexivity.
  - vm_compute. reflexivity.
  - split; [|split].
    + rewrite H1. vm_compute. reflexivity.
    + exact H2.
    + vm_compute. reflexivity.
Defined.

(** *** Score and high score *)







End AtariMore.

(** ** The 3D maze game *)

Module PacManFacts.
Import JS PacMan FloatFacts.

(** *** Definitions of the statements *)

Definition tameGhost (g : Ghost) : bool :=
  finiteb (x (pos g)) && finiteb (z (pos g)) &&
  finiteb (x (direction g)) && finiteb (z (direction g)).

(** The cell in row [r], column [c]. *)
Definition look (mz : list (list Z)) (r c : nat) : option Z :=
  match nth_error mz r with Some row => nth_error row c | None => None end.

Definition walledIn (w : World) : Prop :=
  pacmanPos w = mkPosition 10 15 /\ pacmanRotation w = 0%float /\
  maze w = MAZE_LAYOUT /\
  score (gameState w) = 0 /\ powerMode (gameState w) = false /\
  forallb tameGhost (ghosts w) = true.

Definition applyAll (cs : list Change) (gs : GameState) : GameState :=
  fold_left (fun g (c : Change) => c g) cs gs.

(** The position rounds to a cell inside the maze that is not a wall. *)
Definition inCorridor (mz : list (list Z)) (p : Position) : bool :=
  let gridX := Math_round (x p) in
  let gridZ := Math_round (z p) in
  negb (ltZ gridX 0 || geZ gridX MAZE_SIZE ||
        ltZ gridZ 0 || geZ gridZ MAZE_SIZE) &&
  match cellIs mz gridZ gridX 1 with Some false => true | _ => false end.

(** A frame that eats a dot while a ghost touches the player: the player
    at (1.4, 1) moving right, a ghost at (1.4, 1.2), three lives left. *)
Definition hunted : World :=
  mkWorld (mkGameState 0 3 playing false 0) (mkPosition 1.4 1) 0
    [ mkGhost (mkPosition 1.4 1.2) "#FF0000" (mkPosition 1 0) ]
    MAZE_LAYOUT ["d"%string].

(** An implementation of [Math.pow] for the exponent 2. *)
Definition square : float -> float -> float := fun b _ => (b * b)%float.

Definition afterHunt : World :=
  match frame square PrimFloat.sqrt (fun _ => 0.5%float) hunted with
  | Some w => w
  | None => hunted
  end.

(** The game as the start button leaves it, and a frame later. *)
Definition opened : World :=
  setGameState (mkGameState 0 3 playing false 0) initialWorld.

Definition afterOpened : World :=
  match frame square PrimFloat.sqrt (fun _ => 0.5%float) opened with
  | Some w => w
  | None => opened
  end.

Lemma Status_eqb_eq (a b : Status) : Status_eqb a b = true <-> a = b.
Proof. destruct a, b; simpl; split; intros H; congruence. Qed.

(** *** The player in the wall *)

(** The start position is the wall cell (10, 15), and a step of 0.05 in any
    direction still rounds to that cell. *)
Lemma movePacman_walled (w0 : World) :
  pacmanPos w0 = mkPosition 10 15 -> maze w0 = MAZE_LAYOUT ->
  movePacman w0 = Some (mkMove (mkPosition 10 15) (pacmanRotation w0) false).
Proof.
  intros Hpos Hmaze. unfold movePacman, moveZ, moveX. rewrite Hpos, Hmaze.
  destruct (pressed w0 "w" "arrowup"), (pressed w0 "s" "arrowdown"),
           (pressed w0 "a" "arrowleft"), (pressed w0 "d" "arrowright");
    vm_compute; reflexivity.
Qed.

(** *** Ghosts never make the frame throw *)

Lemma Math_round_finite v r : Math_round v = RInt r -> finiteb v = true.
Proof.
  unfold Math_round, finiteb. destruct (Prim2SF v); congruence.
Qed.

Lemma Math_round_not_nan v : nanb v = false -> Math_round v <> RNaN.
Proof.
  unfold Math_round, nanb. destruct (Prim2SF v); congruence.
Qed.

Lemma pickDirection_finite r :
  finiteb (x (pickDirection r)) = true /\
  finiteb (z (pickDirection r)) = true.
Proof.
  unfold pickDirection, at_.
  destruct (Math_floor (r * 4)) as [v| |]; try (split; reflexivity).
  destruct (v <? 0); [split; reflexivity|].
  destruct (Z.to_nat v) as [|[|[|[|n]]]]; cbn; try (split; reflexivity).
  destruct n; split; reflexivity.
Qed.

(** Inside the maze: an integer index of a row or a column. *)
Lemma inside_index (g : Rounded) :
  g <> RNaN -> ltZ g 0 = false -> geZ g MAZE_SIZE = false ->
  exists v, g = RInt v /\ 0 <= v < MAZE_SIZE.
Proof.
  destruct g as [v|s|]; cbn; intros H H1 H2.
  - exists v. split; [reflexivity|].
    apply Z.ltb_ge in H1. apply Z.leb_gt in H2. lia.
  - destruct s; discriminate.
  - congruence.
Qed.

Lemma at_row (mz : list (list Z)) (v : Z) :
  List.length mz = 21%nat -> 0 <= v < MAZE_SIZE ->
  exists row, at_ mz (RInt v) = Some row.
Proof.
  intros Hl Hv. unfold at_, MAZE_SIZE in *.
  replace (v <? 0) with false by (symmetry; apply Z.ltb_ge; lia).
  destruct (nth_error mz (Z.to_nat v)) as [row|] eqn:E; [now exists row|].
  apply nth_error_None in E. lia.
Qed.

Lemma moveGhost_tame (mz : list (list Z)) (rnd : random) (i : nat)
    (g : Ghost) :
  List.length mz = 21%nat -> tameGhost g = true ->
  exists g' i', moveGhost mz rnd i g = Some (g', i') /\ tameGhost g' = true.
Proof.
  intros Hl Ht. unfold tameGhost in Ht.
  apply andb_true_iff in Ht. destruct Ht as [Ht Hdz].
  apply andb_true_iff in Ht. destruct Ht as [Ht Hdx].
  apply andb_true_iff in Ht. destruct Ht as [Hx Hz].
  assert (Turn : forall j,
            tameGhost (mkGhost (pos g) (color g) (pickDirection (rnd j)))
            = true).
  { intros j. unfold tameGhost. cbn [pos direction].
    destruct (pickDirection_finite (rnd j)) as [-> ->].
    now rewrite Hx, Hz. }
  unfold moveGhost.
  set (nx := (x (pos g) + x (direction g) * GHOST_SPEED)%float).
  set (nz := (z (pos g) + z (direction g) * GHOST_SPEED)%float).
  cbn [x z].
  assert (Nx : nanb nx = false).
  { apply add_not_nan; [exact Hx|]. apply mul_not_nan; [exact Hdx|reflexivity]. }
  assert (Nz : nanb nz = false).
  { apply add_not_nan; [exact Hz|]. apply mul_not_nan; [exact Hdz|reflexivity]. }
  destruct (ltZ (Math_round nx) 0) eqn:E1; cbn [orb];
    [eexists; eexists; split; [reflexivity|apply Turn]|].
  destruct (geZ (Math_round nx) MAZE_SIZE) eqn:E2; cbn [orb];
    [eexists; eexists; split; [reflexivity|apply Turn]|].
  destruct (ltZ (Math_round nz) 0) eqn:E3; cbn [orb];
    [eexists; eexists; split; [reflexivity|apply Turn]|].
  destruct (geZ (Math_round nz) MAZE_SIZE) eqn:E4; cbn [orb];
    [eexists; eexists; split; [reflexivity|apply Turn]|].
  destruct (inside_index _ (Math_round_not_nan _ Nx) E1 E2) as (vx & Ex & Hvx).
  destruct (inside_index _ (Math_round_not_nan _ Nz) E3 E4) as (vz & Ez & Hvz).
  destruct (at_row mz vz Hl Hvz) as (row & Erow).
  unfold cellIs. rewrite Ez, Erow. cbn [bind].
  match goal with |- context [if ?c then _ else _] => destruct c end;
    [eexists; eexists; split; [reflexivity|apply Turn]|].
  destruct (rnd i <? 0.01)%float;
    [eexists; eexists; split; [reflexivity|apply Turn]|].
  eexists; eexists; split; [reflexivity|].
  unfold tameGhost. cbn [pos direction x z].
  rewrite (Math_round_finite _ _ Ex), (Math_round_finite _ _ Ez), Hdx, Hdz.
  reflexivity.
Qed.

Lemma moveGhosts_tame (mz : list (list Z)) (rnd : random) (gs : list Ghost) :
  List.length mz = 21%nat ->
  forall i, forallb tameGhost gs = true ->
  exists gs', moveGhosts mz rnd i gs = Some gs' /\
              forallb tameGhost gs' = true.
Proof.
  intros Hl. induction gs as [|g gs IH]; intros i Ht.
  - exists []. split; reflexivity.
  - cbn [forallb] in Ht. apply andb_true_iff in Ht. destruct Ht as [Hg Hgs].
    destruct (moveGhost_tame mz rnd i g Hl Hg) as (g' & i' & E & Hg').
    destruct (IH i' Hgs) as (gs' & E' & Hgs').
    exists (g' :: gs'). cbn [moveGhosts]. rewrite E. cbn [bind]. rewrite E'.
    cbn [bind forallb]. now rewrite Hg', Hgs'.
Qed.

(** *** The maze after a frame *)

Lemma setAt_length {A} (a : list A) (i : nat) (v : A) :
  List.length (setAt a i v) = List.length a.
Proof.
  unfold setAt. revert i. induction a as [|h a IH]; intros [|i]; cbn;
    try reflexivity.
  now rewrite IH.
Qed.

Lemma setAt_nth {A} (a : list A) (i j : nat) (v : A) :
  nth_error (setAt a i v) j =
  if Nat.eqb i j && Nat.ltb i (List.length a) then Some v
  else nth_error a j.
Proof.
  unfold setAt. revert i j.
  induction a as [|h a IH]; intros i j.
  - destruct i, j; cbn; try reflexivity.
    all: now rewrite andb_false_r.
  - destruct i as [|i], j as [|j]; cbn [firstn skipn app nth_error Nat.eqb
                                        andb List.length]; try reflexivity.
    rewrite IH. reflexivity.
Qed.

Lemma clearCell_look (mz : list (list Z)) (vz vx : Z) (r c : nat) :
  look (clearCell mz vz vx) r c =
  match look mz (Z.to_nat vz) (Z.to_nat vx) with
  | Some _ =>
      if Nat.eqb (Z.to_nat vz) r && Nat.eqb (Z.to_nat vx) c then Some 0
      else look mz r c
  | None => look mz r c
  end.
Proof.
  unfold clearCell, look.
  destruct (nth_error mz (Z.to_nat vz)) as [row|] eqn:Er; [|reflexivity].
  rewrite setAt_nth.
  assert (Hlt : Nat.ltb (Z.to_nat vz) (List.length mz) = true).
  { apply Nat.ltb_lt. apply nth_error_Some. congruence. }
  rewrite Hlt, andb_true_r.
  destruct (Nat.eqb (Z.to_nat vz) r) eqn:E1.
  - apply Nat.eqb_eq in E1. subst r. rewrite Er, setAt_nth.
    destruct (nth_error row (Z.to_nat vx)) as [c0|] eqn:Ec.
    + assert (Hc : Nat.ltb (Z.to_nat vx) (List.length row) = true).
      { apply Nat.ltb_lt. apply nth_error_Some. congruence. }
      rewrite Hc, andb_true_r. cbn [andb]. reflexivity.
    + assert (Hc : Nat.ltb (Z.to_nat vx) (List.length row) = false).
      { apply Nat.ltb_ge. now apply nth_error_None. }
      now rewrite Hc, andb_false_r.
  - cbn [andb]. now destruct (nth_error row (Z.to_nat vx)).
Qed.

Lemma clearCell_shape (mz : list (list Z)) (vz vx : Z) :
  map (@List.length Z) (clearCell mz vz vx) = map (@List.length Z) mz.
Proof.
  unfold clearCell.
  destruct (nth_error mz (Z.to_nat vz)) as [row|] eqn:Er; [|reflexivity].
  apply nth_error_ext. intros n. rewrite !nth_error_map, setAt_nth.
  destruct (Nat.eqb (Z.to_nat vz) n && _) eqn:E; [|reflexivity].
  apply andb_true_iff in E. destruct E as [E _]. apply Nat.eqb_eq in E.
  subst n. rewrite Er. cbn. now rewrite setAt_length.
Qed.

Lemma cellIs_look (mz : list (list Z)) (vz vx v : Z) :
  cellIs mz (RInt vz) (RInt vx) v = Some true ->
  look mz (Z.to_nat vz) (Z.to_nat vx) = Some v.
Proof.
  unfold cellIs, at_, look. destruct (vz <? 0); [discriminate|].
  destruct (nth_error mz (Z.to_nat vz)) as [row|]; [|discriminate].
  destruct (vx <? 0); [discriminate|].
  destruct (nth_error row (Z.to_nat vx)) as [c|]; [|discriminate].
  intros E. injection E as E. apply Z.eqb_eq in E. now subst.
Qed.

(** The maze [collect] hands on: the maze of the render, or that maze with
    one dot or pellet cleared. *)
Lemma collect_maze (w0 : World) (mv : Move) mz cs :
  collect w0 mv = Some (mz, cs) ->
  mz = maze w0 \/
  exists vz vx,
    mz = clearCell (maze w0) vz vx /\
    (look (maze w0) (Z.to_nat vz) (Z.to_nat vx) = Some 2 \/
     look (maze w0) (Z.to_nat vz) (Z.to_nat vx) = Some 3).
Proof.
  unfold collect. destruct (moved mv); [|intros E; injection E as <- _; auto].
  destruct (cellIs (maze w0) (Math_round (z (newPos mv)))
              (Math_round (x (newPos mv))) 2) as [dot|] eqn:E2;
    [|discriminate].
  destruct (cellIs (maze w0) (Math_round (z (newPos mv)))
              (Math_round (x (newPos mv))) 3) as [pellet|] eqn:E3;
    [|discriminate].
  cbn [bind]. intros E. injection E as <- _.
  destruct (Math_round (z (newPos mv))) as [vz| |];
    [|destruct dot, pellet; auto|destruct dot, pellet; auto].
  destruct (Math_round (x (newPos mv))) as [vx| |];
    [|destruct dot, pellet; auto|destruct dot, pellet; auto].
  destruct dot, pellet; auto.
  - apply cellIs_look in E2. apply cellIs_look in E3. congruence.
  - right. exists vz, vx. split; [reflexivity|]. left.
    now apply cellIs_look.
  - right. exists vz, vx. split; [reflexivity|]. right.
    now apply cellIs_look.
Qed.

(** *** What no event changes *)

(** The changes of the ghosts that touch, without the power mode: lives
    and status only. *)
Lemma fold_caught (w0 : World) (hits : list Ghost) (gs : GameState) :
  powerMode (gameState w0) = false ->
  score (fold_left (fun g (c : Change) => c g)
           (map (fun _ => caught w0) hits) gs) = score gs /\
  powerMode (fold_left (fun g (c : Change) => c g)
               (map (fun _ => caught w0) hits) gs) = powerMode gs.
Proof.
  intros Hp. revert gs. induction hits as [|h hits IH]; intros gs;
    [split; reflexivity|].
  cbn [map fold_left]. destruct (IH (caught w0 gs)) as [-> ->].
  unfold caught. rewrite Hp. split; reflexivity.
Qed.

Section Scene.
Variable Math_pow : float -> float -> float.
Variable Math_sqrt : float -> float.

Lemma frame_walledIn (rnd : random) (w0 : World) :
  walledIn w0 ->
  exists w', frame Math_pow Math_sqrt rnd w0 = Some w' /\ walledIn w'.
Proof.
  intros (Hpos & Hrot & Hmaze & Hs & Hp & Hg). unfold frame.
  destruct (negb _); [exists w0; split; [reflexivity|repeat split; assumption]|].
  rewrite (movePacman_walled w0 Hpos Hmaze). cbn [bind].
  unfold collect. cbn [moved bind].
  destruct (moveGhosts_tame (maze w0) rnd (ghosts w0)
              ltac:(rewrite Hmaze; reflexivity) O Hg) as (gs' & Eg & Hg').
  rewrite Eg. cbn [bind moved newPos newRotation app].
  eexists. split; [reflexivity|].
  destruct (fold_caught w0 (filter (touches Math_pow Math_sqrt w0) (ghosts w0))
              (gameState w0) Hp) as [Es Ep].
  unfold walledIn.
  cbn [pacmanPos pacmanRotation maze gameState ghosts].
  rewrite Es, Ep.
  split; [destruct (_ && _); [reflexivity|exact Hpos]|].
  repeat split; assumption.
Qed.

Lemma step_walledIn (w : World) (e : Event) :
  walledIn w ->
  exists w', step Math_pow Math_sqrt w e = Some w' /\ walledIn w'.
Proof.
  intros H. destruct e; cbn [step].
  - now apply frame_walledIn.
  - eexists. split; [reflexivity|]. exact H.
  - eexists. split; [reflexivity|]. exact H.
  - eexists. split; [reflexivity|].
    destruct (Status_eqb _ _); [|exact H].
    destruct H as (H1 & H2 & H3 & H4 & H5 & H6). repeat split; assumption.
  - eexists. split; [reflexivity|].
    destruct (Status_eqb _ _); [|exact H].
    destruct H as (H1 & H2 & H3 & H4 & H5 & H6). repeat split; assumption.
Qed.

Lemma run_walledIn (es : list Event) :
  forall w, walledIn w ->
            exists w', run Math_pow Math_sqrt w es = Some w' /\ walledIn w'.
Proof.
  induction es as [|e es IH]; intros w H.
  - exists w. split; [reflexivity|exact H].
  - cbn [run]. destruct (step_walledIn w e H) as (w1 & E1 & H1).
    rewrite E1. cbn [bind]. now apply IH.
Qed.

(** X11.  The player never leaves the start cell.  The start position
    (10, 15) is a wall cell of the maze, and every step of 0.05 from it
    rounds to that same cell, so the wall test rejects every move.  From the
    component as mounted, after any sequence of frames, key events and
    button clicks no frame has thrown, the player is at (10, 15), the maze
    is the initial layout, the score is 0 and the power mode is off, for
    every implementation of [Math.pow] and [Math.sqrt].  Each event acts on
    the world the previous one produced. *)
Theorem pacman_is_walled_in (es : list Event) :
  exists w,
    run Math_pow Math_sqrt initialWorld es = Some w /\
    pacmanPos w = mkPosition 10 15 /\
    maze w = MAZE_LAYOUT /\
    cellIs (maze w) (Math_round (z (pacmanPos w)))
      (Math_round (x (pacmanPos w))) 1 = Some true /\
    score (gameState w) = 0 /\
    powerMode (gameState w) = false.
Proof.
  destruct (run_walledIn es initialWorld) as (w & E & H).
  { repeat split. }
  exists w. destruct H as (H1 & H2 & H3 & H4 & H5 & H6).
  split; [exact E|]. split; [exact H1|]. split; [exact H3|].
  split; [rewrite H1, H3; reflexivity|]. split; assumption.
Qed.

(** *** The state object after a frame *)

Lemma collect_changes (w0 : World) (mv : Move) mz cs :
  collect w0 mv = Some (mz, cs) ->
  cs = [] \/ cs = [withScore (score (gameState w0) + 10)] \/
  cs = [withPower (score (gameState w0) + 50)].
Proof.
  unfold collect. destruct (moved mv); [|intros E; injection E as _ <-; auto].
  unfold cellIs.
  destruct (at_ (maze w0) (Math_round (z (newPos mv)))) as [row|];
    [|discriminate].
  cbn [bind].
  destruct (at_ row (Math_round (x (newPos mv)))) as [c|].
  - destruct (c =? 2) eqn:E2, (c =? 3) eqn:E3; intros E;
      injection E as _ <-; cbn [app]; auto.
    apply Z.eqb_eq in E2, E3. lia.
  - intros E. injection E as _ <-. auto.
Qed.

Lemma applyAll_caught (w0 : World) (hits : list Ghost) (gs : GameState) :
  applyAll (map (fun _ => caught w0) hits) gs =
  if Nat.eqb (List.length hits) 0 then gs else caught w0 gs.
Proof.
  unfold applyAll. revert gs.
  induction hits as [|h hits IH]; intros gs; [reflexivity|].
  cbn [map fold_left List.length Nat.eqb]. rewrite IH.
  destruct (Nat.eqb (List.length hits) 0); [reflexivity|].
  unfold caught. destruct (powerMode (gameState w0)); reflexivity.
Qed.

(** X12.  Score, lives and status after a frame of the maze game in the
    playing status.  If a ghost touches the player outside the power mode
    the frame takes exactly one life, however many ghosts touch, resets the
    player to (10, 15) and ends the game if the render had at most one life;
    otherwise lives and status are unchanged.  In the power mode a touch
    makes the score the render's score plus 200.  Every reward of the frame
    is computed from the render's score, so the score after the frame is the
    render's score or that score plus 10, 50 or 200. *)
Theorem pacman_frame_state (rnd : random) (w0 w' : World) :
  gameStatus (gameState w0) = playing ->
  frame Math_pow Math_sqrt rnd w0 = Some w' ->
  let gs0 := gameState w0 in
  let caughtNow :=
    negb (Nat.eqb (List.length (filter (touches Math_pow Math_sqrt w0)
                                  (ghosts w0))) 0) in
  lives (gameState w') =
    (if caughtNow && negb (powerMode gs0) then lives gs0 - 1 else lives gs0) /\
  gameStatus (gameState w') =
    (if caughtNow && negb (powerMode gs0) && (lives gs0 <=? 1)
     then gameOver else playing) /\
  (caughtNow && negb (powerMode gs0) = true ->
   pacmanPos w' = mkPosition 10 15) /\
  (caughtNow && powerMode gs0 = true ->
   score (gameState w') = score gs0 + 200) /\
  (score (gameState w') = score gs0 \/
   score (gameState w') = score gs0 + 10 \/
   score (gameState w') = score gs0 + 50 \/
   score (gameState w') = score gs0 + 200).
Proof.
  intros Hst. unfold frame. rewrite Hst. cbn [Status_eqb negb].
  destruct (movePacman w0) as [mv|]; [|discriminate]. cbn [bind].
  destruct (collect w0 mv) as [[mz cs]|] eqn:Ec; [|discriminate].
  cbn [bind].
  destruct (moveGhosts (maze w0) rnd 0 (ghosts w0)) as [gs'|]; [|discriminate].
  cbn [bind]. intros E. injection E as <-. cbv zeta.
  cbn [gameState pacmanPos].
  set (hits := filter (touches Math_pow Math_sqrt w0) (ghosts w0)).
  rewrite fold_left_app.
  change (fold_left (fun gs (c : Change) => c gs)
            (map (fun _ => caught w0) hits)
            (fold_left (fun gs (c : Change) => c gs) cs (gameState w0)))
    with (applyAll (map (fun _ => caught w0) hits)
            (fold_left (fun gs (c : Change) => c gs) cs (gameState w0))).
  rewrite applyAll_caught.
  set (g1 := fold_left (fun gs (c : Change) => c gs) cs (gameState w0)).
  assert (H1 : lives g1 = lives (gameState w0) /\
               gameStatus g1 = playing /\
               (score g1 = score (gameState w0) \/
                score g1 = score (gameState w0) + 10 \/
                score g1 = score (gameState w0) + 50)).
  { subst g1.
    destruct (collect_changes w0 mv mz cs Ec) as [->|[->| ->]];
      cbn; rewrite ?Hst; auto. }
  destruct H1 as (Hl & Hs & Hsc).
  destruct (Nat.eqb (List.length hits) 0); cbn [negb andb].
  - split; [exact Hl|]. split; [exact Hs|].
    split; [discriminate|]. split; [discriminate|]. tauto.
  - unfold caught. destruct (powerMode (gameState w0)); cbn [negb andb].
    + cbn [lives gameStatus score withScore].
      split; [exact Hl|]. split; [exact Hs|].
      split; [discriminate|]. split; [reflexivity|]. auto.
    + cbn [lives gameStatus score withLives].
      split; [reflexivity|].
      split; [destruct (_ <=? _); reflexivity|].
      split; [reflexivity|]. split; [discriminate|]. tauto.
Qed.

(** X13.  The maze after a frame that does not throw.  Rows keep their
    lengths, a wall stays a wall, a cell either keeps its value or held a
    dot or a power pellet and is now empty, and at most one cell changes. *)
Theorem pacman_frame_maze (rnd : random) (w0 w' : World) :
  frame Math_pow Math_sqrt rnd w0 = Some w' ->
  map (@List.length Z) (maze w') = map (@List.length Z) (maze w0) /\
  (forall r c,
     look (maze w0) r c = Some 1 -> look (maze w') r c = Some 1) /\
  (forall r c,
     look (maze w') r c = look (maze w0) r c \/
     (look (maze w') r c = Some 0 /\
      (look (maze w0) r c = Some 2 \/ look (maze w0) r c = Some 3))) /\
  exists r0 c0, forall r c,
    look (maze w') r c <> look (maze w0) r c -> r = r0 /\ c = c0.
Proof.
  unfold frame. destruct (negb _).
  { intros E. injection E as <-.
    split; [reflexivity|]. split; [auto|]. split; [auto|].
    exists O, O. intros r c H. congruence. }
  destruct (movePacman w0) as [mv|]; [|discriminate]. cbn [bind].
  destruct (collect w0 mv) as [[mz cs]|] eqn:Ec; [|discriminate].
  cbn [bind].
  destruct (moveGhosts (maze w0) rnd 0 (ghosts w0)) as [gs'|]; [|discriminate].
  cbn [bind]. intros E. injection E as <-. cbn [maze].
  destruct (collect_maze w0 mv mz cs Ec) as [->|(vz & vx & -> & Hc)].
  { split; [reflexivity|]. split; [auto|]. split; [auto|].
    exists O, O. intros r c H. congruence. }
  split; [apply clearCell_shape|].
  assert (L : forall r c,
            look (clearCell (maze w0) vz vx) r c =
            if Nat.eqb (Z.to_nat vz) r && Nat.eqb (Z.to_nat vx) c then Some 0
            else look (maze w0) r c).
  { intros r c. rewrite clearCell_look. destruct Hc as [-> | ->]; reflexivity. }
  split.
  { intros r c H. rewrite L.
    destruct (Nat.eqb (Z.to_nat vz) r && Nat.eqb (Z.to_nat vx) c) eqn:E;
      [|exact H].
    apply andb_true_iff in E. destruct E as [E1 E2].
    apply Nat.eqb_eq in E1, E2. subst r c. destruct Hc; congruence. }
  split.
  { intros r c. rewrite L.
    destruct (Nat.eqb (Z.to_nat vz) r && Nat.eqb (Z.to_nat vx) c) eqn:E;
      [|now left].
    apply andb_true_iff in E. destruct E as [E1 E2].
    apply Nat.eqb_eq in E1, E2. subst r c. right. split; [reflexivity|exact Hc]. }
  exists (Z.to_nat vz), (Z.to_nat vx). intros r c. rewrite L.
  destruct (Nat.eqb (Z.to_nat vz) r && Nat.eqb (Z.to_nat vx) c) eqn:E;
    [|congruence].
  apply andb_true_iff in E. destruct E as [E1 E2].
  apply Nat.eqb_eq in E1, E2. auto.
Qed.

End Scene.

(** *** Ghosts and walls *)

Lemma moveGhost_corridor mz rnd i g g' i' :
  moveGhost mz rnd i g = Some (g', i') ->
  color g' = color g /\
  (pos g' = pos g \/
   (direction g' = direction g /\ inCorridor mz (pos g') = true)).
Proof.
  unfold moveGhost.
  destruct (ltZ _ _ || geZ _ _ || ltZ _ _ || geZ _ _) eqn:Eb.
  { intros E. injection E as <- _. cbn. auto. }
  destruct (cellIs mz _ _ 1) as [wall|] eqn:Ec; [|discriminate].
  cbn [bind]. destruct wall.
  { intros E. injection E as <- _. cbn. auto. }
  destruct (rnd i <? 0.01)%float.
  { intros E. injection E as <- _. cbn. auto. }
  intros E. injection E as <- _. cbn [color pos direction].
  split; [reflexivity|]. right. split; [reflexivity|].
  unfold inCorridor. cbn [x z] in Eb, Ec |- *. rewrite Eb, Ec. reflexivity.
Qed.

Lemma moveGhosts_corridor mz rnd gs :
  forall i gs',
    moveGhosts mz rnd i gs = Some gs' ->
    List.length gs' = List.length gs /\
    (forallb (fun g => inCorridor mz (pos g)) gs = true ->
     forallb (fun g => inCorridor mz (pos g)) gs' = true) /\
    forall k g g',
      nth_error gs k = Some g -> nth_error gs' k = Some g' ->
      color g' = color g /\
      (pos g' = pos g \/
       (direction g' = direction g /\ inCorridor mz (pos g') = true)).
Proof.
  induction gs as [|g gs IH]; intros i gs'; cbn [moveGhosts].
  - intros E. injection E as <-. split; [reflexivity|]. split; [auto|].
    intros [|k] ? ? E; discriminate E.
  - destruct (moveGhost mz rnd i g) as [[g1 i1]|] eqn:E1; [|discriminate].
    cbn [bind].
    destruct (moveGhosts mz rnd i1 gs) as [rest|] eqn:E2; [|discriminate].
    cbn [bind]. intros E. injection E as <-.
    destruct (IH i1 rest E2) as (L & F & N).
    pose proof (moveGhost_corridor mz rnd i g g1 i1 E1) as (C1 & P1).
    split; [cbn; now rewrite L|]. split.
    + cbn [forallb]. intros H. apply andb_true_iff in H.
      destruct H as [H1 H2]. apply andb_true_iff. split; [|now apply F].
      destruct P1 as [-> | [_ P1]]; assumption.
    + intros [|k] a a'; cbn [nth_error].
      * intros E E'. injection E as <-. injection E' as <-. now split.
      * apply N.
Qed.

Lemma at_setAt_row (row : list Z) (vx : nat) (gx : Rounded) (c : Z) :
  nth_error row vx = Some c -> c <> 1 ->
  match at_ (setAt row vx 0) gx with Some c => c =? 1 | None => false end =
  match at_ row gx with Some c => c =? 1 | None => false end.
Proof.
  intros Hc Hn. unfold at_. destruct gx as [v| |]; try reflexivity.
  destruct (v <? 0); [reflexivity|]. rewrite setAt_nth.
  destruct (Nat.eqb vx (Z.to_nat v) && _) eqn:E; [|reflexivity].
  apply andb_true_iff in E. destruct E as [E _]. apply Nat.eqb_eq in E.
  rewrite <- E, Hc. symmetry. cbn. apply Z.eqb_neq. exact Hn.
Qed.

(** Clearing a dot or a pellet changes no answer of the wall test. *)
Lemma cellIs_clearCell (mz : list (list Z)) (vz vx : Z) (gz gx : Rounded) :
  (look mz (Z.to_nat vz) (Z.to_nat vx) = Some 2 \/
   look mz (Z.to_nat vz) (Z.to_nat vx) = Some 3) ->
  cellIs (clearCell mz vz vx) gz gx 1 = cellIs mz gz gx 1.
Proof.
  intros H. unfold cellIs, clearCell. unfold look in H.
  destruct (nth_error mz (Z.to_nat vz)) as [row|] eqn:Er;
    [|destruct H; discriminate].
  assert (Hc : exists c, nth_error row (Z.to_nat vx) = Some c /\ c <> 1).
  { destruct H as [H|H]; eexists; (split; [exact H|lia]). }
  destruct Hc as (c & Hc & Hn).
  unfold at_ at 1 3. destruct gz as [v| |]; try reflexivity.
  destruct (v <? 0); [reflexivity|]. rewrite setAt_nth.
  destruct (Nat.eqb (Z.to_nat vz) (Z.to_nat v) && _) eqn:E; [|reflexivity].
  apply andb_true_iff in E. destruct E as [E _]. apply Nat.eqb_eq in E.
  rewrite <- E, Er. f_equal. now apply (at_setAt_row row _ gx c).
Qed.

Lemma forallb_corridor (mz mz' : list (list Z)) (gs : list Ghost) :
  (forall p, inCorridor mz p = inCorridor mz' p) ->
  forallb (fun g => inCorridor mz (pos g)) gs =
  forallb (fun g => inCorridor mz' (pos g)) gs.
Proof.
  intros H. induction gs as [|g gs IH]; [reflexivity|].
  cbn [forallb]. now rewrite H, IH.
Qed.

Section Ghosts.
Variable Math_pow : float -> float -> float.
Variable Math_sqrt : float -> float.

(** X14.  Ghosts keep out of the walls.  A frame that does not throw keeps
    the number of ghosts and the colour of each.  A ghost either stays where
    it is (and may have turned) or keeps its direction and moves to a
    position that rounds to a cell inside the maze that is not a wall.  If
    every ghost was in such a cell before the frame, every ghost is in such
    a cell of the maze after the frame. *)
Theorem pacman_ghosts_keep_to_corridors (rnd : random) (w0 w' : World) :
  frame Math_pow Math_sqrt rnd w0 = Some w' ->
  List.length (ghosts w') = List.length (ghosts w0) /\
  (forall k g g',
     nth_error (ghosts w0) k = Some g -> nth_error (ghosts w') k = Some g' ->
     color g' = color g /\
     (pos g' = pos g \/
      (direction g' = direction g /\
       inCorridor (maze w0) (pos g') = true))) /\
  (forallb (fun g => inCorridor (maze w0) (pos g)) (ghosts w0) = true ->
   forallb (fun g => inCorridor (maze w') (pos g)) (ghosts w') = true).
Proof.
  unfold frame. destruct (negb _).
  { intros E. injection E as <-. split; [reflexivity|]. split; [|auto].
    intros k g g' E E'. rewrite E in E'. injection E' as <-. auto. }
  destruct (movePacman w0) as [mv|]; [|discriminate]. cbn [bind].
  destruct (collect w0 mv) as [[mz cs]|] eqn:Ec; [|discriminate].
  cbn [bind].
  destruct (moveGhosts (maze w0) rnd 0 (ghosts w0)) as [gs'|] eqn:Eg;
    [|discriminate].
  cbn [bind]. intros E. injection E as <-. cbn [maze ghosts].
  destruct (moveGhosts_corridor (maze w0) rnd (ghosts w0) O gs' Eg)
    as (L & F & N).
  split; [exact L|]. split; [exact N|].
  intros H. rewrite (forallb_corridor mz (maze w0)); [now apply F|].
  intros p. unfold inCorridor.
  destruct (collect_maze w0 mv mz cs Ec) as [->|(vz & vx & -> & Hc)];
    [reflexivity|].
  now rewrite (cellIs_clearCell (maze w0) vz vx _ _ Hc).
Qed.

End Ghosts.

Lemma pacman_frame_state_witness :
  lives (gameState afterHunt) = 2 /\
  gameStatus (gameState afterHunt) = playing /\
  pacmanPos afterHunt = mkPosition 10 15.
Proof.
  pose proof (pacman_frame_state square PrimFloat.sqrt (fun _ => 0.5%float)
                hunted afterHunt) as H.
  cbv zeta in H. destruct H as (H1 & H2 & H3 & _).
  - reflexivity.
  - vm_compute. reflexivity.
  - split; [|split].
    + rewrite H1. vm_compute. reflexivity.
    + rewrite H2. vm_compute. reflexivity.
    + apply H3. vm_compute. reflexivity.
Defined.

Lemma pacman_ghosts_keep_to_corridors_witness :
  forallb (fun g => inCorridor (maze afterOpened) (pos g)) (ghosts afterOpened)
  = true.
Proof.
  destruct (pacman_ghosts_keep_to_corridors square PrimFloat.sqrt
              (fun _ => 0.5%float) opened afterOpened) as (_ & _ & H).
  - vm_compute. reflexivity.
  - apply H. vm_compute. reflexivity.
Defined.

Lemma pacman_frame_maze_witness :
  map (@List.length Z) (maze afterHunt) = map (@List.length Z) MAZE_LAYOUT /\
  look (maze afterHunt) 0 0 = Some 1.
Proof.
  pose proof (pacman_frame_maze square PrimFloat.sqrt (fun _ => 0.5%float)
                hunted afterHunt) as H.
  destruct H as (H1 & H2 & _).
  - vm_compute. reflexivity.
  - split.
    + exact H1.
    + apply H2. vm_compute. reflexivity.
Defined.

End PacManFacts.
